(** * graphsense-cli: instance lifecycle orchestrator

    A shallow embedding of [internal/docker.go], [internal/database.go] and the
    [cmd] package (deploy, stop/start/remove, logs/status), followed by the
    properties of the lifecycle that the specification states.

    Conventions.
    - A Go [string] is a [String.string] (a sequence of bytes).
    - A Go [int] is a 64-bit two's complement integer, carried by [Z]; the
      arithmetic of the port loop wraps around explicitly ([int_add]).
    - A Go [error] is an [option string]: [None] is [nil], [Some msg] carries
      the text of [err.Error()].
    - Everything outside the process (file system, listeners, the docker and
      docker-compose binaries, the terminal) is reached through a state
      monad [M] over [World]; each call leaves an [Event] in the trace. *)

From Stdlib Require Import ZArith List String Ascii Bool Lia Arith.
From Stdlib Require Import Numbers.DecimalString.
From Stdlib Require Import Sorting.Permutation Sorting.Sorted.
Import ListNotations.

Local Open Scope bool_scope.
Local Open Scope string_scope.
Local Open Scope Z_scope.

(* ================================================================= *)
(** ** Go integers *)

Module GoInt.

Definition min_int : Z := - 2 ^ 63.
Definition max_int : Z := 2 ^ 63 - 1.

(** Two's complement wrap-around of a mathematical integer into [int]. *)
Definition wrap (z : Z) : Z := (z + 2 ^ 63) mod 2 ^ 64 - 2 ^ 63.

Definition int_add (a b : Z) : Z := wrap (a + b).

Definition in_int (z : Z) : Prop := min_int <= z <= max_int.

(** [%d] of [fmt.Sprintf]. *)
Definition itoa (z : Z) : string := NilZero.string_of_int (Z.to_int z).

End GoInt.
Export GoInt.

(* ================================================================= *)
(** ** The parts of the Go standard library that the code calls on strings *)

(** Rune-level behaviour on non-ASCII input and path resolution belong to the
    Go runtime, not to this repository; they are taken as an interface. *)
Class Platform := {
  (** [strings.Map(unicode.ToLower, s)], used by [strings.ToLower] when [s]
      holds a byte >= 0x80. *)
  unicode_ToLower : string -> string;
  (** [strings.TrimFunc(s, unicode.IsSpace)]. *)
  unicode_TrimSpace : string -> string;
  (** [strings.TrimRightFunc(s, unicode.IsSpace)]. *)
  unicode_TrimRightSpace : string -> string;
  (** [filepath.Abs]: the cleaned absolute path, or the error of [os.Getwd]. *)
  filepath_Abs : string -> string * option string
}.

Module GoStrings.

Definition byte_in (lo hi c : ascii) : bool :=
  (N_of_ascii lo <=? N_of_ascii c)%N && (N_of_ascii c <=? N_of_ascii hi)%N.

Definition is_upper (c : ascii) : bool := byte_in "A" "Z" c.
Definition is_lower (c : ascii) : bool := byte_in "a" "z" c.
Definition is_digit (c : ascii) : bool := byte_in "0" "9" c.
Definition is_hyphen (c : ascii) : bool := Ascii.eqb c "-".

(** [c < utf8.RuneSelf] *)
Definition is_ascii_byte (c : ascii) : bool := (N_of_ascii c <? 128)%N.

Definition lower_byte (c : ascii) : ascii :=
  if is_upper c then ascii_of_N (N_of_ascii c + 32) else c.

Fixpoint all_chars (p : ascii -> bool) (s : string) : bool :=
  match s with
  | EmptyString => true
  | String c r => p c && all_chars p r
  end.

Fixpoint map_bytes (f : ascii -> ascii) (s : string) : string :=
  match s with
  | EmptyString => EmptyString
  | String c r => String (f c) (map_bytes f r)
  end.

(** [strings.ToLower]: byte-wise on ASCII-only strings, rune-wise otherwise. *)
Definition ToLower `{Platform} (s : string) : string :=
  if all_chars is_ascii_byte s then map_bytes lower_byte s
  else unicode_ToLower s.

(** [regexp.MustCompile(cls+).ReplaceAllString(s, "-")] for a negated byte
    class: every maximal run of bytes outside [keep] becomes one hyphen.
    [in_run] tells that the previous byte already belonged to the run. Bytes
    of a multi-byte or invalid UTF-8 sequence are all >= 0x80, hence outside
    both classes used here, so runs of runes and runs of bytes coincide. *)
Fixpoint replace_runs (keep : ascii -> bool) (in_run : bool) (s : string) : string :=
  match s with
  | EmptyString => EmptyString
  | String c r =>
      if keep c then String c (replace_runs keep false r)
      else if in_run then replace_runs keep true r
      else String "-" (replace_runs keep true r)
  end.

Definition ReplaceAllString (keep : ascii -> bool) (s : string) : string :=
  replace_runs keep false s.

Fixpoint TrimLeft (cut : ascii -> bool) (s : string) : string :=
  match s with
  | EmptyString => EmptyString
  | String c r => if cut c then TrimLeft cut r else s
  end.

Fixpoint TrimRight (cut : ascii -> bool) (s : string) : string :=
  match s with
  | EmptyString => EmptyString
  | String c r =>
      match TrimRight cut r with
      | EmptyString => if cut c then EmptyString else String c EmptyString
      | r' => String c r'
      end
  end.

(** [strings.Trim(s, cutset)] for a cutset given as a byte predicate. *)
Definition Trim (cut : ascii -> bool) (s : string) : string :=
  TrimRight cut (TrimLeft cut s).

(** The table [asciiSpace] of package strings. *)
Definition is_ascii_space (c : ascii) : bool :=
  let n := N_of_ascii c in
  ((9 <=? n)%N && (n <=? 13)%N) || (n =? 32)%N.

(** First loop of [strings.TrimSpace]: [inl r] when an ASCII non-space byte
    (or the end) was reached with [r] left, [inr r] when a non-ASCII byte was
    met and the rest [r] goes to the rune-aware slow path. *)
Fixpoint trim_space_left (s : string) : string + string :=
  match s with
  | EmptyString => inl EmptyString
  | String c r =>
      if negb (is_ascii_byte c) then inr s
      else if is_ascii_space c then trim_space_left r
      else inl s
  end.

Definition last_char (s : string) : option ascii :=
  match s with
  | EmptyString => None
  | String c r => Some (fold_left (fun _ d => d) (list_ascii_of_string r) c)
  end.

Definition first_char (s : string) : option ascii :=
  match s with
  | EmptyString => None
  | String c _ => Some c
  end.

(** Second loop of [strings.TrimSpace], scanning from the end. *)
Fixpoint trim_space_right (s : string) : string + string :=
  match s with
  | EmptyString => inl EmptyString
  | String c r =>
      match trim_space_right r with
      | inr r' => inr (String c r')
      | inl EmptyString =>
          if negb (is_ascii_byte c) then inr (String c EmptyString)
          else if is_ascii_space c then inl EmptyString
          else inl (String c EmptyString)
      | inl r' => inl (String c r')
      end
  end.

Definition TrimSpace `{Platform} (s : string) : string :=
  match trim_space_left s with
  | inr r => unicode_TrimSpace r
  | inl r =>
      match trim_space_right r with
      | inr r' => unicode_TrimRightSpace r'
      | inl r' => r'
      end
  end.

Fixpoint HasPrefix (s p : string) : bool :=
  match p, s with
  | EmptyString, _ => true
  | String a p', String b s' => Ascii.eqb a b && HasPrefix s' p'
  | String _ _, EmptyString => false
  end.

Fixpoint Contains (s sub : string) : bool :=
  HasPrefix s sub ||
  match s with
  | EmptyString => false
  | String _ r => Contains r sub
  end.

(** [strings.SplitN(s, "=", 2)]: one element when there is no "=", otherwise
    the text before the first "=" and everything after it. *)
Fixpoint SplitN2 (sep : ascii) (s : string) : list string :=
  match s with
  | EmptyString => [EmptyString]
  | String c r =>
      if Ascii.eqb c sep then [EmptyString; r]
      else match SplitN2 sep r with
           | [a] => [String c a]
           | a :: rest => String c a :: rest
           | [] => []
           end
  end.

(** [bufio.ScanLines] drops one trailing "\r" from each line. *)
Definition drop_cr (s : string) : string :=
  match last_char s with
  | Some c => if Ascii.eqb c "013" then substring 0 (String.length s - 1) s else s
  | None => s
  end.

Definition is_slash (c : ascii) : bool := Ascii.eqb c "/".

(** The text after the last "/" of [s] ([s] itself when it holds none). *)
Fixpoint last_element (s : string) : string :=
  match s with
  | EmptyString => EmptyString
  | String c r =>
      if all_chars (fun d => negb (is_slash d)) s then s
      else last_element r
  end.

(** [filepath.Base] on a platform whose separator is "/". *)
Definition Base (path : string) : string :=
  if String.eqb path "" then "."
  else
    let stripped := TrimRight is_slash path in
    let elem := last_element stripped in
    if String.eqb elem "" then "/" else elem.

End GoStrings.
Export GoStrings.

(* ================================================================= *)
(** ** internal/docker.go: instance names *)

(** The class [a-z0-9]: the regexp of [GenerateInstanceName] is its negation. *)
Definition lower_alnum (c : ascii) : bool := is_lower c || is_digit c.

(** The class [a-z0-9-]: the regexp of [SanitizeInstanceName] is its negation. *)
Definition name_char (c : ascii) : bool := lower_alnum c || is_hyphen c.

Definition GenerateInstanceName `{Platform} (repoPath : string) : string :=
  let repoName := Base repoPath in
  let sanitized := ReplaceAllString lower_alnum (ToLower repoName) in
  "graphsense-" ++ Trim is_hyphen sanitized.

Definition SanitizeInstanceName `{Platform} (name : string) : string :=
  ReplaceAllString name_char (ToLower name).


(* ================================================================= *)
(** ** fmt.Sprintf and errors *)

Definition error := option string.

Inductive Arg :=
| AStr (s : string)
| AInt (n : Z).

Module Fmt.

Definition show (a : Arg) : string :=
  match a with AStr s => s | AInt n => itoa n end.

Definition typed (a : Arg) : string :=
  match a with
  | AStr s => "string=" ++ s
  | AInt n => "int=" ++ itoa n
  end.

(** One verb applied to one operand; a verb of the wrong kind prints Go's
    [%!verb(type=value)]. *)
Definition verb (v : ascii) (a : Arg) : string :=
  match a with
  | AStr s =>
      if Ascii.eqb v "s" || Ascii.eqb v "v" then s
      else "%!" ++ String v ("(" ++ typed a ++ ")")
  | AInt n =>
      if Ascii.eqb v "d" || Ascii.eqb v "v" then itoa n
      else "%!" ++ String v ("(" ++ typed a ++ ")")
  end.

Fixpoint extra (args : list Arg) : string :=
  match args with
  | [] => ""
  | [a] => typed a
  | a :: rest => typed a ++ ", " ++ extra rest
  end.

Fixpoint Sprintf (format : string) (args : list Arg) : string :=
  match format with
  | EmptyString =>
      match args with
      | [] => ""
      | _ => "%!(EXTRA " ++ extra args ++ ")"
      end
  | String c r =>
      if Ascii.eqb c "%" then
        match r with
        | EmptyString => "%!(NOVERB)"
        | String v r' =>
            if Ascii.eqb v "%" then String "%" (Sprintf r' args)
            else match args with
                 | a :: rest => verb v a ++ Sprintf r' rest
                 | [] => "%!" ++ String v ("(MISSING)" ++ Sprintf r' [])
                 end
        end
      else String c (Sprintf r args)
  end.

Definition Errorf (format : string) (args : list Arg) : error :=
  Some (Sprintf format args).

End Fmt.
Export Fmt.

Definition nl : string := String "010" "".
Definition dquote : string := String "034" "".

(* ================================================================= *)
(** ** The world outside the process *)

(** What a path names on disk. [Denied] is an entry that [os.Stat] and
    [os.Open] cannot reach for a reason other than absence. *)
Inductive FileState :=
| Absent
| Denied
| Dir
| File (content : string).

(** The host machine: its port namespace, the docker engine behind the
    [docker] and [docker-compose] binaries, and its temporary directory.
    Its state is opaque to this program. *)
Class Host := {
  HostState : Type;
  (** [net.Listen("tcp", ":port")] returned an error. *)
  listen_fails : Z -> HostState -> bool * HostState;
  (** [exec.Command(argv...).Output()] with extra environment entries. *)
  exec_Output : list string -> list (string * string) -> HostState ->
                (string * error) * HostState;
  (** [cmd.Run()] with the streams of the caller. *)
  exec_Run : list string -> list (string * string) -> HostState ->
             error * HostState;
  (** [os.CreateTemp("", pattern)]: the name of the file created. *)
  os_CreateTemp : string -> HostState -> (string * error) * HostState;
  (** [WriteString] on the open file returned an error. *)
  write_fails : string -> string -> HostState -> error * HostState
}.

(** One row of table [instances]. *)
Record Instance := {
  ID : Z;
  InstanceName : string;
  ContainerName : string;
  RepoPath : string;
  AppPort : Z;
  PostgresPort : Z;
  Neo4jBoltPort : Z;
  CreatedAt : string
}.

(** The SQLite file [~/.graphsense/instances.db]. [seq] is the largest
    rowid ever handed out (AUTOINCREMENT). Statement number [ops] fails with
    an I/O error when [io_fail ops] holds, and sees [clock ops] as
    CURRENT_TIMESTAMP. *)
Record Db := {
  on_disk : bool;
  rows : list Instance;
  seq : Z;
  ops : nat;
  io_fail : nat -> bool;
  clock : nat -> string
}.

Inductive Level := Info | Success | Warning | Error.

Inductive Sql :=
| CreateTable
| InsertOrReplace (instance container repo : string) (app pg neo : Z)
| SelectByInstance (instance : string)
| DeleteByInstance (instance : string)
| SelectAll.

Inductive Event :=
| EvStat (path : string)
| EvOpen (path : string)
| EvMkdirAll (path : string)
| EvListen (port : Z) (inUse : bool)
| EvOutput (argv : list string) (env : list (string * string)) (out : string) (err : error)
| EvRun (argv : list string) (env : list (string * string)) (err : error)
| EvCreateTemp (pattern : string) (name : string) (err : error)
| EvWrite (name content : string) (err : error)
| EvRemove (path : string)
| EvReadStdin (line : string) (err : error)
| EvPrint (text : string)
| EvLog (lvl : Level) (msg : string)
| EvSleep (seconds : Z)
| EvSql (stmt : Sql) (err : error).

Record World `{Host} := {
  host : HostState;
  home : string * error;          (* result of os.UserHomeDir *)
  files : string -> FileState;
  db : Db;
  stdin : string;                 (* input not read yet *)
  trace : list Event              (* oldest first *)
}.

Section Monad.
Context `{Host}.

Definition M (A : Type) : Type := World -> A * World.

Definition ret {A} (a : A) : M A := fun w => (a, w).

Definition bind {A B} (c : M A) (k : A -> M B) : M B :=
  fun w => let (a, w') := c w in k a w'.

Definition emit (e : Event) : M unit :=
  fun w => (tt, {| host := host w; home := home w; files := files w;
                   db := db w; stdin := stdin w; trace := trace w ++ [e] |}).

Definition get_world : M World := fun w => (w, w).

Definition set_host (h : HostState) : M unit :=
  fun w => (tt, {| host := h; home := home w; files := files w;
                   db := db w; stdin := stdin w; trace := trace w |}).

Definition set_files (f : string -> FileState) : M unit :=
  fun w => (tt, {| host := host w; home := home w; files := f;
                   db := db w; stdin := stdin w; trace := trace w |}).

Definition set_db (d : Db) : M unit :=
  fun w => (tt, {| host := host w; home := home w; files := files w;
                   db := d; stdin := stdin w; trace := trace w |}).

Definition set_stdin (s : string) : M unit :=
  fun w => (tt, {| host := host w; home := home w; files := files w;
                   db := db w; stdin := s; trace := trace w |}).

End Monad.

Notation "x <- c ;; k" := (bind c (fun x => k))
  (at level 61, c at next level, right associativity).
Notation "' pat <- c ;; k" := (bind c (fun x => match x with pat => k end))
  (at level 61, pat pattern, c at next level, right associativity).
Notation "c ;;; k" := (bind c (fun _ => k))
  (at level 61, right associativity).

(* ================================================================= *)
(** ** Calls into the operating system *)

Section Syscalls.
Context `{Host}.

Definition update (f : string -> FileState) (p : string) (st : FileState)
  : string -> FileState :=
  fun q => if String.eqb q p then st else f q.

(** [_, err := os.Stat(path); os.IsNotExist(err)] *)
Definition stat_IsNotExist (path : string) : M bool :=
  emit (EvStat path) ;;;
  w <- get_world ;;
  ret (match files w path with Absent => true | _ => false end).

Definition os_UserHomeDir : M (string * error) :=
  w <- get_world ;; ret (home w).

(** [filepath.Join] of a directory and plain names. *)
Fixpoint Join (dir : string) (names : list string) : string :=
  match names with
  | [] => dir
  | n :: rest => Join (dir ++ "/" ++ n) rest
  end.

Definition os_Remove (path : string) : M unit :=
  emit (EvRemove path) ;;;
  w <- get_world ;;
  set_files (update (files w) path Absent).

Definition net_Listen_fails (port : Z) : M bool :=
  w <- get_world ;;
  let (b, h) := listen_fails port (host w) in
  set_host h ;;;
  emit (EvListen port b) ;;;
  ret b.

Definition cmd_Output (argv : list string) (env : list (string * string))
  : M (string * error) :=
  w <- get_world ;;
  let '(out, err, h) := exec_Output argv env (host w) in
  set_host h ;;;
  emit (EvOutput argv env out err) ;;;
  ret (out, err).

Definition cmd_Run (argv : list string) (env : list (string * string)) : M error :=
  w <- get_world ;;
  let (err, h) := exec_Run argv env (host w) in
  set_host h ;;;
  emit (EvRun argv env err) ;;;
  ret err.

Definition CreateTemp (pattern : string) : M (string * error) :=
  w <- get_world ;;
  let '(name, err, h) := os_CreateTemp pattern (host w) in
  set_host h ;;;
  emit (EvCreateTemp pattern name err) ;;;
  match err with
  | Some _ => ret (name, err)
  | None => set_files (update (files w) name (File "")) ;;; ret (name, err)
  end.

Definition WriteString (name content : string) : M error :=
  w <- get_world ;;
  let (err, h) := write_fails name content (host w) in
  set_host h ;;;
  emit (EvWrite name content err) ;;;
  match err with
  | Some _ => ret err
  | None => set_files (update (files w) name (File content)) ;;; ret err
  end.

(** Text up to and including the first "\n" of [s], and the rest; [None]
    when [s] holds no "\n". *)
Fixpoint cut_line (s : string) : option (string * string) :=
  match s with
  | EmptyString => None
  | String c r =>
      if Ascii.eqb c "010" then Some (String c EmptyString, r)
      else match cut_line r with
           | Some (l, rest) => Some (String c l, rest)
           | None => None
           end
  end.

(** [bufio.NewReader(os.Stdin).ReadString('\n')] *)
Definition ReadString_stdin : M (string * error) :=
  w <- get_world ;;
  match cut_line (stdin w) with
  | Some (l, rest) =>
      set_stdin rest ;;; emit (EvReadStdin l None) ;;; ret (l, None)
  | None =>
      set_stdin "" ;;; emit (EvReadStdin (stdin w) (Some "EOF")) ;;;
      ret (stdin w, Some "EOF")
  end.

Definition Print (text : string) : M unit := emit (EvPrint text).

Definition Sleep (seconds : Z) : M unit := emit (EvSleep seconds).

(** The four methods of [Logger]. *)
Definition Log (lvl : Level) (msg : string) : M unit := emit (EvLog lvl msg).

End Syscalls.

(* ================================================================= *)
(** ** internal/database.go *)

Section Database.
Context `{Host}.

(** The UNIQUE(instance_name, container_name) key of a row. *)
Definition same_key (instance container : string) (r : Instance) : bool :=
  String.eqb (InstanceName r) instance && String.eqb (ContainerName r) container.

Definition of_instance (instance : string) (r : Instance) : bool :=
  String.eqb (InstanceName r) instance.

(** ORDER BY under SQLite's BINARY collation: insertion sort on a
    byte-wise comparison of the sort key. *)
Fixpoint insert_by (le : Instance -> Instance -> bool) (r : Instance)
  (l : list Instance) : list Instance :=
  match l with
  | [] => [r]
  | x :: rest => if le r x then r :: l else x :: insert_by le r rest
  end.

Definition order_by (le : Instance -> Instance -> bool) (l : list Instance)
  : list Instance :=
  fold_right (insert_by le) [] l.

Definition by_container (a b : Instance) : bool :=
  String.leb (ContainerName a) (ContainerName b).

Definition by_instance_container (a b : Instance) : bool :=
  match String.compare (InstanceName a) (InstanceName b) with
  | Lt => true
  | Gt => false
  | Eq => String.leb (ContainerName a) (ContainerName b)
  end.

Definition tick (d : Db) (disk : bool) (rs : list Instance) (s : Z) : Db :=
  {| on_disk := disk; rows := rs; seq := s; ops := S (ops d);
     io_fail := io_fail d; clock := clock d |}.

(** What one statement does to the file: the rows it returns, the number of
    rows it changed, and the file afterwards. A statement that fails
    changes nothing. *)
Definition run_sql (stmt : Sql) (d : Db) : list Instance * Z * error * Db :=
  if io_fail d (ops d) then
    ([], 0, Some "disk I/O error", tick d (on_disk d) (rows d) (seq d))
  else
    match stmt with
    | CreateTable => ([], 0, None, tick d true (rows d) (seq d))
    | InsertOrReplace i c r a p n =>
        let kept := filter (fun x => negb (same_key i c x)) (rows d) in
        let row := {| ID := seq d + 1; InstanceName := i; ContainerName := c;
                      RepoPath := r; AppPort := a; PostgresPort := p;
                      Neo4jBoltPort := n; CreatedAt := clock d (ops d) |} in
        ([], 1, None, tick d (on_disk d) (kept ++ [row]) (seq d + 1))
    | SelectByInstance i =>
        (order_by by_container (filter (of_instance i) (rows d)), 0, None,
         tick d (on_disk d) (rows d) (seq d))
    | DeleteByInstance i =>
        let gone := filter (of_instance i) (rows d) in
        let kept := filter (fun x => negb (of_instance i x)) (rows d) in
        ([], Z.of_nat (List.length gone), None, tick d (on_disk d) kept (seq d))
    | SelectAll =>
        (order_by by_instance_container (rows d), 0, None,
         tick d (on_disk d) (rows d) (seq d))
    end.

(** [db.Exec] and [db.Query]: rows, rows affected, error. *)
Definition sql (stmt : Sql) : M (list Instance * Z * error) :=
  w <- get_world ;;
  let '(rs, n, err, d) := run_sql stmt (db w) in
  set_db d ;;;
  emit (EvSql stmt err) ;;;
  ret (rs, n, err).

Definition os_MkdirAll (path : string) : M error :=
  emit (EvMkdirAll path) ;;;
  w <- get_world ;;
  match files w path with
  | Dir => ret None
  | Absent => set_files (update (files w) path Dir) ;;; ret None
  | Denied => ret (Some ("mkdir " ++ path ++ ": permission denied"))
  | File _ => ret (Some ("mkdir " ++ path ++ ": not a directory"))
  end.

(** [InitDB]. [sql.Open] only records the driver and the path, so its
    error branch is never taken with the registered sqlite3 driver; the handle
    it returns is the file [db] of the world. *)
Definition InitDB : M error :=
  '(homeDir, err) <- os_UserHomeDir ;;
  match err with
  | Some e => ret (Errorf "failed to get home directory: %v" [AStr e])
  | None =>
      let graphsenseDir := Join homeDir [".graphsense"] in
      err <- os_MkdirAll graphsenseDir ;;
      match err with
      | Some e => ret (Errorf "failed to create .graphsense directory: %v" [AStr e])
      | None =>
          let dbPath := Join graphsenseDir ["instances.db"] in
          emit (EvStat dbPath) ;;;
          w <- get_world ;;
          let dbExists := on_disk (db w) in
          (if dbExists then ret tt
           else Log Info (Sprintf "Creating new database at: %s" [AStr dbPath])) ;;;
          (if dbExists then ret tt
           else Log Info "Database file created successfully") ;;;
          '(_, _, err) <- sql CreateTable ;;
          match err with
          | Some e => ret (Errorf "failed to create instances table: %v" [AStr e])
          | None => ret None
          end
      end
  end.

End Database.

(** [DeployConfig] of docker.go. Its fields share their names with the
    columns of [Instance], so they live in a module of their own. *)
Module DeployConfig.
Record t := {
  RepoPath : string;
  InstanceName : string;
  AppPort : Z;
  PostgresPort : Z;
  Neo4jBoltPort : Z;
  CoAPIKey : string;
  AnthropicAPIKey : string
}.
End DeployConfig.

Section Registry.
Context `{Host}.

Definition containerNames (config : DeployConfig.t) : list string :=
  [ Sprintf "%s-app" [AStr (DeployConfig.InstanceName config)];
    Sprintf "%s-postgres" [AStr (DeployConfig.InstanceName config)];
    Sprintf "%s-neo4j" [AStr (DeployConfig.InstanceName config)] ].

(** The loop of [StoreInstanceContainers] over the container names. *)
Fixpoint store_each (config : DeployConfig.t) (names : list string) : M error :=
  match names with
  | [] => ret None
  | containerName :: rest =>
      '(_, _, err) <- sql (InsertOrReplace
                             (DeployConfig.InstanceName config)
                             containerName
                             (DeployConfig.RepoPath config)
                             (DeployConfig.AppPort config)
                             (DeployConfig.PostgresPort config)
                             (DeployConfig.Neo4jBoltPort config)) ;;
      match err with
      | Some e =>
          ret (Errorf "failed to store container %s: %v" [AStr containerName; AStr e])
      | None => store_each config rest
      end
  end.

Definition StoreInstanceContainers (config : DeployConfig.t) : M error :=
  err <- InitDB ;;
  match err with
  | Some e => ret (Some e)
  | None =>
      err <- store_each config (containerNames config) ;;
      match err with
      | Some e => ret (Some e)
      | None =>
          Log Info (Sprintf "Stored %d containers for instance %s in database"
                      [AInt (Z.of_nat (List.length (containerNames config)));
                       AStr (DeployConfig.InstanceName config)]) ;;;
          ret None
      end
  end.

(** [rows.Scan] into an [Instance] cannot fail on this schema: every column
    is NOT NULL or has a default and matches the type of its destination. *)
Definition GetInstanceContainers (instanceName : string)
  : M (list Instance * error) :=
  err <- InitDB ;;
  match err with
  | Some e => ret ([], Some e)
  | None =>
      '(rs, _, err) <- sql (SelectByInstance instanceName) ;;
      match err with
      | Some e => ret ([], Errorf "failed to query containers: %v" [AStr e])
      | None => ret (rs, None)
      end
  end.

(** [result.RowsAffected] of the sqlite3 driver never returns an error. *)
Definition RemoveInstanceContainers (instanceName : string) : M error :=
  err <- InitDB ;;
  match err with
  | Some e => ret (Some e)
  | None =>
      '(_, rowsAffected, err) <- sql (DeleteByInstance instanceName) ;;
      match err with
      | Some e =>
          ret (Errorf "failed to remove containers for instance %s: %v"
                 [AStr instanceName; AStr e])
      | None =>
          Log Info (Sprintf "Removed %d containers for instance %s from database"
                      [AInt rowsAffected; AStr instanceName]) ;;;
          ret None
      end
  end.

Definition GetAllInstances : M (list Instance * error) :=
  err <- InitDB ;;
  match err with
  | Some e => ret ([], Some e)
  | None =>
      '(rs, _, err) <- sql SelectAll ;;
      match err with
      | Some e => ret ([], Errorf "failed to query all instances: %v" [AStr e])
      | None => ret (rs, None)
      end
  end.

End Registry.

(* ================================================================= *)
(** ** internal/docker.go *)

Definition DefaultBasePort : Z := 8080.
Definition DefaultPostgresPort : Z := 5432.
Definition DefaultNeo4jPort : Z := 7687.

(** The step of the port search and the bound of its safety check. *)
Definition port_step : Z := 10.
Definition port_limit : Z := 65000.

Section Docker.
Context `{Host} `{Platform}.

Definition isPortInUse (port : Z) : M bool := net_Listen_fails port.

Definition IsPortInUse (port : Z) : M bool := isPortInUse port.

(** Go's short-circuit [||] on effectful operands. *)
Definition orM (a b : M bool) : M bool :=
  x <- a ;; if x then ret true else b.

(** The condition of the [if] in the loop of [FindAvailablePortSet]. *)
Definition triple_in_use (appPort postgresPort neo4jBoltPort : Z) : M bool :=
  orM (isPortInUse appPort)
      (orM (isPortInUse postgresPort) (isPortInUse neo4jBoltPort)).

(** The [for] loop of [FindAvailablePortSet]; [None] when [fuel] iterations
    did not reach a [return]. *)
Fixpoint find_loop (fuel : nat) (basePort port : Z) : M (option (Z * error)) :=
  match fuel with
  | O => ret None
  | S fuel' =>
      let appPort := port in
      let postgresPort := int_add port 100 in
      let neo4jBoltPort := int_add port 200 in
      busy <- triple_in_use appPort postgresPort neo4jBoltPort ;;
      if busy then
        let port := int_add port port_step in
        if port >? port_limit then
          ret (Some (0, Errorf "unable to find available port set starting from %d"
                          [AInt basePort]))
        else find_loop fuel' basePort port
      else ret (Some (port, None))
  end.

Definition FindAvailablePortSet (fuel : nat) (basePort : Z)
  : M (option (Z * error)) :=
  let basePort := if basePort =? 0 then DefaultBasePort else basePort in
  find_loop fuel basePort basePort.

Definition project_label (instanceName : string) : string :=
  Sprintf "label=com.docker.compose.project=%s" [AStr instanceName].

(** The command line of the query behind [InstanceExists]. *)
Definition exists_query (instanceName : string) : list string :=
  ["docker"; "ps"; "-a"; "--filter"; project_label instanceName;
   "--format"; "{{.Names}}"].

Definition InstanceExists (instanceName : string) : M bool :=
  '(output, err) <- cmd_Output (exists_query instanceName) [] ;;
  match err with
  | Some _ => ret false
  | None => ret (negb (String.eqb (TrimSpace output) ""))
  end.

Definition env_template : string :=
"# Repository Configuration
REPO_PATH=%s

# Port Configuration
PORT=%d
POSTGRES_PORT=%d
NEO4J_BOLT_PORT=%d

# Database Configuration
POSTGRES_DB=graphsense
POSTGRES_USER=postgres
POSTGRES_PASSWORD=postgres

# Neo4j Configuration
NEO4J_AUTH=none
NEO4J_USERNAME=neo4j
NEO4J_PASSWORD=

# Application Configuration
NODE_ENV=production
LOG_LEVEL=info
INDEX_FROM_SCRATCH=true

# Security Configuration
CORS_ORIGIN=*
RATE_LIMIT_MAX=100
RATE_LIMIT_WINDOW=900000
".

(** The text that [CreateTempEnvFile] writes. *)
Definition env_content (config : DeployConfig.t) : string :=
  let content := Sprintf env_template
      [AStr (DeployConfig.RepoPath config); AInt (DeployConfig.AppPort config);
       AInt (DeployConfig.PostgresPort config);
       AInt (DeployConfig.Neo4jBoltPort config)] in
  let content :=
    if negb (String.eqb (DeployConfig.CoAPIKey config) "") then
      content ++ Sprintf ("CO_API_KEY=%s" ++ nl) [AStr (DeployConfig.CoAPIKey config)]
    else content in
  let content :=
    if negb (String.eqb (DeployConfig.AnthropicAPIKey config) "") then
      content ++ Sprintf ("ANTHROPIC_API_KEY=%s" ++ nl)
                   [AStr (DeployConfig.AnthropicAPIKey config)]
    else content in
  content.

Definition CreateTempEnvFile (config : DeployConfig.t) : M (string * error) :=
  '(tmpFile, err) <- CreateTemp "graphsense-env-*.env" ;;
  match err with
  | Some e => ret ("", Some e)
  | None =>
      err <- WriteString tmpFile (env_content config) ;;
      match err with
      | Some e => ret ("", Some e)
      | None => ret (tmpFile, None)
      end
  end.

Definition compose_template : string :=
"version: " ++ dquote ++ "3.8" ++ dquote ++ "

services:
  postgres:
    container_name: %s-postgres
    volumes:
      - %s_postgres_data:/var/lib/postgresql/data
    networks:
      - %s-network

  neo4j:
    container_name: %s-neo4j
    volumes:
      - %s_neo4j_data:/data
      - %s_neo4j_logs:/logs
      - %s_neo4j_plugins:/plugins
      - %s_neo4j_conf:/conf
    networks:
      - %s-network

  app:
    container_name: %s-app
    volumes:
      - %s_app_repos:/app/.graphsense
      - %s:/home/repo:ro
    ports:
      - " ++ dquote ++ "%d:8080" ++ dquote ++ "
    networks:
      - %s-network
    environment:
      - POSTGRES_URL=postgresql://postgres:postgres@%s-postgres:5432/${POSTGRES_DB}
      - NEO4J_URI=bolt://%s-neo4j:7687
      - LOCAL_REPO_PATH=/home/repo

networks:
  %s-network:
    driver: bridge

volumes:
  %s_postgres_data:
    name: %s_postgres_data
  %s_neo4j_data:
    name: %s_neo4j_data
  %s_neo4j_logs:
    name: %s_neo4j_logs
  %s_neo4j_plugins:
    name: %s_neo4j_plugins
  %s_neo4j_conf:
    name: %s_neo4j_conf
  %s_app_repos:
    name: %s_app_repos
".

Definition compose_content (config : DeployConfig.t) : string :=
  let n := AStr (DeployConfig.InstanceName config) in
  Sprintf compose_template
    ([n; n; n] ++
     [n; n; n; n; n; n] ++
     [n; n; AStr (DeployConfig.RepoPath config);
      AInt (DeployConfig.AppPort config); n; n; n] ++
     [n; n; n; n; n; n; n; n; n; n; n; n; n]).

Definition CreateComposeOverride (config : DeployConfig.t) : M (string * error) :=
  '(tmpFile, err) <- CreateTemp "graphsense-compose-*.yml" ;;
  match err with
  | Some e => ret ("", Some e)
  | None =>
      err <- WriteString tmpFile (compose_content config) ;;
      match err with
      | Some e => ret ("", Some e)
      | None => ret (tmpFile, None)
      end
  end.

(** [envVars] is a Go map; every caller passes at most one entry, so the
    order of iteration does not show. *)
Definition RunDockerCompose (args : list string) (envVars : list (string * string))
  : M error :=
  cmd_Run ("docker-compose" :: args) envVars.

(** The [for] loop of [WaitForHealthy]; [left] attempts remain. *)
Fixpoint wait_loop (left : nat) (instanceName : string) (attempt maxAttempts : Z)
  : M bool :=
  match left with
  | O => ret false
  | S left' =>
      '(output, err) <- cmd_Output ["docker-compose"; "ps"]
                          [("COMPOSE_PROJECT_NAME", instanceName)] ;;
      match err with
      | Some _ =>
          Sleep 5 ;;; wait_loop left' instanceName (int_add attempt 1) maxAttempts
      | None =>
          if Contains output "Up" then ret true
          else
            Sleep 5 ;;;
            Log Info (Sprintf "Waiting for health checks... (%d/%d)"
                        [AInt (int_add attempt 1); AInt maxAttempts]) ;;;
            wait_loop left' instanceName (int_add attempt 1) maxAttempts
      end
  end.

Definition WaitForHealthy (instanceName : string) (maxAttempts : Z) : M error :=
  Log Info "Waiting for services to be healthy..." ;;;
  healthy <- wait_loop (Z.to_nat maxAttempts) instanceName 0 maxAttempts ;;
  if healthy then ret None
  else
    Log Warning "Not all services became healthy within timeout, but continuing..." ;;;
    ret None.

(** [bufio.MaxScanTokenSize]: a longer line makes the scanner stop with
    [ErrTooLong]. *)
Definition MaxScanTokenSize : N := 65536.

Definition line_fits (l : string) : bool :=
  (N.of_nat (String.length l) <? MaxScanTokenSize)%N.

(** Raw lines of a text, split at "\n", before the trailing "\r" is dropped. *)
Fixpoint raw_lines (cur : string) (s : string) : list string :=
  match s with
  | EmptyString => match cur with EmptyString => [] | _ => [cur] end
  | String c r =>
      if Ascii.eqb c "010" then cur :: raw_lines EmptyString r
      else raw_lines (cur ++ String c EmptyString) r
  end.

(** The first half of the body of the scan loop of [LoadAPIKeys]: the key
    and the value of a line, [None] where the loop says [continue]. *)
Definition parse_line (text : string) : option (string * string) :=
  let line := TrimSpace text in
  if String.eqb line "" || HasPrefix line "#" then None
  else
    match SplitN2 "=" line with
    | [k; v] => Some (TrimSpace k, TrimSpace v)
    | _ => None
    end.

(** The body of the scan loop for one line, with its [switch]. *)
Definition load_line (keys : string * string) (text : string) : string * string :=
  match parse_line text with
  | None => keys
  | Some (key, value) =>
      if String.eqb key "CO_API_KEY" then (value, snd keys)
      else if String.eqb key "ANTHROPIC_API_KEY" then (fst keys, value)
      else keys
  end.

(** The scan loop: lines are consumed until one does not fit the buffer. *)
Fixpoint load_lines (keys : string * string) (ls : list string)
  : (string * string) * error :=
  match ls with
  | [] => (keys, None)
  | l :: rest =>
      if line_fits l then load_lines (load_line keys (drop_cr l)) rest
      else (keys, Some "bufio.Scanner: token too long")
  end.

Definition LoadAPIKeys : M (string * string * error) :=
  '(homeDir, err) <- os_UserHomeDir ;;
  match err with
  | Some e => ret ("", "", Errorf "failed to get home directory: %v" [AStr e])
  | None =>
      let envFile := Join homeDir [".graphsense"; ".env"] in
      missing <- stat_IsNotExist envFile ;;
      if missing then
        ret ("", "", Errorf "API keys file not found: %s" [AStr envFile])
      else
        emit (EvOpen envFile) ;;;
        w <- get_world ;;
        match files w envFile with
        | Absent =>
            ret ("", "", Errorf "failed to open API keys file: %v"
                           [AStr ("open " ++ envFile ++ ": no such file or directory")])
        | Denied =>
            ret ("", "", Errorf "failed to open API keys file: %v"
                           [AStr ("open " ++ envFile ++ ": permission denied")])
        | Dir =>
            ret ("", "", Errorf "failed to read API keys file: %v"
                           [AStr ("read " ++ envFile ++ ": is a directory")])
        | File content =>
            match load_lines ("", "") (raw_lines "" content) with
            | (_, Some e) =>
                ret ("", "", Errorf "failed to read API keys file: %v" [AStr e])
            | ((coAPIKey, anthropicAPIKey), None) =>
                ret (coAPIKey, anthropicAPIKey, None)
            end
        end
  end.

End Docker.

(* ================================================================= *)
(** ** Package cmd *)

Definition tab : string := String "009" "".

Section Cmd.
Context `{Host} `{Platform}.

(** Lines 51 to 57 of [deployInstance]: the name the deployment runs under. *)
Definition deploy_name (absRepoPath instanceName : string) : string :=
  let instanceName :=
    if String.eqb instanceName "" then GenerateInstanceName absRepoPath
    else instanceName in
  SanitizeInstanceName instanceName.

(** [deployInstance]. The result is [None] when the port search ran out of
    [fuel], [Some err] when the function returned [err]. The two [defer
    os.Remove] run, last one first, on every return that follows them. *)
Definition deployInstance (fuel : nat) (repoPath instanceName : string)
  (basePort : Z) : M (option error) :=
  missing <- stat_IsNotExist repoPath ;;
  if missing then
    ret (Some (Errorf "repository path does not exist: %s" [AStr repoPath]))
  else
  let (absRepoPath, err) := filepath_Abs repoPath in
  match err with
  | Some e => ret (Some (Errorf "failed to get absolute path: %v" [AStr e]))
  | None =>
  let instanceName := deploy_name absRepoPath instanceName in
  Log Info (Sprintf "Deploying instance: %s for repository: %s"
              [AStr instanceName; AStr absRepoPath]) ;;;
  found <- InstanceExists instanceName ;;
  if found then
    ret (Some (Errorf "instance '%s' already exists. Use 'remove' command first"
                 [AStr instanceName]))
  else
  r <- FindAvailablePortSet fuel basePort ;;
  match r with
  | None => ret None
  | Some (_, Some e) =>
      ret (Some (Errorf "failed to find available ports: %v" [AStr e]))
  | Some (appPort, None) =>
  let postgresPort := int_add appPort 100 in
  let neo4jBoltPort := int_add appPort 200 in
  '(coAPIKey, anthropicAPIKey, err) <- LoadAPIKeys ;;
  match err with
  | Some e => ret (Some (Errorf "failed to load API keys: %v" [AStr e]))
  | None =>
  let config := {| DeployConfig.RepoPath := absRepoPath;
                   DeployConfig.InstanceName := instanceName;
                   DeployConfig.AppPort := appPort;
                   DeployConfig.PostgresPort := postgresPort;
                   DeployConfig.Neo4jBoltPort := neo4jBoltPort;
                   DeployConfig.CoAPIKey := coAPIKey;
                   DeployConfig.AnthropicAPIKey := anthropicAPIKey |} in
  '(envFile, err) <- CreateTempEnvFile config ;;
  match err with
  | Some e => ret (Some (Errorf "failed to create environment file: %v" [AStr e]))
  | None =>
  result <-
   ('(composeOverride, err) <- CreateComposeOverride config ;;
    match err with
    | Some e => ret (Errorf "failed to create compose override: %v" [AStr e])
    | None =>
    result <-
     (Log Info (Sprintf "Starting services for instance: %s" [AStr instanceName]) ;;;
      let envVars := [("COMPOSE_PROJECT_NAME", instanceName)] in
      '(homeDir, err) <- os_UserHomeDir ;;
      match err with
      | Some e => ret (Errorf "failed to get user home directory: %v" [AStr e])
      | None =>
      let composeFile := Join homeDir ["oss"; "code-graph-rag"; "docker-compose.yml"] in
      missing <- stat_IsNotExist composeFile ;;
      if missing then
        ret (Errorf "docker-compose.yml not found at: %s" [AStr composeFile])
      else
      err <- RunDockerCompose
               ["-f"; composeFile; "-f"; composeOverride;
                "--env-file"; envFile; "up"; "-d"] envVars ;;
      match err with
      | Some e =>
          ret (Errorf "failed to deploy instance %s: %v" [AStr instanceName; AStr e])
      | None =>
      err <- WaitForHealthy instanceName 60 ;;
      (match err with
       | Some _ => Log Warning "Health check failed, but continuing..."
       | None => ret tt
       end) ;;;
      err <- StoreInstanceContainers config ;;
      (match err with
       | Some e =>
           Log Warning (Sprintf "Failed to store container information: %v" [AStr e])
       | None => ret tt
       end) ;;;
      Log Success (Sprintf "Instance '%s' deployed successfully!" [AStr instanceName]) ;;;
      Log Info "Access URLs:" ;;;
      Log Info (Sprintf "  MCP Server: http://localhost:%d" [AInt appPort]) ;;;
      Log Info (Sprintf "  PostgreSQL: localhost:%d" [AInt postgresPort]) ;;;
      Log Info (Sprintf "  Neo4j Bolt: bolt://localhost:%d" [AInt neo4jBoltPort]) ;;;
      ret None
      end end) ;;
    os_Remove composeOverride ;;;
    ret result
    end) ;;
  os_Remove envFile ;;;
  ret (Some result)
  end end end end.

Definition not_exist (instanceName : string) : error :=
  Errorf "instance '%s' does not exist" [AStr instanceName].

Definition stopInstance (instanceName : string) : M error :=
  found <- InstanceExists instanceName ;;
  if negb found then ret (not_exist instanceName)
  else
    Log Info (Sprintf "Stopping instance: %s" [AStr instanceName]) ;;;
    let envVars := [("COMPOSE_PROJECT_NAME", instanceName)] in
    err <- RunDockerCompose ["stop"] envVars ;;
    match err with
    | Some e =>
        ret (Errorf "failed to stop instance %s: %v" [AStr instanceName; AStr e])
    | None =>
        Log Success (Sprintf "Instance '%s' stopped." [AStr instanceName]) ;;;
        ret None
    end.

Definition startInstance (instanceName : string) : M error :=
  found <- InstanceExists instanceName ;;
  if negb found then ret (not_exist instanceName)
  else
    Log Info (Sprintf "Starting instance: %s" [AStr instanceName]) ;;;
    let envVars := [("COMPOSE_PROJECT_NAME", instanceName)] in
    err <- RunDockerCompose ["start"] envVars ;;
    match err with
    | Some e =>
        ret (Errorf "failed to start instance %s: %v" [AStr instanceName; AStr e])
    | None =>
        Log Success (Sprintf "Instance '%s' started." [AStr instanceName]) ;;;
        ret None
    end.

(** The answer that lets [removeInstance] go on. *)
Definition confirmed (response : string) : bool :=
  let response := TrimSpace (ToLower response) in
  negb (negb (String.eqb response "y") && negb (String.eqb response "yes")).

Definition removeInstance (instanceName : string) : M error :=
  found <- InstanceExists instanceName ;;
  if negb found then ret (not_exist instanceName)
  else
    Log Warning (Sprintf "This will permanently remove instance '%s' and all its data."
                   [AStr instanceName]) ;;;
    Print "Are you sure? (y/N): " ;;;
    '(response, err) <- ReadString_stdin ;;
    match err with
    | Some e => ret (Some e)
    | None =>
        if negb (confirmed response) then
          Log Info "Cancelled." ;;; ret None
        else
          Log Info (Sprintf "Removing instance: %s" [AStr instanceName]) ;;;
          let envVars := [("COMPOSE_PROJECT_NAME", instanceName)] in
          err <- RunDockerCompose ["down"; "-v"; "--remove-orphans"] envVars ;;
          (match err with
           | Some _ =>
               Log Warning "Failed to cleanly remove instance with docker-compose, trying manual cleanup..." ;;;
               err <- RunDockerCompose
                        ["ps"; "-a"; "--filter"; project_label instanceName; "-q"] [] ;;
               match err with
               | None => RunDockerCompose ["rm"; "-f"] [] ;;; ret tt
               | Some _ => ret tt
               end
           | None => ret tt
           end) ;;;
          Log Info "Removing associated volumes..." ;;;
          RunDockerCompose
            ["volume"; "ls"; "-q"; "|"; "grep";
             Sprintf "^%s_" [AStr instanceName];
             "|"; "xargs"; "-r"; "docker"; "volume"; "rm"] [] ;;;
          Log Success (Sprintf "Instance '%s' removed." [AStr instanceName]) ;;;
          ret None
    end.

(** info.go *)
Definition showLogs (instanceName service : string) : M error :=
  found <- InstanceExists instanceName ;;
  if negb found then ret (not_exist instanceName)
  else
    let envVars := [("COMPOSE_PROJECT_NAME", instanceName)] in
    let args := ["logs"; "-f"] in
    let args := if negb (String.eqb service "") then (args ++ [service])%list else args in
    RunDockerCompose args envVars.

Definition showStatus (instanceName : string) : M error :=
  found <- InstanceExists instanceName ;;
  if negb found then ret (not_exist instanceName)
  else
    Log Info "Container details:" ;;;
    cmd_Run ["docker"; "ps"; "--filter"; project_label instanceName; "--format";
             "table {{.Names}}" ++ tab ++ "{{.Status}}" ++ tab ++ "{{.Ports}}"] [].

Definition cleanup : M error :=
  Log Info "Cleaning up stopped containers and unused volumes..." ;;;
  err <- RunDockerCompose ["container"; "prune"; "-f"] [] ;;
  (match err with
   | Some _ => Log Warning "Failed to clean up containers, continuing..."
   | None => ret tt
   end) ;;;
  err <- RunDockerCompose ["volume"; "prune"; "-f"] [] ;;
  (match err with
   | Some _ => Log Warning "Failed to clean up volumes, continuing..."
   | None => ret tt
   end) ;;;
  Log Success "Cleanup completed." ;;;
  ret None.

End Cmd.

(* ================================================================= *)
(** ** A small concrete machine, for running the definitions *)

Module Demo.

Record Machine := {
  busy : list Z;          (* ports held by other processes *)
  daemon_up : bool;       (* the docker daemon answers *)
  ps_names : string;      (* what a [ps] query prints *)
  compose_ok : bool       (* docker-compose exits with status 0 *)
}.

Definition valid_port (p : Z) : bool := (0 <=? p) && (p <=? 65535).

#[global] Instance machine : Host := {|
  HostState := Machine;
  listen_fails p h := (negb (valid_port p) || existsb (Z.eqb p) (busy h), h);
  exec_Output argv env h :=
    if daemon_up h then (ps_names h, None, h)
    else ("", Some "exit status 1", h);
  exec_Run argv env h :=
    (if daemon_up h && compose_ok h then None else Some "exit status 1", h);
  os_CreateTemp pattern h := ("/tmp/" ++ pattern, None, h);
  write_fails name content h := (None, h)
|}.

(** A platform whose inputs are ASCII: the rune-aware fallbacks are never
    reached, paths are taken as absolute already. *)
#[global] Instance ascii_platform : Platform := {|
  unicode_ToLower s := s;
  unicode_TrimSpace s := s;
  unicode_TrimRightSpace s := s;
  filepath_Abs s := (s, None)
|}.

Definition fresh_db : Db := {|
  on_disk := false; rows := []; seq := 0; ops := 0;
  io_fail := fun _ => false;
  clock := fun _ => "2025-01-01 00:00:00"
|}.

Definition quiet : Machine :=
  {| busy := []; daemon_up := true; ps_names := ""; compose_ok := true |}.

Definition disk (entries : list (string * FileState)) : string -> FileState :=
  fold_right (fun e f => update f (fst e) (snd e)) (fun _ => Absent) entries.

Definition world (h : Machine) (entries : list (string * FileState))
  (d : Db) (input : string) : World :=
  {| host := h; home := ("/home/op", None); files := disk entries;
     db := d; stdin := input; trace := [] |}.

Definition config : DeployConfig.t := {|
  DeployConfig.RepoPath := "/srv/repo";
  DeployConfig.InstanceName := "graphsense-repo";
  DeployConfig.AppPort := 8080;
  DeployConfig.PostgresPort := 8180;
  DeployConfig.Neo4jBoltPort := 8280;
  DeployConfig.CoAPIKey := "";
  DeployConfig.AnthropicAPIKey := "sk-1"
|}.

End Demo.

(* ================================================================= *)
(** ** Instance names *)

(** The property the name of an instance is meant to have. *)
Definition valid_name (s : string) : bool :=
  all_chars name_char s
  && negb (HasPrefix s "-")
  && match last_char s with Some c => negb (is_hyphen c) | None => true end.

Section NameProps.
Context `{Platform}.

Lemma all_chars_impl (p q : ascii -> bool) (s : string) :
  (forall c, p c = true -> q c = true) ->
  all_chars p s = true -> all_chars q s = true.
Proof.
  intros Hpq. induction s as [|c r IH]; simpl; auto.
  rewrite !andb_true_iff. intros [Hc Hr]. auto.
Qed.

Lemma all_chars_app (p : ascii -> bool) (s t : string) :
  all_chars p (s ++ t) = all_chars p s && all_chars p t.
Proof.
  induction s as [|c r IH]; simpl; auto.
  now rewrite IH, andb_assoc.
Qed.

Lemma replace_runs_chars (keep : ascii -> bool) (b : bool) (s : string) :
  all_chars (fun c => keep c || is_hyphen c) (replace_runs keep b s) = true.
Proof.
  revert b. induction s as [|c r IH]; intros b; simpl; auto.
  destruct (keep c) eqn:Hk.
  - simpl. now rewrite Hk, IH.
  - destruct b; simpl; rewrite ?IH; auto.
    destruct (keep "-"%char); reflexivity.
Qed.

Lemma replace_runs_id (keep : ascii -> bool) (b : bool) (s : string) :
  all_chars keep s = true -> replace_runs keep b s = s.
Proof.
  revert b. induction s as [|c r IH]; intros b; simpl; auto.
  rewrite andb_true_iff. intros [Hc Hr]. now rewrite Hc, IH.
Qed.

Lemma TrimLeft_chars (p cut : ascii -> bool) (s : string) :
  all_chars p s = true -> all_chars p (TrimLeft cut s) = true.
Proof.
  induction s as [|c r IH]; simpl; auto.
  rewrite andb_true_iff. intros [Hc Hr].
  destruct (cut c); simpl; auto. now rewrite Hc, Hr.
Qed.

Lemma TrimRight_chars (p cut : ascii -> bool) (s : string) :
  all_chars p s = true -> all_chars p (TrimRight cut s) = true.
Proof.
  induction s as [|c r IH]; simpl; auto.
  rewrite andb_true_iff. intros [Hc Hr]. specialize (IH Hr).
  destruct (TrimRight cut r) eqn:E.
  - destruct (cut c); simpl; auto. now rewrite Hc.
  - simpl in *. now rewrite Hc, IH.
Qed.

Lemma last_char_cons (c : ascii) (d : ascii) (r : string) :
  last_char (String c (String d r)) = last_char (String d r).
Proof. reflexivity. Qed.

Lemma last_char_app (s t : string) :
  t <> "" -> last_char (s ++ t) = last_char t.
Proof.
  intros Ht. induction s as [|c r IH]; simpl; auto.
  destruct (r ++ t) eqn:E.
  - destruct r, t; simpl in E; congruence.
  - rewrite <- IH. reflexivity.
Qed.

Lemma TrimRight_last (cut : ascii -> bool) (s : string) (c : ascii) :
  last_char (TrimRight cut s) = Some c -> cut c = false.
Proof.
  induction s as [|a r IH]; simpl; [discriminate|].
  destruct (TrimRight cut r) as [|d r'] eqn:E.
  - destruct (cut a) eqn:Ha; simpl; [discriminate|].
    intros [= <-]. exact Ha.
  - rewrite last_char_cons. exact IH.
Qed.

(** A kept byte survives the replacement of runs and the trimming of
    hyphens. *)
Lemma replace_runs_keeps (keep : ascii -> bool) (b : bool) (s : string) :
  all_chars (fun c => negb (keep c)) s = false ->
  all_chars (fun c => negb (keep c)) (replace_runs keep b s) = false.
Proof.
  revert b. induction s as [|c r IH]; intros b; simpl; [discriminate|].
  destruct (keep c) eqn:Hk; simpl.
  - now rewrite Hk.
  - intros Hr. destruct b; simpl; rewrite (IH _ Hr); auto using andb_false_r.
Qed.

Lemma TrimLeft_keeps (cut : ascii -> bool) (s : string) :
  all_chars cut s = false -> all_chars cut (TrimLeft cut s) = false.
Proof.
  induction s as [|c r IH]; simpl; [discriminate|].
  destruct (cut c) eqn:Hc; simpl; auto. now rewrite Hc.
Qed.

Lemma TrimRight_keeps (cut : ascii -> bool) (s : string) :
  all_chars cut s = false -> all_chars cut (TrimRight cut s) = false.
Proof.
  induction s as [|c r IH]; simpl; [discriminate|].
  destruct (cut c) eqn:Hc; simpl.
  - intros Hr. specialize (IH Hr).
    destruct (TrimRight cut r); simpl in *; [discriminate|].
    now rewrite Hc.
  - intros _. destruct (TrimRight cut r); simpl; now rewrite Hc.
Qed.

Lemma lower_alnum_not_hyphen (c : ascii) :
  lower_alnum c = true -> is_hyphen c = false.
Proof.
  unfold is_hyphen. destruct (Ascii.eqb_spec c "-") as [E|]; auto.
  rewrite E. vm_compute. discriminate.
Qed.

Lemma name_char_ascii_lower (c : ascii) :
  name_char c = true -> is_ascii_byte c = true /\ lower_byte c = c.
Proof.
  unfold name_char, lower_alnum, is_lower, is_digit, byte_in, is_hyphen,
    is_ascii_byte, lower_byte, is_upper, byte_in.
  intros Hc. destruct (Ascii.eqb_spec c "-") as [E|_]; [rewrite E; now vm_compute|].
  rewrite orb_false_r in Hc.
  change (N_of_ascii "a") with 97%N in *. change (N_of_ascii "z") with 122%N in *.
  change (N_of_ascii "0") with 48%N in *. change (N_of_ascii "9") with 57%N in *.
  change (N_of_ascii "A") with 65%N. change (N_of_ascii "Z") with 90%N.
  assert (Hn : (48 <= N_of_ascii c <= 57 \/ 97 <= N_of_ascii c <= 122)%N).
  { apply orb_true_iff in Hc. destruct Hc as [Hc|Hc];
    apply andb_true_iff in Hc; destruct Hc as [H1 H2];
    apply N.leb_le in H1; apply N.leb_le in H2; lia. }
  split.
  - apply N.ltb_lt. lia.
  - replace ((65 <=? N_of_ascii c)%N && (N_of_ascii c <=? 90)%N) with false; auto.
    symmetry. apply andb_false_iff.
    destruct Hn; [left; apply N.leb_gt; lia | right; apply N.leb_gt; lia].
Qed.

Lemma ToLower_name_chars (s : string) :
  all_chars name_char s = true -> ToLower s = s.
Proof.
  intros Hs. unfold ToLower.
  rewrite (all_chars_impl name_char is_ascii_byte s); auto.
  - induction s as [|c r IH]; simpl in *; auto.
    apply andb_true_iff in Hs. destruct Hs as [Hc Hr].
    destruct (name_char_ascii_lower c Hc) as [_ ->]. now rewrite IH.
  - intros c Hc. now destruct (name_char_ascii_lower c Hc).
Qed.

Lemma Sanitize_chars (s : string) :
  all_chars name_char (SanitizeInstanceName s) = true.
Proof.
  unfold SanitizeInstanceName, ReplaceAllString.
  eapply all_chars_impl; [|apply replace_runs_chars].
  intros c. unfold name_char. simpl. now destruct (lower_alnum c), (is_hyphen c).
Qed.

Lemma Generate_chars (p : string) :
  all_chars name_char (GenerateInstanceName p) = true.
Proof.
  unfold GenerateInstanceName, Trim, ReplaceAllString.
  rewrite all_chars_app. apply andb_true_iff. split; [reflexivity|].
  apply TrimRight_chars, TrimLeft_chars. apply replace_runs_chars.
Qed.

Lemma Sanitize_Generate (p : string) :
  SanitizeInstanceName (GenerateInstanceName p) = GenerateInstanceName p.
Proof.
  unfold SanitizeInstanceName, ReplaceAllString.
  rewrite ToLower_name_chars by apply Generate_chars.
  apply replace_runs_id, Generate_chars.
Qed.

End NameProps.

Section DeployName.
Context `{Platform}.

Lemma all_chars_false_impl (p q : ascii -> bool) (s : string) :
  (forall c, q c = true -> p c = true) ->
  all_chars p s = false -> all_chars q s = false.
Proof.
  intros Hqp Hp. destruct (all_chars q s) eqn:Hq; auto.
  rewrite (all_chars_impl q p s Hqp Hq) in Hp. discriminate.
Qed.

Lemma HasPrefix_app (p t : string) : HasPrefix (p ++ t) p = true.
Proof.
  induction p as [|c r IH]; simpl; [now destruct t|].
  now rewrite Ascii.eqb_refl, IH.
Qed.

(** The trimmed text of [GenerateInstanceName] is not empty as soon as the
    lower-cased final component holds a letter or a digit. *)
Lemma trimmed_nonempty (s : string) :
  all_chars (fun c => negb (lower_alnum c)) s = false ->
  Trim is_hyphen (ReplaceAllString lower_alnum s) <> "".
Proof.
  intros Hs E. unfold Trim, ReplaceAllString in E.
  assert (Hh : all_chars is_hyphen (replace_runs lower_alnum false s) = false).
  { apply (all_chars_false_impl (fun c => negb (lower_alnum c))).
    - intros c Hc. destruct (lower_alnum c) eqn:Hl; auto.
      rewrite (lower_alnum_not_hyphen c Hl) in Hc. discriminate.
    - apply replace_runs_keeps, Hs. }
  apply TrimLeft_keeps, TrimRight_keeps in Hh. rewrite E in Hh. discriminate.
Qed.

Lemma Generate_valid (p : string) :
  all_chars (fun c => negb (lower_alnum c)) (ToLower (Base p)) = false ->
  valid_name (GenerateInstanceName p) = true.
Proof.
  intros Hs. unfold valid_name. rewrite Generate_chars.
  pose proof (trimmed_nonempty _ Hs) as Hne.
  unfold GenerateInstanceName.
  set (t := Trim is_hyphen _) in *.
  change (HasPrefix ("graphsense-" ++ t) "-") with false.
  rewrite last_char_app by exact Hne.
  destruct (last_char t) as [c|] eqn:E; auto.
  unfold t, Trim in E. apply TrimRight_last in E. now rewrite E.
Qed.

(** C4 (as amended): the name [deployInstance] runs under holds only
    lowercase ASCII letters, digits and hyphens, whatever the path and the
    supplied name; when no name is supplied it starts with [graphsense-], so
    it has no leading hyphen, and it has no trailing hyphen either provided
    the lower-cased final component of the path holds a letter or a digit.
    Nothing is promised about the ends of a supplied name. *)
Theorem deploy_name_charset (absRepoPath instanceName : string) :
  all_chars name_char (deploy_name absRepoPath instanceName) = true /\
  (instanceName = "" ->
     HasPrefix (deploy_name absRepoPath instanceName) "graphsense-" = true /\
     HasPrefix (deploy_name absRepoPath instanceName) "-" = false /\
     (all_chars (fun c => negb (lower_alnum c)) (ToLower (Base absRepoPath)) = false ->
      valid_name (deploy_name absRepoPath instanceName) = true)).
Proof.
  split.
  - apply Sanitize_chars.
  - intros ->. unfold deploy_name. simpl String.eqb. cbv iota.
    rewrite Sanitize_Generate.
    split; [|split].
    + apply (HasPrefix_app "graphsense-").
    + reflexivity.
    + apply Generate_valid.
Qed.

End DeployName.

(** C4, witness: the name generated for [/srv/My_Repo.v2] is well formed. *)
Lemma deploy_name_charset_witness :
  deploy_name "/srv/My_Repo.v2" "" = "graphsense-my-repo-v2" /\
  valid_name (deploy_name "/srv/My_Repo.v2" "") = true.
Proof.
  split; [reflexivity|].
  apply (deploy_name_charset "/srv/My_Repo.v2" ""); reflexivity.
Defined.

(** C4, counterexample to the claim as stated: a supplied name is sanitized
    but not trimmed, so [My App!] deploys as [my-app-], which ends with a
    hyphen. *)
Lemma deploy_name_trailing_hyphen :
  deploy_name "/srv/repo" "My App!" = "my-app-" /\
  valid_name (deploy_name "/srv/repo" "My App!") = false.
Proof. split; reflexivity. Qed.

(** The degenerate generated name: a final component without any letter or
    digit leaves nothing after the prefix. *)
Example generated_name_of_root :
  deploy_name "/" "" = "graphsense-".
Proof. reflexivity. Qed.

(* ================================================================= *)
(** ** The port allocator *)

Section Wrap.

Lemma wrap_id (z : Z) : min_int <= z <= max_int -> wrap z = z.
Proof.
  unfold wrap, min_int, max_int. intros Hz.
  rewrite Z.mod_small; lia.
Qed.

Lemma wrap_range (z : Z) : min_int <= wrap z <= max_int.
Proof.
  unfold wrap, min_int, max_int.
  pose proof (Z.mod_pos_bound (z + 2 ^ 63) (2 ^ 64) ltac:(lia)). lia.
Qed.

Lemma wrap_add_l (a b : Z) : wrap (wrap a + b) = wrap (a + b).
Proof.
  unfold wrap. f_equal.
  replace ((a + 2 ^ 63) mod 2 ^ 64 - 2 ^ 63 + b + 2 ^ 63)
    with ((a + 2 ^ 63) mod 2 ^ 64 + b) by lia.
  replace (a + b + 2 ^ 63) with ((a + 2 ^ 63) + b) by lia.
  now rewrite Zplus_mod_idemp_l.
Qed.

End Wrap.

(** The three ports tried for a candidate base. *)
Definition triple (port : Z) : list Z :=
  [port; int_add port 100; int_add port 200].

Section Allocator.
Context `{Host}.

(** The world after a call that only touched the host and the trace. *)
Definition after (w : World) (h : HostState) (evs : list Event) : World :=
  {| host := h; home := home w; files := files w; db := db w;
     stdin := stdin w; trace := trace w ++ evs |}.

Lemma after_after (w : World) h1 e1 h2 e2 :
  after (after w h1 e1) h2 e2 = after w h2 (e1 ++ e2).
Proof. unfold after. simpl. now rewrite app_assoc. Qed.

Lemma isPortInUse_eq (port : Z) (w : World) :
  isPortInUse port w =
  (fst (listen_fails port (host w)),
   after w (snd (listen_fails port (host w)))
     [EvListen port (fst (listen_fails port (host w)))]).
Proof.
  unfold isPortInUse, net_Listen_fails, bind, get_world.
  destruct (listen_fails port (host w)) as [b h]. reflexivity.
Qed.

(** What one evaluation of the loop condition leaves behind: either three
    probes that all found their port free, or probes ending with the first
    port found in use. *)
Inductive probed (a b c : Z) : bool -> list Event -> Prop :=
| probed_free :
    probed a b c false [EvListen a false; EvListen b false; EvListen c false]
| probed_first : probed a b c true [EvListen a true]
| probed_second : probed a b c true [EvListen a false; EvListen b true]
| probed_third :
    probed a b c true [EvListen a false; EvListen b false; EvListen c true].

Lemma triple_in_use_spec (a b c : Z) (w : World) :
  exists h evs,
    triple_in_use a b c w = (fst (triple_in_use a b c w), after w h evs) /\
    probed a b c (fst (triple_in_use a b c w)) evs.
Proof.
  unfold triple_in_use, orM, bind.
  rewrite isPortInUse_eq.
  destruct (fst (listen_fails a (host w))) eqn:Ea.
  - eexists _, _. split; [reflexivity|]. simpl. constructor.
  - rewrite isPortInUse_eq. simpl host.
    destruct (fst (listen_fails b _)) eqn:Eb.
    + eexists _, _. rewrite after_after. split; [reflexivity|]. simpl. constructor.
    + rewrite isPortInUse_eq. simpl host. rewrite !after_after.
      destruct (fst (listen_fails c _)) eqn:Ec;
        eexists _, _; (split; [reflexivity|]); simpl; constructor.
Qed.

End Allocator.

(** How a search that started at candidate [start] may end in world [w']:
    with a candidate [p], reached from [start] by a whole number of steps,
    whose three ports were the last ones probed and all found free; or with
    the capacity error, after a candidate [c] was found in use whose
    successor lies beyond [port_limit]. *)
Definition search_ok `{Host} (start : Z) (w' : World) (r : Z * error) : Prop :=
  match r with
  | (p, None) =>
      exists (k : nat) (t : list Event),
        p = wrap (start + port_step * Z.of_nat k) /\
        trace w' = (t ++ [EvListen p false; EvListen (int_add p 100) false;
                          EvListen (int_add p 200) false])%list
  | (p, Some _) =>
      p = 0 /\
      exists (c : Z) (t evs : list Event),
        probed c (int_add c 100) (int_add c 200) true evs /\
        trace w' = (t ++ evs)%list /\
        int_add c port_step > port_limit
  end.

Section Search.
Context `{Host}.

Lemma find_loop_step (fuel : nat) (basePort port : Z) (w : World) :
  find_loop (S fuel) basePort port w =
  let (busy, w1) := triple_in_use port (int_add port 100) (int_add port 200) w in
  if busy then
    if int_add port port_step >? port_limit then
      (Some (0, Errorf "unable to find available port set starting from %d"
                  [AInt basePort]), w1)
    else find_loop fuel basePort (int_add port port_step) w1
  else (Some (port, None), w1).
Proof.
  simpl. unfold bind.
  destruct (triple_in_use port (int_add port 100) (int_add port 200) w) as [b w1].
  destruct b; [destruct (int_add port port_step >? port_limit)|]; reflexivity.
Qed.

(** Partial correctness of the loop, by induction on the fuel. *)
Lemma find_loop_sound (fuel : nat) (basePort : Z) :
  forall (port : Z) (w w' : World) (r : Z * error),
    min_int <= port <= max_int ->
    find_loop fuel basePort port w = (Some r, w') ->
    search_ok port w' r.
Proof.
  induction fuel as [|fuel IH]; intros port w w' r Hport Hrun.
  - discriminate.
  - rewrite find_loop_step in Hrun.
    destruct (triple_in_use_spec port (int_add port 100) (int_add port 200) w)
      as (h & evs & Heq & Hev).
    rewrite Heq in Hrun.
    destruct (fst (triple_in_use port _ _ w)) eqn:Hbusy.
    + destruct (int_add port port_step >? port_limit) eqn:Hlim.
      * injection Hrun as <- <-. simpl. split; [reflexivity|].
        exists port, (trace w), evs.
        split; [exact Hev | split; [reflexivity|]].
        apply Z.gtb_lt in Hlim. apply Z.lt_gt. exact Hlim.
      * apply IH in Hrun; [|apply wrap_range].
        destruct r as [p [e|]]; unfold search_ok in *.
        -- exact Hrun.
        -- destruct Hrun as (k & t & Hp & Ht). exists (S k), t. split; auto.
           rewrite Hp. unfold int_add. rewrite wrap_add_l. f_equal.
           unfold port_step. lia.
    + injection Hrun as <- <-. unfold search_ok. exists 0%nat, (trace w). split.
      * replace (port + port_step * Z.of_nat 0) with port by (simpl; lia).
        symmetry. now apply wrap_id.
      * inversion Hev; subst. reflexivity.
Qed.

(** Once adding a step can no longer wrap around, the distance to
    [port_limit] bounds the number of iterations. *)
Lemma find_loop_returns_below (basePort : Z) (fuel : nat) :
  forall (port : Z) (w : World),
    min_int <= port <= max_int - port_step ->
    (1 <= fuel)%nat ->
    port_limit - port < port_step * Z.of_nat fuel ->
    fst (find_loop fuel basePort port w) <> None.
Proof.
  induction fuel as [|fuel IH]; intros port w Hport Hfuel Hdist; [lia|].
  rewrite find_loop_step.
  destruct (triple_in_use port _ _ w) as [[|] w1]; simpl; [|discriminate].
  assert (Hnext : int_add port port_step = port + port_step).
  { apply wrap_id. unfold min_int, max_int, port_step in *. lia. }
  rewrite Hnext.
  destruct (port + port_step >? port_limit) eqn:Hlim; simpl; [discriminate|].
  assert (port + port_step <= port_limit).
  { destruct (Z.gtb_spec (port + port_step) port_limit); [discriminate|lia]. }
  apply IH; unfold min_int, max_int, port_step, port_limit in *; lia.
Qed.

(** Iterations that always suffice, whatever the starting candidate. *)
Definition enough_fuel : nat :=
  S (Z.to_nat ((port_limit - min_int) / port_step + 1)).

Lemma find_loop_returns (basePort port : Z) (w : World) (fuel : nat) :
  (enough_fuel <= fuel)%nat ->
  fst (find_loop fuel basePort port w) <> None.
Proof.
  unfold enough_fuel. intros Hfuel.
  destruct fuel as [|fuel]; [lia|].
  rewrite find_loop_step.
  destruct (triple_in_use port _ _ w) as [[|] w1]; simpl; [|discriminate].
  destruct (int_add port port_step >? port_limit) eqn:Hlim; simpl; [discriminate|].
  assert (int_add port port_step <= port_limit).
  { destruct (Z.gtb_spec (int_add port port_step) port_limit); [discriminate|lia]. }
  pose proof (wrap_range (port + port_step)) as Hr. fold (int_add port port_step) in Hr.
  assert (Hq : port_limit - min_int < port_step * ((port_limit - min_int) / port_step + 1)).
  { pose proof (Z.mul_succ_div_gt (port_limit - min_int) port_step ltac:(reflexivity)).
    lia. }
  assert (Hpos : 0 <= (port_limit - min_int) / port_step).
  { apply Z.div_pos; [unfold port_limit, min_int; lia | reflexivity]. }
  apply find_loop_returns_below.
  - unfold min_int, max_int, port_step, port_limit in *. lia.
  - lia.
  - assert ((port_limit - min_int) / port_step + 1 <= Z.of_nat fuel) by lia.
    unfold port_step in *. nia.
Qed.

(** C3: for every starting base and every world the search comes to an end:
    some number of iterations is enough for [FindAvailablePortSet] to return,
    either a base whose three ports were the last ones probed and all found
    free, or the capacity error after the next candidate passed the bound
    of the safety check. *)
Theorem allocator_terminates (basePort : Z) (w : World) :
  min_int <= basePort <= max_int ->
  exists n : nat, forall fuel : nat, (n <= fuel)%nat ->
    exists (r : Z * error) (w' : World),
      FindAvailablePortSet fuel basePort w = (Some r, w') /\
      search_ok (if basePort =? 0 then DefaultBasePort else basePort) w' r.
Proof.
  intros Hbase. exists enough_fuel. intros fuel Hfuel.
  unfold FindAvailablePortSet.
  set (start := if basePort =? 0 then DefaultBasePort else basePort).
  assert (Hstart : min_int <= start <= max_int).
  { unfold start. destruct (basePort =? 0); auto.
    unfold DefaultBasePort, min_int, max_int. lia. }
  pose proof (find_loop_returns start start w fuel Hfuel) as Hret.
  destruct (find_loop fuel start start w) as [[r|] w'] eqn:Hrun; [|now elim Hret].
  exists r, w'. split; [reflexivity|].
  eapply find_loop_sound; eauto.
Qed.

End Search.

Section Retry.
Context `{Host}.

Lemma wrap_eq_mod (a b : Z) :
  wrap a = wrap b -> exists k : Z, a - b = k * 2 ^ 64.
Proof.
  unfold wrap. intros E.
  assert (E' : (a + 2 ^ 63) mod 2 ^ 64 = (b + 2 ^ 63) mod 2 ^ 64) by lia.
  pose proof (Z.div_mod (a + 2 ^ 63) (2 ^ 64) ltac:(lia)) as Ha.
  pose proof (Z.div_mod (b + 2 ^ 63) (2 ^ 64) ltac:(lia)) as Hb.
  exists ((a + 2 ^ 63) / 2 ^ 64 - (b + 2 ^ 63) / 2 ^ 64). lia.
Qed.

Lemma wrap_apart (a b : Z) :
  a <> b -> - 2 ^ 64 < a - b < 2 ^ 64 -> wrap a <> wrap b.
Proof.
  intros Hne Hd E. destruct (wrap_eq_mod a b E) as [k Hk]. nia.
Qed.

(** The triple of a candidate and the triple of its successor share no
    port. *)
Lemma triple_next_disjoint (port : Z) :
  min_int <= port <= max_int ->
  forall x : Z, In x (triple port) -> ~ In x (triple (int_add port port_step)).
Proof.
  intros Hport x Hx Hx'.
  unfold triple, int_add, port_step in *.
  rewrite !wrap_add_l in Hx'.
  rewrite <- (wrap_id port Hport) in Hx at 1.
  simpl in Hx, Hx'.
  repeat match goal with
  | H : _ \/ _ |- _ => destruct H
  | H : False |- _ => destruct H
  end; subst x;
  match goal with
  | E : wrap ?a = wrap ?b |- _ => apply (wrap_apart a b); [lia | lia | exact E]
  end.
Qed.

(** C2 (as amended): when a port of the candidate triple is in use, the next
    candidate is the current one plus the fixed step of 10, whichever port
    was taken and whatever the host answered, unless that next candidate
    lies beyond the bound, in which case the capacity error is returned; the
    step is smaller than the offsets 100 and 200, the triple of the next
    candidate shares no port with the triple just tried, and every base the
    search can return from here lies a whole number of steps further. *)
Theorem retry_advances_by_step (fuel : nat) (basePort port : Z) (w : World) :
  min_int <= port <= max_int ->
  fst (triple_in_use port (int_add port 100) (int_add port 200) w) = true ->
  find_loop (S fuel) basePort port w =
    (let w1 := snd (triple_in_use port (int_add port 100) (int_add port 200) w) in
     if int_add port port_step >? port_limit then
       (Some (0, Errorf "unable to find available port set starting from %d"
                   [AInt basePort]), w1)
     else find_loop fuel basePort (int_add port port_step) w1) /\
  port_step = 10 /\
  (forall x : Z, In x (triple port) -> ~ In x (triple (int_add port port_step))) /\
  (forall (n : nat) (w0 w' : World) (p : Z),
     find_loop n basePort port w0 = (Some (p, None), w') ->
     exists k : nat, p = wrap (port + port_step * Z.of_nat k)).
Proof.
  intros Hport Hbusy. split; [|split; [|split]].
  - rewrite find_loop_step.
    destruct (triple_in_use port _ _ w) as [b w1]. simpl in *. now subst b.
  - reflexivity.
  - now apply triple_next_disjoint.
  - intros n w0 w' p Hrun. apply find_loop_sound in Hrun; [|exact Hport].
    destruct Hrun as (k & _ & Hp & _). now exists k.
Qed.

End Retry.

(** A host where another process holds port 8080. *)
Definition taken_8080 : World :=
  Demo.world {| Demo.busy := [8080]; Demo.daemon_up := true;
                Demo.ps_names := ""; Demo.compose_ok := true |}
             [] Demo.fresh_db "".

(** C2, witness: with 8080 taken, the search moves on from 8080 to 8090. *)
Lemma retry_advances_by_step_witness :
  find_loop 2 8080 8080 taken_8080 =
    find_loop 1 8080 8090
      (snd (triple_in_use 8080 (int_add 8080 100) (int_add 8080 200) taken_8080)) /\
  port_step = 10 /\
  (forall x : Z, In x (triple 8080) -> ~ In x (triple (int_add 8080 port_step))) /\
  (forall (n : nat) (w0 w' : World) (p : Z),
     find_loop n 8080 8080 w0 = (Some (p, None), w') ->
     exists k : nat, p = wrap (8080 + port_step * Z.of_nat k)).
Proof.
  apply (retry_advances_by_step 1 8080 8080 taken_8080).
  - unfold min_int, max_int. lia.
  - reflexivity.
Defined.

(** C2, counterexample to the claim as stated: with 8080 taken the allocator
    returns 8090, so the base moved by 10, which is not larger than the
    largest offset 200. *)
Lemma retry_step_below_offset :
  fst (FindAvailablePortSet 2 8080 taken_8080) = Some (8090, None) /\
  (8090 - 8080 >? 200) = false /\
  (port_step >? 200) = false.
Proof. repeat split. Qed.

(** The ports probed on the way: 8080 fails, then 8090, 8190 and 8290 are
    free. *)
Example probes_after_8080_taken :
  trace (snd (FindAvailablePortSet 2 8080 taken_8080)) =
    [EvListen 8080 true; EvListen 8090 false; EvListen 8190 false;
     EvListen 8290 false].
Proof. reflexivity. Qed.

(** C3, witness: the search from 8080 on that host terminates. *)
Lemma allocator_terminates_witness :
  exists n : nat, forall fuel : nat, (n <= fuel)%nat ->
    exists (r : Z * error) (w' : World),
      FindAvailablePortSet fuel 8080 taken_8080 = (Some r, w') /\
      search_ok 8080 w' r.
Proof.
  apply (allocator_terminates 8080 taken_8080).
  unfold min_int, max_int. lia.
Defined.

(** A starting base beyond the bound whose ports cannot be bound: the
    capacity error comes after one round. *)
Example search_from_70000 :
  fst (FindAvailablePortSet 1 70000 taken_8080) =
    Some (0, Some "unable to find available port set starting from 70000").
Proof. reflexivity. Qed.

(* ================================================================= *)
(** ** The registry *)

(** The columns [store] writes for the container named [instance ++ suffix]. *)
Definition stored (config : DeployConfig.t) (suffix : string) (r : Instance) : Prop :=
  InstanceName r = DeployConfig.InstanceName config /\
  ContainerName r = DeployConfig.InstanceName config ++ suffix /\
  RepoPath r = DeployConfig.RepoPath config /\
  AppPort r = DeployConfig.AppPort config /\
  PostgresPort r = DeployConfig.PostgresPort config /\
  Neo4jBoltPort r = DeployConfig.Neo4jBoltPort config.

(** Every row names one of the three containers of its own instance. This
    is what the table looks like as long as only this program writes it. *)
Definition shaped_row (r : Instance) : Prop :=
  ContainerName r = InstanceName r ++ "-app" \/
  ContainerName r = InstanceName r ++ "-postgres" \/
  ContainerName r = InstanceName r ++ "-neo4j".

Definition registry_shaped (rs : list Instance) : Prop := Forall shaped_row rs.

(** INSERT OR REPLACE on the key of [r]. *)
Definition upsert (rs : list Instance) (r : Instance) : list Instance :=
  filter (fun x => negb (same_key (InstanceName r) (ContainerName r) x)) rs ++ [r].

(** The world is in a state where the registry can be opened and its
    statements do not fail. *)
Definition registry_healthy `{Host} (w : World) : Prop :=
  (exists h : string,
     home w = (h, None) /\
     (files w (Join h [".graphsense"]) = Dir \/
      files w (Join h [".graphsense"]) = Absent)) /\
  (forall n : nat, io_fail (db w) n = false).

(** The message [RemoveInstanceContainers] logs for [n] deleted rows. *)
Definition removed_report (n : Z) (instanceName : string) : Event :=
  EvLog Info (Sprintf "Removed %d containers for instance %s from database"
                [AInt n; AStr instanceName]).

Definition count_of (instanceName : string) (rs : list Instance) : Z :=
  Z.of_nat (List.length (filter (of_instance instanceName) rs)).

Ltac run_monad :=
  unfold bind, ret, emit, get_world, set_db, set_files, set_host, set_stdin,
    Log, Print, Sleep; simpl.

Section RegistryProps.
Context `{Host}.

Lemma sql_rows (stmt : Sql) (w : World) :
  rows (db (snd (sql stmt w))) = rows (snd (run_sql stmt (db w))) /\
  io_fail (db (snd (sql stmt w))) = io_fail (db w) /\
  home (snd (sql stmt w)) = home w /\
  files (snd (sql stmt w)) = files w /\
  fst (sql stmt w) = fst (run_sql stmt (db w)).
Proof.
  unfold sql. run_monad.
  destruct (run_sql stmt (db w)) as [[[rs n] err] d] eqn:E. simpl.
  repeat split.
  unfold run_sql in E. destruct (io_fail (db w) (ops (db w)));
    [|destruct stmt]; injection E as <- <- <- <-; reflexivity.
Qed.

Lemma InitDB_frame (w : World) :
  rows (db (snd (InitDB w))) = rows (db w) /\
  io_fail (db (snd (InitDB w))) = io_fail (db w) /\
  home (snd (InitDB w)) = home w.
Proof.
  unfold InitDB, os_UserHomeDir, os_MkdirAll. run_monad.
  destruct (home w) as [h [e|]] eqn:Eh; simpl; [now rewrite Eh|].
  destruct (files w (h ++ "/.graphsense")); simpl; try (now rewrite Eh);
  destruct (on_disk (db w)); simpl;
  unfold sql, run_sql; run_monad;
  destruct (io_fail (db w) (ops (db w))); simpl; now rewrite Eh.
Qed.

End RegistryProps.

(** The row [store] writes for container [c]. *)
Definition row_of (config : DeployConfig.t) (c : string) (r : Instance) : Prop :=
  InstanceName r = DeployConfig.InstanceName config /\
  ContainerName r = c /\
  RepoPath r = DeployConfig.RepoPath config /\
  AppPort r = DeployConfig.AppPort config /\
  PostgresPort r = DeployConfig.PostgresPort config /\
  Neo4jBoltPort r = DeployConfig.Neo4jBoltPort config.

(** The table after one upsert per name of [names]. *)
Fixpoint inserted (config : DeployConfig.t) (names : list string)
  (before after : list Instance) : Prop :=
  match names with
  | [] => after = before
  | c :: rest =>
      exists r : Instance,
        row_of config c r /\ inserted config rest (upsert before r) after
  end.

Section StoreProps.
Context `{Host}.

Lemma store_each_rows (config : DeployConfig.t) (names : list string) :
  forall w w1 : World,
    store_each config names w = (None, w1) ->
    inserted config names (rows (db w)) (rows (db w1)).
Proof.
  induction names as [|c rest IH]; intros w w1 Hrun; simpl in *.
  - unfold ret in Hrun. now injection Hrun as <-.
  - unfold bind in Hrun.
    set (stmt := InsertOrReplace _ _ _ _ _ _) in Hrun.
    destruct (sql_rows stmt w) as (Hrows & _ & _ & _ & Hres).
    destruct (sql stmt w) as [[[rs n] err] w'] eqn:Esql. simpl in *.
    unfold run_sql, stmt in Hrows, Hres.
    destruct (io_fail (db w) (ops (db w))); simpl in *.
    + injection Hres as _ _ ->. discriminate.
    + injection Hres as _ _ ->.
      exists {| ID := seq (db w) + 1;
                InstanceName := DeployConfig.InstanceName config;
                ContainerName := c;
                RepoPath := DeployConfig.RepoPath config;
                AppPort := DeployConfig.AppPort config;
                PostgresPort := DeployConfig.PostgresPort config;
                Neo4jBoltPort := DeployConfig.Neo4jBoltPort config;
                CreatedAt := clock (db w) (ops (db w)) |}.
      split; [repeat split|].
      unfold upsert. simpl. rewrite <- Hrows. apply IH, Hrun.
Qed.

Lemma StoreInstanceContainers_rows (config : DeployConfig.t) (w w1 : World) :
  StoreInstanceContainers config w = (None, w1) ->
  inserted config (containerNames config) (rows (db w)) (rows (db w1)).
Proof.
  unfold StoreInstanceContainers, bind. intros Hrun.
  destruct (InitDB_frame w) as (Hrows & _).
  destruct (InitDB w) as [[e|] w0]; [discriminate|]. simpl in Hrows.
  destruct (store_each config (containerNames config) w0) as [[e|] w0'] eqn:Es;
    [discriminate|].
  apply store_each_rows in Es. rewrite Hrows in Es.
  unfold Log, emit, ret in Hrun. now injection Hrun as <-.
Qed.

Lemma GetInstanceContainers_rows (instanceName : string) (w w2 : World)
  (rs : list Instance) :
  GetInstanceContainers instanceName w = (rs, None, w2) ->
  rs = order_by by_container (filter (of_instance instanceName) (rows (db w))).
Proof.
  unfold GetInstanceContainers, bind. intros Hrun.
  destruct (InitDB_frame w) as (Hrows & _).
  destruct (InitDB w) as [[e|] w0]; [discriminate|]. simpl in Hrows.
  set (stmt := SelectByInstance instanceName) in Hrun.
  destruct (sql_rows stmt w0) as (_ & _ & _ & _ & Hres).
  destruct (sql stmt w0) as [[[rs' n] err] w'] eqn:Esql. simpl in *.
  unfold run_sql, stmt in Hres.
  destruct (io_fail (db w0) (ops (db w0))); simpl in *.
  - injection Hres as _ _ ->. discriminate.
  - injection Hres as -> _ ->. unfold ret in Hrun.
    injection Hrun as <- _. now rewrite Hrows.
Qed.

End StoreProps.

Section Tables.

Lemma eqb_app_prefix (p a b : string) :
  String.eqb (p ++ a) (p ++ b) = String.eqb a b.
Proof.
  induction p as [|c r IH]; simpl; auto. now rewrite Ascii.eqb_refl.
Qed.

Lemma compare_app_prefix (p a b : string) :
  String.compare (p ++ a) (p ++ b) = String.compare a b.
Proof.
  induction p as [|c r IH]; simpl; auto.
  unfold Ascii.compare. now rewrite N.compare_refl.
Qed.

Lemma leb_app_prefix (p a b : string) :
  String.leb (p ++ a) (p ++ b) = String.leb a b.
Proof. unfold String.leb. now rewrite compare_app_prefix. Qed.

Lemma filter_filter {A} (f g : A -> bool) (l : list A) :
  filter f (filter g l) = filter (fun x => g x && f x) l.
Proof.
  induction l as [|x l IH]; simpl; auto.
  destruct (g x); simpl; [destruct (f x)|]; now rewrite IH.
Qed.

Lemma filter_none {A} (f : A -> bool) (l : list A) :
  Forall (fun x => f x = false) l -> filter f l = [].
Proof.
  induction 1 as [|x l Hx _ IH]; simpl; auto. now rewrite Hx.
Qed.

(** Rows of [instance] that are none of its three containers: there are
    none in a table of the expected shape. *)
Lemma no_stray_rows (instance : string) (rs : list Instance) :
  registry_shaped rs ->
  filter (fun x =>
            negb (same_key instance (instance ++ "-app") x)
            && (negb (same_key instance (instance ++ "-postgres") x)
                && (negb (same_key instance (instance ++ "-neo4j") x)
                    && of_instance instance x))) rs = [].
Proof.
  intros Hs. apply filter_none.
  eapply Forall_impl; [|exact Hs]. intros x Hx. unfold same_key, of_instance.
  destruct (String.eqb_spec (InstanceName x) instance) as [E|];
    [|now rewrite !andb_false_r].
  simpl. rewrite <- E.
  destruct Hx as [-> | [-> | ->]]; rewrite String.eqb_refl; simpl;
    now rewrite ?andb_false_r.
Qed.

(** The rows of the instance after the three upserts of [store], in the
    order of insertion. *)
Lemma rows_after_store (config : DeployConfig.t) (before after : list Instance) :
  registry_shaped before ->
  inserted config (containerNames config) before after ->
  exists a p n : Instance,
    stored config "-app" a /\ stored config "-postgres" p /\
    stored config "-neo4j" n /\
    filter (of_instance (DeployConfig.InstanceName config)) after = [a; p; n].
Proof.
  intros Hs (a & Ha & p & Hp & n & Hn & ->).
  exists a, p, n. repeat split; try apply Ha; try apply Hp; try apply Hn.
  destruct Ha as (Hai & Hac & _), Hp as (Hpi & Hpc & _), Hn as (Hni & Hnc & _).
  simpl in Hac, Hpc, Hnc.
  set (i := DeployConfig.InstanceName config) in *.
  unfold upsert. rewrite Hai, Hac, Hpi, Hpc, Hni, Hnc.
  rewrite !filter_app, !filter_filter. simpl.
  rewrite no_stray_rows by exact Hs.
  unfold same_key, of_instance.
  rewrite ?Hai, ?Hac, ?Hpi, ?Hpc, ?Hni, ?Hnc, !String.eqb_refl, !eqb_app_prefix.
  reflexivity.
Qed.

Lemma sorted_by_container (config : DeployConfig.t) (a p n : Instance) :
  stored config "-app" a -> stored config "-postgres" p ->
  stored config "-neo4j" n ->
  order_by by_container [a; p; n] = [a; n; p].
Proof.
  intros (_ & Ha & _) (_ & Hp & _) (_ & Hn & _).
  unfold order_by, by_container. simpl.
  rewrite Hp, Hn, leb_app_prefix. simpl.
  rewrite Ha, Hn, leb_app_prefix. reflexivity.
Qed.

Lemma upsert_shaped (rs : list Instance) (r : Instance) :
  registry_shaped rs -> shaped_row r -> registry_shaped (upsert rs r).
Proof.
  intros Hs Hr. unfold registry_shaped, upsert.
  apply Forall_app. split; [|now constructor].
  apply Forall_forall. intros x Hx. apply filter_In in Hx.
  eapply Forall_forall in Hs; [exact Hs | apply Hx].
Qed.

Lemma inserted_shaped (config : DeployConfig.t) (before after : list Instance) :
  registry_shaped before ->
  inserted config (containerNames config) before after ->
  registry_shaped after.
Proof.
  intros Hs (a & Ha & p & Hp & n & Hn & ->).
  repeat apply upsert_shaped; auto; unfold shaped_row.
  - destruct Ha as (-> & -> & _). now left.
  - destruct Hp as (-> & -> & _). right. now left.
  - destruct Hn as (-> & -> & _). right. now right.
Qed.

End Tables.

Section RoundTrip.
Context `{Host}.

(** C6: when [store] has succeeded on a table written by this program, a
    following [listContainers] for the same instance that succeeds returns
    exactly three records, for the containers [-app], [-neo4j] and
    [-postgres] of the instance (in the order of the query), each with the
    repository path and the three ports of the stored configuration. *)
Theorem store_list_roundtrip (config : DeployConfig.t) (w w1 w2 : World)
  (rs : list Instance) :
  registry_shaped (rows (db w)) ->
  StoreInstanceContainers config w = (None, w1) ->
  GetInstanceContainers (DeployConfig.InstanceName config) w1 = (rs, None, w2) ->
  exists a n p : Instance,
    rs = [a; n; p] /\
    stored config "-app" a /\ stored config "-neo4j" n /\
    stored config "-postgres" p.
Proof.
  intros Hs Hstore Hlist.
  apply StoreInstanceContainers_rows in Hstore.
  apply GetInstanceContainers_rows in Hlist.
  destruct (rows_after_store config _ _ Hs Hstore) as (a & p & n & Ha & Hp & Hn & E).
  exists a, n, p. rewrite Hlist, E.
  split; [now apply (sorted_by_container config)|auto].
Qed.

(** The shape of the table is an invariant of the two functions that write
    it: it holds of the empty table, [store] keeps it, also when a statement
    fails half way, and so does [removeAll]. *)
Lemma empty_shaped : registry_shaped [].
Proof. constructor. Qed.

Lemma store_each_keeps_shape (config : DeployConfig.t) (names : list string) :
  Forall (fun c : string => exists suffix : string,
            c = DeployConfig.InstanceName config ++ suffix /\
            In suffix ["-app"; "-postgres"; "-neo4j"]) names ->
  forall w : World,
    registry_shaped (rows (db w)) ->
    registry_shaped (rows (db (snd (store_each config names w)))).
Proof.
  induction 1 as [|c rest (suffix & -> & Hsuf) _ IH]; intros w Hs; simpl; auto.
  unfold bind.
  set (stmt := InsertOrReplace _ _ _ _ _ _).
  destruct (sql_rows stmt w) as (Hrows & _ & _ & _ & Hres).
  destruct (sql stmt w) as [[[rs n] err] w'] eqn:Esql. simpl in *.
  unfold run_sql, stmt in Hrows, Hres.
  destruct (io_fail (db w) (ops (db w))); simpl in *.
  - injection Hres as _ _ ->. simpl. now rewrite Hrows.
  - injection Hres as _ _ ->. apply IH. rewrite Hrows.
    apply (upsert_shaped (rows (db w))
             {| ID := seq (db w) + 1;
                InstanceName := DeployConfig.InstanceName config;
                ContainerName := DeployConfig.InstanceName config ++ suffix;
                RepoPath := DeployConfig.RepoPath config;
                AppPort := DeployConfig.AppPort config;
                PostgresPort := DeployConfig.PostgresPort config;
                Neo4jBoltPort := DeployConfig.Neo4jBoltPort config;
                CreatedAt := clock (db w) (ops (db w)) |}); auto.
    unfold shaped_row. simpl.
    destruct Hsuf as [<-|[<-|[<-|[]]]]; auto.
Qed.

Lemma store_keeps_shape (config : DeployConfig.t) (w : World) :
  registry_shaped (rows (db w)) ->
  registry_shaped (rows (db (snd (StoreInstanceContainers config w)))).
Proof.
  intros Hs.
  assert (Hnames : Forall (fun c : string => exists suffix : string,
                     c = DeployConfig.InstanceName config ++ suffix /\
                     In suffix ["-app"; "-postgres"; "-neo4j"])
                   (containerNames config)).
  { unfold containerNames.
    constructor; [exists "-app"; split; [reflexivity | simpl; auto]|].
    constructor; [exists "-postgres"; split; [reflexivity | simpl; auto]|].
    constructor; [exists "-neo4j"; split; [reflexivity | simpl; auto]|].
    constructor. }
  unfold StoreInstanceContainers, bind.
  destruct (InitDB_frame w) as (Hrows & _).
  destruct (InitDB w) as [[e|] w0]; simpl snd in Hrows.
  - unfold ret. simpl. now rewrite Hrows.
  - rewrite <- Hrows in Hs.
    pose proof (store_each_keeps_shape config (containerNames config) Hnames w0 Hs)
      as Hkeep.
    destruct (store_each config (containerNames config) w0) as [[e|] w1];
      simpl snd in Hkeep; exact Hkeep.
Qed.

Lemma remove_keeps_shape (instanceName : string) (w : World) :
  registry_shaped (rows (db w)) ->
  registry_shaped (rows (db (snd (RemoveInstanceContainers instanceName w)))).
Proof.
  intros Hs. unfold RemoveInstanceContainers, bind.
  destruct (InitDB_frame w) as (Hrows & _).
  destruct (InitDB w) as [[e|] w0]; simpl in *; [now rewrite Hrows|].
  rewrite <- Hrows in Hs.
  set (stmt := DeleteByInstance instanceName).
  destruct (sql_rows stmt w0) as (Hrows' & _ & _ & _ & Hres).
  destruct (sql stmt w0) as [[[rs n] err] w'] eqn:Esql. simpl in *.
  unfold run_sql, stmt in Hrows', Hres.
  destruct (io_fail (db w0) (ops (db w0))); simpl in *;
    injection Hres as _ _ ->; simpl; rewrite Hrows'; auto.
  apply Forall_forall. intros x Hx. apply filter_In in Hx.
  eapply Forall_forall in Hs; [exact Hs|apply Hx].
Qed.

End RoundTrip.

(** A quiet machine with an empty registry. *)
Definition idle : World := Demo.world Demo.quiet [] Demo.fresh_db "".

(** C6, witness: storing the sample configuration in an empty registry and
    listing it back. *)
Lemma store_list_roundtrip_witness :
  exists a n p : Instance,
    fst (fst (GetInstanceContainers "graphsense-repo"
                (snd (StoreInstanceContainers Demo.config idle)))) = [a; n; p] /\
    stored Demo.config "-app" a /\ stored Demo.config "-neo4j" n /\
    stored Demo.config "-postgres" p.
Proof.
  apply (store_list_roundtrip Demo.config idle
           (snd (StoreInstanceContainers Demo.config idle))
           (snd (GetInstanceContainers "graphsense-repo"
                   (snd (StoreInstanceContainers Demo.config idle))))).
  - constructor.
  - vm_compute. reflexivity.
  - vm_compute. reflexivity.
Defined.

(** The records read back, as the query orders them. *)
Example listed_after_store :
  map (fun r => (ID r, ContainerName r, RepoPath r, AppPort r, PostgresPort r,
                 Neo4jBoltPort r))
      (fst (fst (GetInstanceContainers "graphsense-repo"
                   (snd (StoreInstanceContainers Demo.config idle))))) =
  [ (1, "graphsense-repo-app", "/srv/repo", 8080, 8180, 8280);
    (3, "graphsense-repo-neo4j", "/srv/repo", 8080, 8180, 8280);
    (2, "graphsense-repo-postgres", "/srv/repo", 8080, 8180, 8280) ].
Proof. vm_compute. reflexivity. Qed.

Section RemoveAll.
Context `{Host}.

Lemma InitDB_healthy (w : World) :
  registry_healthy w ->
  exists w0 : World,
    InitDB w = (None, w0) /\ registry_healthy w0 /\
    rows (db w0) = rows (db w) /\
    (exists t, trace w0 = (trace w ++ t)%list).
Proof.
  intros ((h & Hh & Hdir) & Hio). simpl in Hdir.
  unfold InitDB, os_UserHomeDir, os_MkdirAll. run_monad. rewrite Hh.
  unfold sql, run_sql. run_monad.
  destruct Hdir as [Hd|Hd]; rewrite Hd; simpl;
    destruct (on_disk (db w)); simpl; rewrite Hio; simpl;
    (eexists; split; [reflexivity|]);
    (split; [split; [exists h; simpl; split; [exact Hh|]|exact Hio]|]);
    unfold update; simpl; rewrite ?String.eqb_refl, ?Hd; auto;
    (split; [reflexivity|]); rewrite <- ?app_assoc; eexists; reflexivity.
Qed.

Lemma filter_twice_empty (instanceName : string) (rs : list Instance) :
  filter (of_instance instanceName)
    (filter (fun x => negb (of_instance instanceName x)) rs) = [].
Proof.
  rewrite filter_filter. apply filter_none, Forall_forall.
  intros x _. now destruct (of_instance instanceName x).
Qed.

(** One [removeAll] on a healthy registry: no error, every row of the
    instance deleted, their number reported in the last line logged. *)
Lemma remove_once (instanceName : string) (w : World) :
  registry_healthy w ->
  exists (w1 : World) (t : list Event),
    RemoveInstanceContainers instanceName w = (None, w1) /\
    registry_healthy w1 /\
    rows (db w1) = filter (fun x => negb (of_instance instanceName x)) (rows (db w)) /\
    trace w1 =
      (t ++ [removed_report (count_of instanceName (rows (db w))) instanceName])%list.
Proof.
  intros Hw. destruct (InitDB_healthy w Hw) as (w0 & Hinit & Hw0 & Hrows & _).
  unfold RemoveInstanceContainers, bind. rewrite Hinit.
  destruct Hw0 as (Hhome & Hio).
  unfold sql, run_sql. run_monad. rewrite Hio. simpl.
  eexists _, _. split; [reflexivity|]. simpl.
  split; [split; [exact Hhome|exact Hio]|].
  rewrite Hrows. split; [reflexivity|].
  unfold removed_report, count_of. reflexivity.
Qed.

(** C7: on a registry that can be opened and written, for a name with at
    least one row, a first [removeAll] returns no error and reports a
    positive number of rows removed, and a second one, right after, returns
    no error either and reports zero. *)
Theorem remove_twice (instanceName : string) (w : World) :
  registry_healthy w ->
  (exists r : Instance, In r (rows (db w)) /\ InstanceName r = instanceName) ->
  exists (w1 w2 : World) (t1 t2 : list Event) (n : Z),
    RemoveInstanceContainers instanceName w = (None, w1) /\
    trace w1 = (t1 ++ [removed_report n instanceName])%list /\
    0 < n /\
    RemoveInstanceContainers instanceName w1 = (None, w2) /\
    trace w2 = (t2 ++ [removed_report 0 instanceName])%list.
Proof.
  intros Hw (r & Hin & Hname).
  destruct (remove_once instanceName w Hw) as (w1 & t1 & Hrun1 & Hw1 & Hrows1 & Ht1).
  destruct (remove_once instanceName w1 Hw1) as (w2 & t2 & Hrun2 & _ & _ & Ht2).
  exists w1, w2, t1, t2, (count_of instanceName (rows (db w))).
  split; [exact Hrun1|]. split; [exact Ht1|].
  split; [|split; [exact Hrun2|]].
  - unfold count_of.
    assert (Hr : In r (filter (of_instance instanceName) (rows (db w)))).
    { apply filter_In. split; auto. unfold of_instance.
      rewrite Hname. apply String.eqb_refl. }
    destruct (filter (of_instance instanceName) (rows (db w))); [destruct Hr|].
    simpl. lia.
  - rewrite Ht2. unfold count_of. rewrite Hrows1, filter_twice_empty. reflexivity.
Qed.

End RemoveAll.

(** The registry after the sample configuration was stored. *)
Definition registered : World :=
  snd (StoreInstanceContainers Demo.config idle).

(** C7, witness: removing the stored sample instance twice. *)
Lemma remove_twice_witness :
  exists (w1 w2 : World) (t1 t2 : list Event) (n : Z),
    RemoveInstanceContainers "graphsense-repo" registered = (None, w1) /\
    trace w1 = (t1 ++ [removed_report n "graphsense-repo"])%list /\
    0 < n /\
    RemoveInstanceContainers "graphsense-repo" w1 = (None, w2) /\
    trace w2 = (t2 ++ [removed_report 0 "graphsense-repo"])%list.
Proof.
  apply (remove_twice "graphsense-repo" registered).
  - split.
    + exists "/home/op". split; [reflexivity|]. left. vm_compute. reflexivity.
    + intros n. reflexivity.
  - eexists. split; [vm_compute; left; reflexivity|reflexivity].
Defined.

(** The two reports on that registry: three rows, then none. *)
Example reports_of_two_removals :
  let w1 := snd (RemoveInstanceContainers "graphsense-repo" registered) in
  let w2 := snd (RemoveInstanceContainers "graphsense-repo" w1) in
  (fst (RemoveInstanceContainers "graphsense-repo" registered),
   last (trace w1) (EvPrint ""),
   fst (RemoveInstanceContainers "graphsense-repo" w1),
   last (trace w2) (EvPrint "")) =
  (None,
   EvLog Info "Removed 3 containers for instance graphsense-repo from database",
   None,
   EvLog Info "Removed 0 containers for instance graphsense-repo from database").
Proof. vm_compute. reflexivity. Qed.

(* ================================================================= *)
(** ** What a command leaves alone *)

Create HintDb frame.

Section Frames.
Context `{Host} `{Platform}.

(** An observation of the world that looks at nothing but the home
    directory, the files and the registry. *)
Definition inside_only {X} (f : World -> X) : Prop :=
  forall (w : World) (h : HostState) (s : string) (t : list Event),
    f {| host := h; home := home w; files := files w; db := db w;
         stdin := s; trace := t |} = f w.

(** The computation [c] does not change the observation [f]. *)
Definition keeps {A X} (f : World -> X) (c : M A) : Prop :=
  forall w : World, f (snd (c w)) = f w.

Lemma inside_only_db : inside_only db.
Proof. intros w h s t. reflexivity. Qed.

Lemma inside_only_files : inside_only files.
Proof. intros w h s t. reflexivity. Qed.

Lemma inside_only_home : inside_only home.
Proof. intros w h s t. reflexivity. Qed.

Lemma keeps_ret {A X} (f : World -> X) (a : A) : keeps f (ret a).
Proof. intros w. reflexivity. Qed.

Lemma keeps_bind {A B X} (f : World -> X) (c : M A) (k : A -> M B) :
  keeps f c -> (forall a, keeps f (k a)) -> keeps f (bind c k).
Proof.
  intros Hc Hk w. unfold bind. specialize (Hc w).
  destruct (c w) as [a w1]. simpl in Hc. now rewrite Hk.
Qed.

Lemma keeps_emit {X} (f : World -> X) (e : Event) :
  inside_only f -> keeps f (emit e).
Proof. intros Hf w. apply Hf. Qed.

Lemma keeps_Log {X} (f : World -> X) (lvl : Level) (msg : string) :
  inside_only f -> keeps f (Log lvl msg).
Proof. apply keeps_emit. Qed.

Lemma keeps_Print {X} (f : World -> X) (text : string) :
  inside_only f -> keeps f (Print text).
Proof. apply keeps_emit. Qed.

Lemma keeps_Sleep {X} (f : World -> X) (n : Z) :
  inside_only f -> keeps f (Sleep n).
Proof. apply keeps_emit. Qed.

Lemma keeps_stat {X} (f : World -> X) (path : string) :
  inside_only f -> keeps f (stat_IsNotExist path).
Proof. intros Hf w. apply Hf. Qed.

Lemma keeps_cmd_Output {X} (f : World -> X) argv env :
  inside_only f -> keeps f (cmd_Output argv env).
Proof.
  intros Hf w. unfold cmd_Output. run_monad.
  destruct (exec_Output argv env (host w)) as [[out err] h]. apply Hf.
Qed.

Lemma keeps_cmd_Run {X} (f : World -> X) argv env :
  inside_only f -> keeps f (cmd_Run argv env).
Proof.
  intros Hf w. unfold cmd_Run. run_monad.
  destruct (exec_Run argv env (host w)) as [err h]. apply Hf.
Qed.

Lemma keeps_isPortInUse {X} (f : World -> X) (port : Z) :
  inside_only f -> keeps f (isPortInUse port).
Proof. intros Hf w. rewrite isPortInUse_eq. apply Hf. Qed.

Lemma keeps_ReadString {X} (f : World -> X) :
  inside_only f -> keeps f ReadString_stdin.
Proof.
  intros Hf w. unfold ReadString_stdin. run_monad.
  destruct (cut_line (stdin w)) as [[l rest]|]; apply Hf.
Qed.

Lemma keeps_home_user {X} (f : World -> X) : keeps f os_UserHomeDir.
Proof. intros w. reflexivity. Qed.

End Frames.

#[export] Hint Resolve inside_only_db inside_only_files inside_only_home
  keeps_ret keeps_emit keeps_Log keeps_Print keeps_Sleep keeps_stat
  keeps_cmd_Output keeps_cmd_Run keeps_isPortInUse keeps_ReadString
  keeps_home_user : frame.

(** Walks through a computation built from [bind], [ret], branches and the
    calls above. *)
Ltac frame :=
  repeat first
    [ solve [auto with frame]
    | apply keeps_bind; [|intros]
    | match goal with
      | |- keeps _ (match ?x with _ => _ end) => destruct x
      | |- keeps _ (if ?x then _ else _) => destruct x
      end ].

Section CommandFrames.
Context `{Host} `{Platform}.

Lemma keeps_RunDockerCompose {X} (f : World -> X) args envVars :
  inside_only f -> keeps f (RunDockerCompose args envVars).
Proof. intros Hf. unfold RunDockerCompose. frame. Qed.

Lemma keeps_InstanceExists {X} (f : World -> X) (instanceName : string) :
  inside_only f -> keeps f (InstanceExists instanceName).
Proof. intros Hf. unfold InstanceExists. frame. Qed.

Lemma keeps_triple_in_use {X} (f : World -> X) (a b c : Z) :
  inside_only f -> keeps f (triple_in_use a b c).
Proof. intros Hf. unfold triple_in_use, orM. frame. Qed.

Lemma keeps_find_loop {X} (f : World -> X) (fuel : nat) (basePort : Z) :
  inside_only f -> forall port : Z, keeps f (find_loop fuel basePort port).
Proof.
  intros Hf. induction fuel as [|fuel IH]; intros port; simpl.
  - frame.
  - apply keeps_bind; [now apply keeps_triple_in_use|].
    intros [|]; [|frame].
    destruct (int_add port port_step >? port_limit); [frame|apply IH].
Qed.

Lemma keeps_FindAvailablePortSet {X} (f : World -> X) (fuel : nat) (basePort : Z) :
  inside_only f -> keeps f (FindAvailablePortSet fuel basePort).
Proof. intros Hf. unfold FindAvailablePortSet. now apply keeps_find_loop. Qed.

(** [removeInstance] has no statement that reaches the registry: whatever
    the answer and whatever docker-compose does, the table is the same
    afterwards. *)
Lemma removeInstance_keeps_db (instanceName : string) :
  keeps db (removeInstance instanceName).
Proof.
  unfold removeInstance.
  pose proof (@keeps_RunDockerCompose Db db) as Hrun.
  frame; apply Hrun; auto with frame.
Qed.

End CommandFrames.

(* ================================================================= *)
(** ** The lifecycle commands *)

(** The answer of the docker daemon to the existence query, in world [w]. *)
Definition query_result `{Host} (instanceName : string) (w : World)
  : string * error :=
  fst (exec_Output (exists_query instanceName) [] (host w)).

Definition is_sql (e : Event) : bool :=
  match e with EvSql _ _ => true | _ => false end.

Section Lifecycle.
Context `{Host} `{Platform}.

Lemma stat_IsNotExist_eq (path : string) (w : World) :
  stat_IsNotExist path w =
  (match files w path with Absent => true | _ => false end,
   after w (host w) [EvStat path]).
Proof. reflexivity. Qed.

(** C5: when the repository path does not exist, [deployInstance] returns
    the precondition error at once: the only thing it did is the [os.Stat]
    of the path, so no port was probed, no command was run, and the host,
    the files, the registry and the input are the ones it found. *)
Theorem deploy_missing_path (fuel : nat) (repoPath instanceName : string)
  (basePort : Z) (w : World) :
  files w repoPath = Absent ->
  deployInstance fuel repoPath instanceName basePort w =
    (Some (Errorf "repository path does not exist: %s" [AStr repoPath]),
     after w (host w) [EvStat repoPath]).
Proof.
  intros Habsent. unfold deployInstance, bind.
  rewrite stat_IsNotExist_eq, Habsent. reflexivity.
Qed.

Lemma InstanceExists_eq (instanceName : string) (w : World) :
  InstanceExists instanceName w =
  (match snd (query_result instanceName w) with
   | Some _ => false
   | None => negb (String.eqb (TrimSpace (fst (query_result instanceName w))) "")
   end,
   after w (snd (exec_Output (exists_query instanceName) [] (host w)))
     [EvOutput (exists_query instanceName) []
        (fst (query_result instanceName w)) (snd (query_result instanceName w))]).
Proof.
  unfold InstanceExists, cmd_Output, query_result. run_monad.
  destruct (exec_Output (exists_query instanceName) [] (host w)) as [[out [e|]] h];
    reflexivity.
Qed.

(** The five commands that start with the existence check. *)
Definition gated (instanceName service : string) : list (M error) :=
  [ stopInstance instanceName; startInstance instanceName;
    removeInstance instanceName; showLogs instanceName service;
    showStatus instanceName ].

Lemma gated_not_found (instanceName service : string) (w : World) :
  fst (InstanceExists instanceName w) = false ->
  Forall (fun c => c w = (not_exist instanceName, snd (InstanceExists instanceName w)))
         (gated instanceName service).
Proof.
  intros Hno. unfold gated.
  repeat constructor;
    unfold stopInstance, startInstance, removeInstance, showLogs, showStatus, bind;
    destruct (InstanceExists instanceName w) as [found w1];
    simpl in Hno; subst found; reflexivity.
Qed.

(** C9: when the query to the docker daemon fails, [InstanceExists] answers
    [false], and [stop], [start], [remove], [logs] and [status] all return
    the error [instance '...' does not exist]; this is the very error they
    return in a world where the query succeeds and lists no container. *)
Theorem exists_swallows_query_error (instanceName service e : string) (w : World) :
  snd (query_result instanceName w) = Some e ->
  fst (InstanceExists instanceName w) = false /\
  Forall (fun c => fst (c w) = not_exist instanceName) (gated instanceName service) /\
  (forall w0 : World,
     snd (query_result instanceName w0) = None ->
     TrimSpace (fst (query_result instanceName w0)) = "" ->
     Forall (fun c => fst (c w0) = fst (c w)) (gated instanceName service)).
Proof.
  intros Hfail.
  assert (Hno : fst (InstanceExists instanceName w) = false).
  { rewrite InstanceExists_eq. simpl. now rewrite Hfail. }
  pose proof (gated_not_found instanceName service w Hno) as Hw.
  split; [exact Hno|]. split.
  - eapply Forall_impl; [|exact Hw]. intros c ->. reflexivity.
  - intros w0 Hok Hblank.
    assert (Hno0 : fst (InstanceExists instanceName w0) = false).
    { rewrite InstanceExists_eq. simpl. now rewrite Hok, Hblank. }
    pose proof (gated_not_found instanceName service w0 Hno0) as Hw0.
    eapply Forall_impl; [|exact (Forall_and Hw Hw0)].
    intros c [Ha Hb]. simpl in Ha, Hb. now rewrite Ha, Hb.
Qed.

Lemma ReadString_line (w : World) (line rest : string) :
  cut_line (stdin w) = Some (line, rest) ->
  ReadString_stdin w =
    ((line, None),
     {| host := host w; home := home w; files := files w; db := db w;
        stdin := rest; trace := trace w ++ [EvReadStdin line None] |}).
Proof. intros Hcut. unfold ReadString_stdin. run_monad. now rewrite Hcut. Qed.

(** C10: when the instance exists and the line read from the terminal is
    not [y] or [yes] (in any case, spaces around it aside), [removeInstance]
    returns [nil]; besides the existence query it printed the warning and
    the prompt, read the line and logged the cancellation, and nothing
    else: docker-compose was not run, and the files and the registry are
    untouched. *)
Theorem remove_cancelled (instanceName line rest : string) (w : World) :
  fst (InstanceExists instanceName w) = true ->
  cut_line (stdin w) = Some (line, rest) ->
  confirmed line = false ->
  removeInstance instanceName w =
    (None,
     {| host := snd (exec_Output (exists_query instanceName) [] (host w));
        home := home w; files := files w; db := db w; stdin := rest;
        trace := trace w ++
          [ EvOutput (exists_query instanceName) []
              (fst (query_result instanceName w))
              (snd (query_result instanceName w));
            EvLog Warning
              (Sprintf "This will permanently remove instance '%s' and all its data."
                 [AStr instanceName]);
            EvPrint "Are you sure? (y/N): ";
            EvReadStdin line None;
            EvLog Info "Cancelled." ] |}).
Proof.
  intros Hfound Hline Hno. unfold removeInstance, bind at 1.
  rewrite InstanceExists_eq in *. simpl in Hfound. rewrite Hfound. simpl negb. cbv iota.
  unfold bind, Log, Print, emit. simpl.
  erewrite ReadString_line by (simpl; exact Hline).
  rewrite Hno. simpl. unfold ret. rewrite <- !app_assoc. reflexivity.
Qed.

End Lifecycle.

(** C5, witness: deploying a path that is not on disk. *)
Lemma deploy_missing_path_witness :
  deployInstance 1 "/no/such" "" 0 idle =
    (Some (Some "repository path does not exist: /no/such"),
     after idle (host idle) [EvStat "/no/such"]).
Proof. apply (deploy_missing_path 1 "/no/such" "" 0 idle). reflexivity. Defined.

(** A machine whose docker daemon does not answer. *)
Definition daemon_down : World :=
  Demo.world {| Demo.busy := []; Demo.daemon_up := false;
                Demo.ps_names := ""; Demo.compose_ok := true |}
             [] Demo.fresh_db "".

(** C9, witness: with the daemon down every gated command reports that the
    instance does not exist, as it does on the idle machine. *)
Lemma exists_swallows_query_error_witness :
  fst (InstanceExists "graphsense-repo" daemon_down) = false /\
  Forall (fun c => fst (c daemon_down) = not_exist "graphsense-repo")
         (gated "graphsense-repo" "app") /\
  (forall w0 : World,
     snd (query_result "graphsense-repo" w0) = None ->
     TrimSpace (fst (query_result "graphsense-repo" w0)) = "" ->
     Forall (fun c => fst (c w0) = fst (c daemon_down))
            (gated "graphsense-repo" "app")).
Proof.
  apply (exists_swallows_query_error "graphsense-repo" "app" "exit status 1"
           daemon_down).
  reflexivity.
Defined.

(** The sample instance is up, its rows are in the registry, and the operator
    types [answer]. *)
Definition deployed (answer : string) (composeOk : bool) : World :=
  Demo.world {| Demo.busy := [8080; 8180; 8280]; Demo.daemon_up := true;
                Demo.ps_names := "graphsense-repo-app" ++ nl;
                Demo.compose_ok := composeOk |}
             [] (db registered) answer.

(** C10, witness: the operator answers [no]. *)
Lemma remove_cancelled_witness :
  fst (removeInstance "graphsense-repo" (deployed ("no" ++ nl) true)) = None /\
  db (snd (removeInstance "graphsense-repo" (deployed ("no" ++ nl) true))) =
    db registered.
Proof.
  rewrite (remove_cancelled "graphsense-repo" ("no" ++ nl) ""
             (deployed ("no" ++ nl) true));
    [split; reflexivity | reflexivity | reflexivity | reflexivity].
Defined.

(** C1, the code at the failing input: the operator confirms the removal
    of the deployed sample instance. Whether [docker-compose down] succeeds
    or fails, [removeInstance] returns [nil], runs no statement on the
    registry, and the three rows of the instance are still there. *)
Theorem remove_confirmed_leaves_rows :
  forall composeOk : bool,
    let w := deployed ("y" ++ nl) composeOk in
    let w' := snd (removeInstance "graphsense-repo" w) in
    fst (removeInstance "graphsense-repo" w) = None /\
    existsb is_sql (trace w') = false /\
    count_of "graphsense-repo" (rows (db w')) = 3.
Proof. intros [|]; vm_compute; repeat split. Qed.

(** What [removeInstance] does run when the removal is confirmed and
    [docker-compose down] succeeds. *)
Example commands_of_confirmed_removal :
  filter (fun e => match e with EvRun _ _ _ => true | _ => false end)
    (trace (snd (removeInstance "graphsense-repo" (deployed ("y" ++ nl) true)))) =
  [ EvRun ["docker-compose"; "down"; "-v"; "--remove-orphans"]
      [("COMPOSE_PROJECT_NAME", "graphsense-repo")] None;
    EvRun ["docker-compose"; "volume"; "ls"; "-q"; "|"; "grep";
           "^graphsense-repo_"; "|"; "xargs"; "-r"; "docker"; "volume"; "rm"]
      [] None ].
Proof. vm_compute. reflexivity. Qed.

(* ================================================================= *)
(** ** The secrets file *)

(** Where [LoadAPIKeys] looks, for home directory [h]. *)
Definition secrets_path (h : string) : string := Join h [".graphsense"; ".env"].

(** Some line of [content] assigns [key]. *)
Definition defines `{Platform} (key content : string) : Prop :=
  exists l v : string,
    In l (raw_lines "" content) /\ parse_line (drop_cr l) = Some (key, v).

(** The line of the environment file for an optional credential. *)
Definition optional_line (key value : string) : string :=
  if String.eqb value "" then "" else key ++ "=" ++ value ++ nl.

Section Secrets.
Context `{Host} `{Platform}.

Lemma keeps_run {A X} (f : World -> X) (c : M A) (w w1 : World) (a : A) :
  keeps f c -> c w = (a, w1) -> f w1 = f w.
Proof. intros Hk E. specialize (Hk w). now rewrite E in Hk. Qed.

Lemma LoadAPIKeys_missing (w : World) (h : string) :
  home w = (h, None) ->
  files w (secrets_path h) = Absent ->
  LoadAPIKeys w =
    (("", "", Errorf "API keys file not found: %s" [AStr (secrets_path h)]),
     after w (host w) [EvStat (secrets_path h)]).
Proof.
  intros Hh Hf. unfold LoadAPIKeys, os_UserHomeDir, bind at 1. simpl.
  rewrite Hh. unfold bind at 1.
  rewrite stat_IsNotExist_eq. unfold secrets_path in Hf. simpl in Hf.
  rewrite Hf. reflexivity.
Qed.

Lemma LoadAPIKeys_file (w : World) (h content : string) :
  home w = (h, None) ->
  files w (secrets_path h) = File content ->
  fst (LoadAPIKeys w) =
    match load_lines ("", "") (raw_lines "" content) with
    | (_, Some e) => ("", "", Errorf "failed to read API keys file: %v" [AStr e])
    | ((coAPIKey, anthropicAPIKey), None) => (coAPIKey, anthropicAPIKey, None)
    end.
Proof.
  intros Hh Hf. unfold LoadAPIKeys, os_UserHomeDir, bind at 1. simpl.
  rewrite Hh. unfold bind at 1.
  rewrite stat_IsNotExist_eq. unfold secrets_path in Hf. simpl in Hf.
  rewrite Hf.
  unfold bind, emit, get_world. simpl. rewrite Hf.
  destruct (load_lines ("", "") (raw_lines "" content)) as [[co an] [e|]];
    reflexivity.
Qed.

(** A key that no line assigns keeps the value it had before the scan. *)
Lemma load_lines_untouched (ls : list string) :
  forall keys : string * string,
    ((forall l v, In l ls -> parse_line (drop_cr l) <> Some ("CO_API_KEY", v)) ->
     fst (fst (load_lines keys ls)) = fst keys) /\
    ((forall l v, In l ls -> parse_line (drop_cr l) <> Some ("ANTHROPIC_API_KEY", v)) ->
     snd (fst (load_lines keys ls)) = snd keys).
Proof.
  induction ls as [|l rest IH]; intros keys; simpl; [now split|].
  destruct (line_fits l); [|now split].
  destruct (IH (load_line keys (drop_cr l))) as [IHco IHan].
  unfold load_line in *.
  split; intros Hno.
  - rewrite IHco by (intros l' v Hin; apply Hno; now right).
    destruct (parse_line (drop_cr l)) as [[key value]|] eqn:E; auto.
    destruct (String.eqb_spec key "CO_API_KEY") as [->|_].
    + exfalso. apply (Hno l value); [now left|exact E].
    + now destruct (String.eqb key "ANTHROPIC_API_KEY").
  - rewrite IHan by (intros l' v Hin; apply Hno; now right).
    destruct (parse_line (drop_cr l)) as [[key value]|] eqn:E; auto.
    destruct (String.eqb_spec key "CO_API_KEY") as [->|_]; auto.
    destruct (String.eqb_spec key "ANTHROPIC_API_KEY") as [->|_]; auto.
    exfalso. apply (Hno l value); [now left|exact E].
Qed.

Lemma append_assoc (a b c : string) : (a ++ b) ++ c = a ++ (b ++ c).
Proof. induction a as [|x a IH]; simpl; auto. now rewrite IH. Qed.

Lemma append_empty (a : string) : a ++ "" = a.
Proof. induction a as [|x a IH]; simpl; auto. now rewrite IH. Qed.

Lemma env_content_lines (config : DeployConfig.t) :
  env_content config =
    Sprintf env_template
      [AStr (DeployConfig.RepoPath config); AInt (DeployConfig.AppPort config);
       AInt (DeployConfig.PostgresPort config);
       AInt (DeployConfig.Neo4jBoltPort config)]
    ++ optional_line "CO_API_KEY" (DeployConfig.CoAPIKey config)
    ++ optional_line "ANTHROPIC_API_KEY" (DeployConfig.AnthropicAPIKey config).
Proof.
  unfold env_content, optional_line.
  assert (Eco : forall v, Sprintf ("CO_API_KEY=%s" ++ nl) [AStr v]
                          = "CO_API_KEY" ++ "=" ++ v ++ nl) by reflexivity.
  assert (Ean : forall v, Sprintf ("ANTHROPIC_API_KEY=%s" ++ nl) [AStr v]
                          = "ANTHROPIC_API_KEY" ++ "=" ++ v ++ nl) by reflexivity.
  rewrite Eco, Ean.
  destruct (String.eqb (DeployConfig.CoAPIKey config) "");
    destruct (String.eqb (DeployConfig.AnthropicAPIKey config) "");
    cbv [negb]; cbv iota; rewrite ?append_assoc, ?append_empty; reflexivity.
Qed.

(** Without the secrets file, [deployInstance] ends with an error on every
    path through it. *)
Lemma deploy_without_secrets (fuel : nat) (repoPath instanceName : string)
  (basePort : Z) (w : World) (h : string) :
  home w = (h, None) ->
  files w (secrets_path h) = Absent ->
  (enough_fuel <= fuel)%nat ->
  exists (e : string) (w' : World),
    deployInstance fuel repoPath instanceName basePort w = (Some (Some e), w').
Proof.
  intros Hh Hf Hfuel. unfold deployInstance. unfold bind at 1.
  rewrite stat_IsNotExist_eq.
  destruct (files w repoPath) eqn:Erepo; [eexists _, _; reflexivity| | |];
  (destruct (filepath_Abs repoPath) as [absRepoPath [e|]];
   [eexists _, _; reflexivity|];
   unfold bind at 1; unfold Log at 1, emit at 1;
   unfold bind at 1;
   match goal with
   | |- context [InstanceExists ?n ?w0] =>
       pose proof (keeps_InstanceExists files n inside_only_files w0) as Kf;
       pose proof (keeps_InstanceExists home n inside_only_home w0) as Kh;
       destruct (InstanceExists n w0) as [found w1]
   end;
   simpl in Kf, Kh;
   destruct found; [eexists _, _; reflexivity|];
   unfold bind at 1;
   pose proof (keeps_FindAvailablePortSet files fuel basePort inside_only_files w1) as Pf;
   pose proof (keeps_FindAvailablePortSet home fuel basePort inside_only_home w1) as Ph;
   pose proof (find_loop_returns
                 (if basePort =? 0 then DefaultBasePort else basePort)
                 (if basePort =? 0 then DefaultBasePort else basePort)
                 w1 fuel Hfuel) as Hret;
   fold (FindAvailablePortSet fuel basePort) in Hret;
   destruct (FindAvailablePortSet fuel basePort w1) as [[[p [e|]]|] w2];
   [eexists _, _; reflexivity | | now elim Hret];
   simpl in Pf, Ph;
   unfold bind at 1;
   rewrite (LoadAPIKeys_missing w2 h)
     by (rewrite ?Pf, ?Ph, ?Kf, ?Kh; assumption);
   eexists _, _; reflexivity).
Qed.


End Secrets.

(** A machine with the repository and the compose file in place, and
    [secrets] as the state of the secrets file. *)
Definition ready (secrets : FileState) : World :=
  Demo.world Demo.quiet
    [ ("/srv/repo", Dir);
      ("/home/op/oss/code-graph-rag/docker-compose.yml", File "services:");
      ("/home/op/.graphsense/.env", secrets) ]
    Demo.fresh_db "".

(** A secrets file that assigns one of the two keys only. *)
Definition one_key : string :=
  "# keys" ++ nl ++ "ANTHROPIC_API_KEY = sk-1" ++ nl.

Lemma one_key_has_no_co : ~ defines "CO_API_KEY" one_key.
Proof.
  intros (l & v & Hin & E). vm_compute in Hin.
  destruct Hin as [<-|[<-|[]]]; vm_compute in E; discriminate.
Qed.


(** The same three situations, evaluated. *)
Example deploy_without_secrets_file :
  fst (deployInstance 1 "/srv/repo" "" 0 (ready Absent)) =
    Some (Some "failed to load API keys: API keys file not found: /home/op/.graphsense/.env").
Proof. vm_compute. reflexivity. Qed.

Example keys_of_one_key_file :
  fst (LoadAPIKeys (ready (File one_key))) = ("", "sk-1", None).
Proof. vm_compute. reflexivity. Qed.

(** A whole deployment with that secrets file: it succeeds, and what it
    wrote to the environment file ends with the Anthropic line alone. *)
Example deploy_with_one_key :
  let run := deployInstance 1 "/srv/repo" "" 0 (ready (File one_key)) in
  fst run = Some None /\
  In (EvWrite "/tmp/graphsense-env-*.env"
        (Sprintf env_template [AStr "/srv/repo"; AInt 8080; AInt 8180; AInt 8280]
         ++ "ANTHROPIC_API_KEY=sk-1" ++ nl) None)
     (trace (snd run)) /\
  count_of "graphsense-repo" (rows (db (snd run))) = 3.
Proof.
  vm_compute. split; [reflexivity|]. split; [|reflexivity].
  do 9 right. left. reflexivity.
Qed.

(* ================================================================= *)
(** ** More on the registry *)

Section RegistryRows.
Context `{Host}.

Lemma RemoveInstanceContainers_rows (instanceName : string) (w w1 : World) :
  RemoveInstanceContainers instanceName w = (None, w1) ->
  rows (db w1) =
    filter (fun x => negb (of_instance instanceName x)) (rows (db w)).
Proof.
  unfold RemoveInstanceContainers, bind. intros Hrun.
  destruct (InitDB_frame w) as (Hrows & _).
  destruct (InitDB w) as [[e|] w0]; [discriminate|]. simpl in Hrows.
  set (stmt := DeleteByInstance instanceName) in Hrun.
  destruct (sql_rows stmt w0) as (Hrows' & _ & _ & _ & Hres).
  destruct (sql stmt w0) as [[[rs n] err] w'] eqn:Esql. simpl in *.
  unfold run_sql, stmt in Hrows', Hres.
  destruct (io_fail (db w0) (ops (db w0))); simpl in *.
  - injection Hres as _ _ ->. discriminate.
  - injection Hres as _ _ ->. unfold Log, emit, ret in Hrun.
    injection Hrun as <-. simpl. now rewrite Hrows', Hrows.
Qed.

(** Whatever its outcome, [removeAll] leaves the table as it was or without
    the rows of the instance. *)
Lemma RemoveInstanceContainers_rows_any (instanceName : string) (w : World) :
  rows (db (snd (RemoveInstanceContainers instanceName w))) = rows (db w) \/
  rows (db (snd (RemoveInstanceContainers instanceName w))) =
    filter (fun x => negb (of_instance instanceName x)) (rows (db w)).
Proof.
  unfold RemoveInstanceContainers, bind.
  destruct (InitDB_frame w) as (Hrows & _).
  destruct (InitDB w) as [[e|] w0]; simpl snd in Hrows; [now left|].
  set (stmt := DeleteByInstance instanceName).
  destruct (sql_rows stmt w0) as (Hrows' & _ & _ & _ & Hres).
  destruct (sql stmt w0) as [[[rs n] err] w'] eqn:Esql.
  simpl fst in Hres. simpl snd in Hrows'.
  unfold run_sql, stmt in Hrows', Hres.
  destruct (io_fail (db w0) (ops (db w0))); simpl in Hrows', Hres;
    injection Hres as _ _ ->.
  - left. unfold ret. simpl. now rewrite Hrows', Hrows.
  - right. unfold Log, emit, ret. simpl. now rewrite Hrows', Hrows.
Qed.

Lemma filter_other_instance (instanceName other : string) (rs : list Instance) :
  other <> instanceName ->
  filter (of_instance other)
    (filter (fun x => negb (of_instance instanceName x)) rs) =
  filter (of_instance other) rs.
Proof.
  intros Hne. rewrite filter_filter. apply filter_ext. intros x.
  unfold of_instance.
  destruct (String.eqb_spec (InstanceName x) instanceName) as [E|]; auto.
  simpl. symmetry. apply String.eqb_neq. congruence.
Qed.

Lemma filter_upsert_other (other : string) (rs : list Instance) (r : Instance) :
  InstanceName r <> other ->
  filter (of_instance other) (upsert rs r) = filter (of_instance other) rs.
Proof.
  intros Hne. unfold upsert. rewrite filter_app, filter_filter. simpl.
  replace (of_instance other r) with false
    by (symmetry; now apply String.eqb_neq).
  rewrite app_nil_r. apply filter_ext. intros x. unfold same_key, of_instance.
  destruct (String.eqb_spec (InstanceName x) other) as [E|];
    [|now rewrite andb_false_r].
  rewrite andb_true_r.
  replace (String.eqb (InstanceName x) (InstanceName r)) with false; auto.
  symmetry. apply String.eqb_neq. congruence.
Qed.

Lemma store_each_other (config : DeployConfig.t) (other : string)
  (names : list string) :
  other <> DeployConfig.InstanceName config ->
  forall w : World,
    filter (of_instance other) (rows (db (snd (store_each config names w)))) =
    filter (of_instance other) (rows (db w)).
Proof.
  intros Hne. induction names as [|c rest IH]; intros w; simpl; auto.
  unfold bind.
  set (stmt := InsertOrReplace _ _ _ _ _ _).
  destruct (sql_rows stmt w) as (Hrows & _ & _ & _ & Hres).
  destruct (sql stmt w) as [[[rs n] err] w'] eqn:Esql.
  simpl fst in Hres. simpl snd in Hrows.
  unfold run_sql, stmt in Hrows, Hres.
  destruct (io_fail (db w) (ops (db w))); simpl in Hrows, Hres;
    injection Hres as _ _ ->.
  - unfold ret. simpl. now rewrite Hrows.
  - rewrite IH, Hrows.
    apply (filter_upsert_other other (rows (db w))
             {| ID := seq (db w) + 1;
                InstanceName := DeployConfig.InstanceName config;
                ContainerName := c;
                RepoPath := DeployConfig.RepoPath config;
                AppPort := DeployConfig.AppPort config;
                PostgresPort := DeployConfig.PostgresPort config;
                Neo4jBoltPort := DeployConfig.Neo4jBoltPort config;
                CreatedAt := clock (db w) (ops (db w)) |}).
    simpl. congruence.
Qed.

(** X1: [StoreInstanceContainers] writes rows of its own instance only: the
    rows of every other instance are the same afterwards, in the same order,
    whether the call succeeded, failed at once or failed half way. *)
Theorem store_leaves_other_instances (config : DeployConfig.t) (other : string)
  (w : World) :
  other <> DeployConfig.InstanceName config ->
  filter (of_instance other)
    (rows (db (snd (StoreInstanceContainers config w)))) =
  filter (of_instance other) (rows (db w)).
Proof.
  intros Hne. unfold StoreInstanceContainers, bind.
  destruct (InitDB_frame w) as (Hrows & _).
  destruct (InitDB w) as [[e|] w0]; simpl snd in Hrows.
  - unfold ret. simpl. now rewrite Hrows.
  - pose proof (store_each_other config other (containerNames config) Hne w0)
      as Hkeep.
    destruct (store_each config (containerNames config) w0) as [[e|] w1];
      simpl snd in Hkeep; unfold Log, emit, bind, ret; simpl;
      now rewrite Hkeep, Hrows.
Qed.

(** X2: After a [RemoveInstanceContainers] that succeeded,
    [GetInstanceContainers] for the same name
    returns no record, and the rows of every other instance are the ones
    that were there before. *)
Theorem remove_then_list (instanceName : string) (w w1 w2 : World)
  (rs : list Instance) :
  RemoveInstanceContainers instanceName w = (None, w1) ->
  GetInstanceContainers instanceName w1 = (rs, None, w2) ->
  rs = [] /\
  (forall other : string, other <> instanceName ->
     filter (of_instance other) (rows (db w1)) =
     filter (of_instance other) (rows (db w))).
Proof.
  intros Hremove Hlist.
  apply RemoveInstanceContainers_rows in Hremove.
  apply GetInstanceContainers_rows in Hlist.
  split.
  - rewrite Hlist, Hremove, filter_twice_empty. reflexivity.
  - intros other Hne. rewrite Hremove. now apply filter_other_instance.
Qed.

(** X3: A second [StoreInstanceContainers] under the same instance name
    replaces the rows of the
    first: listing returns three records, with the path and the ports of
    the configuration stored last. *)
Theorem restore_replaces (first second : DeployConfig.t) (w w1 w2 w3 : World)
  (rs : list Instance) :
  registry_shaped (rows (db w)) ->
  DeployConfig.InstanceName first = DeployConfig.InstanceName second ->
  StoreInstanceContainers first w = (None, w1) ->
  StoreInstanceContainers second w1 = (None, w2) ->
  GetInstanceContainers (DeployConfig.InstanceName first) w2 = (rs, None, w3) ->
  exists a n p : Instance,
    rs = [a; n; p] /\
    stored second "-app" a /\ stored second "-neo4j" n /\
    stored second "-postgres" p.
Proof.
  intros Hs Hname Hfirst Hsecond Hlist.
  assert (Hs1 : registry_shaped (rows (db w1))).
  { pose proof (store_keeps_shape first w Hs) as Hk. now rewrite Hfirst in Hk. }
  apply StoreInstanceContainers_rows in Hsecond.
  apply GetInstanceContainers_rows in Hlist. rewrite Hname in Hlist.
  destruct (rows_after_store second _ _ Hs1 Hsecond)
    as (a & p & n & Ha & Hp & Hn & E).
  exists a, n, p. rewrite Hlist, E.
  split; [now apply (sorted_by_container second)|auto].
Qed.

End RegistryRows.

(** The sample instance, moved to another base port. *)
Definition moved : DeployConfig.t := {|
  DeployConfig.RepoPath := "/srv/repo";
  DeployConfig.InstanceName := "graphsense-repo";
  DeployConfig.AppPort := 8090;
  DeployConfig.PostgresPort := 8190;
  DeployConfig.Neo4jBoltPort := 8290;
  DeployConfig.CoAPIKey := "";
  DeployConfig.AnthropicAPIKey := ""
|}.

(** A second instance, stored beside the sample one. *)
Definition other_config : DeployConfig.t := {|
  DeployConfig.RepoPath := "/srv/api";
  DeployConfig.InstanceName := "graphsense-api";
  DeployConfig.AppPort := 8090;
  DeployConfig.PostgresPort := 8190;
  DeployConfig.Neo4jBoltPort := 8290;
  DeployConfig.CoAPIKey := "";
  DeployConfig.AnthropicAPIKey := ""
|}.

Lemma store_leaves_other_instances_witness :
  filter (of_instance "graphsense-repo")
    (rows (db (snd (StoreInstanceContainers other_config registered)))) =
  filter (of_instance "graphsense-repo") (rows (db registered)).
Proof.
  apply (store_leaves_other_instances other_config "graphsense-repo" registered).
  discriminate.
Defined.

Lemma remove_then_list_witness :
  fst (fst (GetInstanceContainers "graphsense-repo"
              (snd (RemoveInstanceContainers "graphsense-repo" registered)))) = [] /\
  (forall other : string, other <> "graphsense-repo" ->
     filter (of_instance other)
       (rows (db (snd (RemoveInstanceContainers "graphsense-repo" registered)))) =
     filter (of_instance other) (rows (db registered))).
Proof.
  apply (remove_then_list "graphsense-repo" registered
           (snd (RemoveInstanceContainers "graphsense-repo" registered))
           (snd (GetInstanceContainers "graphsense-repo"
                   (snd (RemoveInstanceContainers "graphsense-repo" registered))))).
  - vm_compute. reflexivity.
  - vm_compute. reflexivity.
Defined.

Lemma restore_replaces_witness :
  exists a n p : Instance,
    fst (fst (GetInstanceContainers "graphsense-repo"
                (snd (StoreInstanceContainers moved registered)))) = [a; n; p] /\
    stored moved "-app" a /\ stored moved "-neo4j" n /\
    stored moved "-postgres" p.
Proof.
  apply (restore_replaces Demo.config moved idle registered
           (snd (StoreInstanceContainers moved registered))
           (snd (GetInstanceContainers "graphsense-repo"
                   (snd (StoreInstanceContainers moved registered))))).
  - constructor.
  - reflexivity.
  - vm_compute. reflexivity.
  - vm_compute. reflexivity.
  - vm_compute. reflexivity.
Defined.

(** The ids and the ports read back after the second [store]: the three
    rows are new ones. *)
Example listed_after_restore :
  map (fun r => (ID r, ContainerName r, AppPort r))
      (fst (fst (GetInstanceContainers "graphsense-repo"
                   (snd (StoreInstanceContainers moved registered))))) =
  [ (4, "graphsense-repo-app", 8090); (6, "graphsense-repo-neo4j", 8090);
    (5, "graphsense-repo-postgres", 8090) ].
Proof. vm_compute. reflexivity. Qed.

(* ================================================================= *)
(** ** Listing: every row once, in order *)

Section Ordering.

Variable le : Instance -> Instance -> bool.
Hypothesis le_total : forall a b, le a b = false -> le b a = true.

Lemma insert_by_perm (r : Instance) (l : list Instance) :
  Permutation (insert_by le r l) (r :: l).
Proof.
  induction l as [|x l IH]; simpl; auto.
  destruct (le r x); auto.
  rewrite IH. apply perm_swap.
Qed.

Lemma order_by_perm (l : list Instance) : Permutation (order_by le l) l.
Proof.
  induction l as [|x l IH]; simpl; auto.
  unfold order_by in *. simpl. rewrite insert_by_perm. now constructor.
Qed.

Lemma insert_by_head (r x : Instance) (l : list Instance) :
  le x r = true ->
  HdRel (fun a b => le a b = true) x l ->
  HdRel (fun a b => le a b = true) x (insert_by le r l).
Proof.
  intros Hxr Hl. destruct l as [|y l]; simpl; [now constructor|].
  destruct (le r y); constructor; auto. now inversion Hl.
Qed.

Lemma insert_by_sorted (r : Instance) (l : list Instance) :
  Sorted (fun a b => le a b = true) l ->
  Sorted (fun a b => le a b = true) (insert_by le r l).
Proof.
  induction 1 as [|x l Hl IH Hx]; simpl; [repeat constructor|].
  destruct (le r x) eqn:E.
  - repeat constructor; auto.
  - constructor; auto. apply insert_by_head; auto.
Qed.

Lemma order_by_sorted (l : list Instance) :
  Sorted (fun a b => le a b = true) (order_by le l).
Proof.
  induction l as [|x l IH]; simpl; [constructor|].
  unfold order_by in *. simpl. now apply insert_by_sorted.
Qed.

End Ordering.

Lemma leb_total (a b : string) : String.leb a b = false -> String.leb b a = true.
Proof.
  unfold String.leb. rewrite (String.compare_antisym b a).
  destruct (String.compare a b); simpl; auto; discriminate.
Qed.

Lemma by_container_total (a b : Instance) :
  by_container a b = false -> by_container b a = true.
Proof. apply leb_total. Qed.

Lemma by_instance_container_total (a b : Instance) :
  by_instance_container a b = false -> by_instance_container b a = true.
Proof.
  unfold by_instance_container.
  rewrite (String.compare_antisym (InstanceName b) (InstanceName a)).
  destruct (String.compare (InstanceName a) (InstanceName b)); simpl;
    [apply leb_total | discriminate | reflexivity].
Qed.

Section Listing.
Context `{Host}.

Lemma GetAllInstances_rows (w w1 : World) (rs : list Instance) :
  GetAllInstances w = (rs, None, w1) ->
  rs = order_by by_instance_container (rows (db w)) /\
  rows (db w1) = rows (db w).
Proof.
  unfold GetAllInstances, bind. intros Hrun.
  destruct (InitDB_frame w) as (Hrows & _).
  destruct (InitDB w) as [[e|] w0]; [discriminate|]. simpl in Hrows.
  destruct (sql_rows SelectAll w0) as (Hrows' & _ & _ & _ & Hres).
  destruct (sql SelectAll w0) as [[[rs' n] err] w'] eqn:Esql. simpl in *.
  unfold run_sql in Hrows', Hres.
  destruct (io_fail (db w0) (ops (db w0))); simpl in *.
  - injection Hres as _ _ ->. discriminate.
  - injection Hres as -> _ ->. unfold ret in Hrun.
    injection Hrun as <- <-. now rewrite Hrows', Hrows.
Qed.

Lemma GetInstanceContainers_keeps_rows (instanceName : string) (w : World) :
  rows (db (snd (GetInstanceContainers instanceName w))) = rows (db w).
Proof.
  unfold GetInstanceContainers, bind.
  destruct (InitDB_frame w) as (Hrows & _).
  destruct (InitDB w) as [[e|] w0]; simpl snd in Hrows; [exact Hrows|].
  set (stmt := SelectByInstance instanceName).
  destruct (sql_rows stmt w0) as (Hrows' & _ & _ & _ & Hres).
  destruct (sql stmt w0) as [[[rs n] err] w'] eqn:Esql.
  simpl fst in Hres. simpl snd in Hrows'.
  unfold run_sql, stmt in Hrows', Hres.
  destruct (io_fail (db w0) (ops (db w0))); simpl in Hrows', Hres;
    injection Hres as _ _ ->; unfold ret; simpl; now rewrite Hrows', Hrows.
Qed.

(** X4: The two queries of the registry lose and invent nothing:
    [GetAllInstances]
    returns every row of the table exactly once, ordered by instance name
    and then container name; [GetInstanceContainers] returns every row of the
    instance exactly once and no other, ordered by container name; neither
    changes the table. *)
Theorem listings_are_sorted_permutations (instanceName : string)
  (w w1 w2 : World) (all mine : list Instance) :
  GetAllInstances w = (all, None, w1) ->
  GetInstanceContainers instanceName w = (mine, None, w2) ->
  Permutation all (rows (db w)) /\
  Sorted (fun a b => by_instance_container a b = true) all /\
  Permutation mine (filter (of_instance instanceName) (rows (db w))) /\
  Sorted (fun a b => by_container a b = true) mine /\
  rows (db w1) = rows (db w) /\ rows (db w2) = rows (db w).
Proof.
  intros Hall Hmine.
  destruct (GetAllInstances_rows w w1 all Hall) as (-> & Hkeep).
  pose proof (GetInstanceContainers_keeps_rows instanceName w) as Hkeep2.
  rewrite Hmine in Hkeep2. simpl in Hkeep2.
  apply GetInstanceContainers_rows in Hmine. subst mine.
  repeat split; auto.
  - apply order_by_perm.
  - apply order_by_sorted, by_instance_container_total.
  - apply order_by_perm.
  - apply order_by_sorted, by_container_total.
Qed.

End Listing.

(** A registry with the sample instance and a second one. *)
Definition two_instances : World :=
  snd (StoreInstanceContainers other_config registered).

Lemma listings_are_sorted_permutations_witness :
  let all := fst (fst (GetAllInstances two_instances)) in
  let mine := fst (fst (GetInstanceContainers "graphsense-repo" two_instances)) in
  Permutation all (rows (db two_instances)) /\
  Sorted (fun a b => by_instance_container a b = true) all /\
  Permutation mine (filter (of_instance "graphsense-repo") (rows (db two_instances))) /\
  Sorted (fun a b => by_container a b = true) mine /\
  rows (db (snd (GetAllInstances two_instances))) = rows (db two_instances) /\
  rows (db (snd (GetInstanceContainers "graphsense-repo" two_instances)))
    = rows (db two_instances).
Proof.
  apply (listings_are_sorted_permutations "graphsense-repo" two_instances
           (snd (GetAllInstances two_instances))
           (snd (GetInstanceContainers "graphsense-repo" two_instances))).
  - vm_compute. reflexivity.
  - vm_compute. reflexivity.
Defined.

Example list_all_of_two_instances :
  map ContainerName (fst (fst (GetAllInstances two_instances))) =
  [ "graphsense-api-app"; "graphsense-api-neo4j"; "graphsense-api-postgres";
    "graphsense-repo-app"; "graphsense-repo-neo4j"; "graphsense-repo-postgres" ].
Proof. vm_compute. reflexivity. Qed.

(* ================================================================= *)
(** ** What a command may do: the kinds of its events *)

Inductive Kind :=
| KStat | KOpen | KMkdir | KListen | KOutput | KRun | KCreateTemp | KWrite
| KRemove | KRead | KPrint | KLog | KSleep | KSql.

Definition kind_of (e : Event) : Kind :=
  match e with
  | EvStat _ => KStat
  | EvOpen _ => KOpen
  | EvMkdirAll _ => KMkdir
  | EvListen _ _ => KListen
  | EvOutput _ _ _ _ => KOutput
  | EvRun _ _ _ => KRun
  | EvCreateTemp _ _ _ => KCreateTemp
  | EvWrite _ _ _ => KWrite
  | EvRemove _ => KRemove
  | EvReadStdin _ _ => KRead
  | EvPrint _ => KPrint
  | EvLog _ _ => KLog
  | EvSleep _ => KSleep
  | EvSql _ _ => KSql
  end.

Definition Kind_eqb (a b : Kind) : bool :=
  match a, b with
  | KStat, KStat | KOpen, KOpen | KMkdir, KMkdir | KListen, KListen
  | KOutput, KOutput | KRun, KRun | KCreateTemp, KCreateTemp | KWrite, KWrite
  | KRemove, KRemove | KRead, KRead | KPrint, KPrint | KLog, KLog
  | KSleep, KSleep | KSql, KSql => true
  | _, _ => false
  end.

(** Kind [k] is one of [ks]. *)
Definition has (k : Kind) (ks : list Kind) : bool := existsb (Kind_eqb k) ks.

Definition among (ks : list Kind) (e : Event) : bool := has (kind_of e) ks.

(** Every event that [c] adds to the trace is of a kind in [ks], and [c]
    only adds to the trace. *)
Definition emits `{Host} {A} (ks : list Kind) (c : M A) : Prop :=
  forall w : World,
    exists t : list Event,
      trace (snd (c w)) = (trace w ++ t)%list /\ forallb (among ks) t = true.

Create HintDb emits.

Section Emits.
Context `{Host} `{Platform}.

Lemma emits_ret {A} (ks : list Kind) (a : A) : emits ks (ret a).
Proof. intros w. exists []. split; [now rewrite app_nil_r|reflexivity]. Qed.

Lemma emits_bind {A B} (ks : list Kind) (c : M A) (k : A -> M B) :
  emits ks c -> (forall a, emits ks (k a)) -> emits ks (bind c k).
Proof.
  intros Hc Hk w. unfold bind. destruct (Hc w) as (t1 & E1 & F1).
  destruct (c w) as [a w1]. simpl in E1.
  destruct (Hk a w1) as (t2 & E2 & F2).
  exists (t1 ++ t2)%list. split.
  - now rewrite E2, E1, app_assoc.
  - now rewrite forallb_app, F1, F2.
Qed.

Lemma emits_one {A} (ks : list Kind) (c : M A) (e : World -> Event) :
  (forall w, trace (snd (c w)) = (trace w ++ [e w])%list) ->
  (forall w, has (kind_of (e w)) ks = true) ->
  emits ks c.
Proof.
  intros Ht Hk w. exists [e w]. split; [apply Ht|].
  simpl. unfold among. now rewrite Hk.
Qed.

Lemma emits_none {A} (ks : list Kind) (c : M A) :
  (forall w, trace (snd (c w)) = trace w) -> emits ks c.
Proof.
  intros Ht w. exists []. split; [now rewrite app_nil_r|reflexivity].
Qed.

Lemma emits_get_world (ks : list Kind) : emits ks get_world.
Proof. now apply emits_none. Qed.

Lemma emits_emit (ks : list Kind) (e : Event) :
  has (kind_of e) ks = true -> emits ks (emit e).
Proof. intros Hk. now apply (emits_one ks (emit e) (fun _ => e)). Qed.

Lemma emits_Log (ks : list Kind) (lvl : Level) (msg : string) :
  has KLog ks = true -> emits ks (Log lvl msg).
Proof. apply (emits_emit ks (EvLog lvl msg)). Qed.

Lemma emits_Print (ks : list Kind) (text : string) :
  has KPrint ks = true -> emits ks (Print text).
Proof. apply (emits_emit ks (EvPrint text)). Qed.

Lemma emits_Sleep (ks : list Kind) (n : Z) :
  has KSleep ks = true -> emits ks (Sleep n).
Proof. apply (emits_emit ks (EvSleep n)). Qed.

Lemma emits_stat (ks : list Kind) (path : string) :
  has KStat ks = true -> emits ks (stat_IsNotExist path).
Proof.
  intros Hk. now apply (emits_one ks _ (fun _ => EvStat path)).
Qed.

Lemma emits_home (ks : list Kind) : emits ks os_UserHomeDir.
Proof. now apply emits_none. Qed.

Lemma emits_cmd_Output (ks : list Kind) argv env :
  has KOutput ks = true -> emits ks (cmd_Output argv env).
Proof.
  intros Hk.
  apply (emits_one ks _
           (fun w => EvOutput argv env
                       (fst (fst (exec_Output argv env (host w))))
                       (snd (fst (exec_Output argv env (host w))))));
    [|intros; exact Hk].
  intros w. unfold cmd_Output. run_monad.
  now destruct (exec_Output argv env (host w)) as [[out err] h].
Qed.

Lemma emits_cmd_Run (ks : list Kind) argv env :
  has KRun ks = true -> emits ks (cmd_Run argv env).
Proof.
  intros Hk.
  apply (emits_one ks _
           (fun w => EvRun argv env (fst (exec_Run argv env (host w)))));
    [|intros; exact Hk].
  intros w. unfold cmd_Run. run_monad.
  now destruct (exec_Run argv env (host w)) as [err h].
Qed.

Lemma emits_isPortInUse (ks : list Kind) (port : Z) :
  has KListen ks = true -> emits ks (isPortInUse port).
Proof.
  intros Hk.
  apply (emits_one ks _
           (fun w => EvListen port (fst (listen_fails port (host w)))));
    [|intros; exact Hk].
  intros w. now rewrite isPortInUse_eq.
Qed.

Lemma emits_ReadString (ks : list Kind) :
  has KRead ks = true -> emits ks ReadString_stdin.
Proof.
  intros Hk.
  apply (emits_one ks _
           (fun w => match cut_line (stdin w) with
                     | Some (l, _) => EvReadStdin l None
                     | None => EvReadStdin (stdin w) (Some "EOF")
                     end)).
  - intros w. unfold ReadString_stdin. run_monad.
    now destruct (cut_line (stdin w)) as [[l rest]|].
  - intros w. now destruct (cut_line (stdin w)) as [[l rest]|].
Qed.

Lemma emits_Remove (ks : list Kind) (path : string) :
  has KRemove ks = true -> emits ks (os_Remove path).
Proof. intros Hk. now apply (emits_one ks _ (fun _ => EvRemove path)). Qed.

Lemma emits_MkdirAll (ks : list Kind) (path : string) :
  has KMkdir ks = true -> emits ks (os_MkdirAll path).
Proof.
  intros Hk. apply (emits_one ks _ (fun _ => EvMkdirAll path)); [|intros; exact Hk].
  intros w. unfold os_MkdirAll. run_monad.
  now destruct (files w path).
Qed.

Lemma emits_sql (ks : list Kind) (stmt : Sql) :
  has KSql ks = true -> emits ks (sql stmt).
Proof.
  intros Hk.
  apply (emits_one ks _
           (fun w => EvSql stmt (snd (fst (run_sql stmt (db w))))));
    [|intros; exact Hk].
  intros w. unfold sql. run_monad.
  now destruct (run_sql stmt (db w)) as [[[rs n] err] d].
Qed.

Lemma emits_CreateTemp (ks : list Kind) (pattern : string) :
  has KCreateTemp ks = true -> emits ks (CreateTemp pattern).
Proof.
  intros Hk.
  apply (emits_one ks _
           (fun w => EvCreateTemp pattern
                       (fst (fst (os_CreateTemp pattern (host w))))
                       (snd (fst (os_CreateTemp pattern (host w))))));
    [|intros; exact Hk].
  intros w. unfold CreateTemp. run_monad.
  now destruct (os_CreateTemp pattern (host w)) as [[name [e|]] h].
Qed.

Lemma emits_WriteString (ks : list Kind) (name content : string) :
  has KWrite ks = true -> emits ks (WriteString name content).
Proof.
  intros Hk.
  apply (emits_one ks _
           (fun w => EvWrite name content
                       (fst (write_fails name content (host w)))));
    [|intros; exact Hk].
  intros w. unfold WriteString. run_monad.
  now destruct (write_fails name content (host w)) as [[e|] h].
Qed.

End Emits.

#[export] Hint Resolve emits_ret emits_get_world emits_emit emits_Log emits_Print emits_Sleep
  emits_stat emits_home emits_cmd_Output emits_cmd_Run emits_isPortInUse
  emits_ReadString emits_Remove emits_MkdirAll emits_sql emits_CreateTemp
  emits_WriteString : emits.

(** Walks through a computation, as [frame] does, for [emits]. *)
Ltac footprint :=
  repeat first
    [ solve [auto with emits]
    | apply emits_bind; [|intros]
    | progress cbv zeta
    | match goal with
      | |- emits _ (match ?x with _ => _ end) => destruct x
      | |- emits _ (if ?x then _ else _) => destruct x
      | |- emits _ (let (_, _) := ?x in _) => destruct x
      end ].

Section Footprints.
Context `{Host} `{Platform}.

Lemma emits_RunDockerCompose ks args envVars :
  has KRun ks = true -> emits ks (RunDockerCompose args envVars).
Proof. intros. unfold RunDockerCompose. footprint. Qed.

Lemma emits_InstanceExists ks (instanceName : string) :
  has KOutput ks = true -> emits ks (InstanceExists instanceName).
Proof. intros. unfold InstanceExists. footprint. Qed.

Lemma emits_triple_in_use ks (a b c : Z) :
  has KListen ks = true -> emits ks (triple_in_use a b c).
Proof. intros. unfold triple_in_use, orM. footprint. Qed.

Lemma emits_find_loop ks (fuel : nat) (basePort : Z) :
  has KListen ks = true -> forall port : Z, emits ks (find_loop fuel basePort port).
Proof.
  intros Hk. induction fuel as [|fuel IH]; intros port; simpl.
  - footprint.
  - apply emits_bind; [now apply emits_triple_in_use|].
    intros [|]; [|footprint].
    destruct (int_add port port_step >? port_limit); [footprint|apply IH].
Qed.

Lemma emits_FindAvailablePortSet ks (fuel : nat) (basePort : Z) :
  has KListen ks = true -> emits ks (FindAvailablePortSet fuel basePort).
Proof. intros. unfold FindAvailablePortSet. now apply emits_find_loop. Qed.

Lemma emits_wait_loop ks (left : nat) (instanceName : string) :
  has KOutput ks = true -> has KSleep ks = true -> has KLog ks = true ->
  forall attempt maxAttempts : Z,
    emits ks (wait_loop left instanceName attempt maxAttempts).
Proof.
  intros Ho Hs Hl. induction left as [|left IH]; intros attempt maxAttempts; simpl.
  - footprint.
  - apply emits_bind; [footprint|]. intros [output [e|]].
    + apply emits_bind; [footprint|]. intros _. apply IH.
    + destruct (Contains output "Up"); [footprint|].
      apply emits_bind; [footprint|]. intros _.
      apply emits_bind; [footprint|]. intros _. apply IH.
Qed.

Lemma emits_WaitForHealthy ks (instanceName : string) (maxAttempts : Z) :
  has KOutput ks = true -> has KSleep ks = true -> has KLog ks = true ->
  emits ks (WaitForHealthy instanceName maxAttempts).
Proof.
  intros. unfold WaitForHealthy.
  apply emits_bind; [footprint|]. intros _.
  apply emits_bind; [now apply emits_wait_loop|]. intros [|]; footprint.
Qed.

Lemma emits_InitDB ks :
  has KMkdir ks = true -> has KStat ks = true -> has KLog ks = true ->
  has KSql ks = true -> emits ks InitDB.
Proof. intros. unfold InitDB. footprint. Qed.

Lemma emits_store_each ks (config : DeployConfig.t) (names : list string) :
  has KSql ks = true -> emits ks (store_each config names).
Proof.
  intros. induction names as [|c rest IH]; simpl; [footprint|].
  apply emits_bind; [footprint|]. intros [[rs n] [e|]]; [footprint|exact IH].
Qed.

Lemma emits_Store ks (config : DeployConfig.t) :
  has KMkdir ks = true -> has KStat ks = true -> has KLog ks = true ->
  has KSql ks = true -> emits ks (StoreInstanceContainers config).
Proof.
  intros. unfold StoreInstanceContainers.
  apply emits_bind; [now apply emits_InitDB|]. intros [e|]; [footprint|].
  apply emits_bind; [now apply emits_store_each|]. intros [e|]; footprint.
Qed.

Lemma emits_LoadAPIKeys ks :
  has KStat ks = true -> has KOpen ks = true -> emits ks LoadAPIKeys.
Proof. intros. unfold LoadAPIKeys. footprint. Qed.

End Footprints.

(* ================================================================= *)
(** ** Commands that only talk to docker *)

Section QuietCommands.
Context `{Host} `{Platform}.

(** X5: [stop], [start], [logs], [status] and [cleanup] do nothing but query
    docker, run docker commands and log: they read no input, prompt for
    nothing, probe no port, create, write or remove no file and run no SQL
    statement, and the files and the registry are the same afterwards. *)
Theorem docker_only_commands (instanceName service : string) :
  Forall (fun c : M error =>
            emits [KOutput; KRun; KLog] c /\ keeps files c /\ keeps db c)
    [ stopInstance instanceName; startInstance instanceName;
      showLogs instanceName service; showStatus instanceName; cleanup ].
Proof.
  pose proof (fun a e => keeps_RunDockerCompose files a e inside_only_files) as Rf.
  pose proof (fun a e => keeps_RunDockerCompose db a e inside_only_db) as Rd.
  pose proof (fun n => keeps_InstanceExists files n inside_only_files) as If.
  pose proof (fun n => keeps_InstanceExists db n inside_only_db) as Id.
  pose proof (fun a e => emits_RunDockerCompose [KOutput; KRun; KLog] a e eq_refl)
    as Re.
  pose proof (fun n => emits_InstanceExists [KOutput; KRun; KLog] n eq_refl) as Ie.
  repeat constructor;
    unfold stopInstance, startInstance, showLogs, showStatus, cleanup;
    first [ footprint; first [apply Re | apply Ie]
          | frame; first [apply Rf | apply Rd | apply If | apply Id] ].
Qed.

Lemma cmd_Run_eq argv env (w : World) :
  cmd_Run argv env w =
  (fst (exec_Run argv env (host w)),
   after w (snd (exec_Run argv env (host w)))
     [EvRun argv env (fst (exec_Run argv env (host w)))]).
Proof.
  unfold cmd_Run. run_monad.
  now destruct (exec_Run argv env (host w)) as [err h].
Qed.

Lemma cmd_Output_eq argv env (w : World) :
  cmd_Output argv env w =
  (fst (exec_Output argv env (host w)),
   after w (snd (exec_Output argv env (host w)))
     [EvOutput argv env (fst (fst (exec_Output argv env (host w))))
        (snd (fst (exec_Output argv env (host w))))]).
Proof.
  unfold cmd_Output. run_monad.
  now destruct (exec_Output argv env (host w)) as [[out err] h].
Qed.

(** The docker commands run so far, with their outcome. *)
Definition runs (t : list Event) : list (list string * error) :=
  flat_map (fun e => match e with
                     | EvRun argv _ err => [(argv, err)]
                     | _ => []
                     end) t.

(** X6: [cleanup] never fails and always runs both prune commands, the second
    one also when the first one failed. *)
Theorem cleanup_never_fails (w : World) :
  fst (cleanup w) = None /\
  exists (t : list Event) (e1 e2 : error),
    trace (snd (cleanup w)) = (trace w ++ t)%list /\
    runs t = [ (["docker-compose"; "container"; "prune"; "-f"], e1);
               (["docker-compose"; "volume"; "prune"; "-f"], e2) ].
Proof.
  unfold cleanup, RunDockerCompose, cmd_Run. run_monad.
  destruct (exec_Run ["docker-compose"; "container"; "prune"; "-f"] [] (host w))
    as [[m1|] h1]; simpl;
    match goal with
    | |- context [exec_Run ?a ?b ?h] => destruct (exec_Run a b h) as [[m2|] h2]
    end;
    simpl; (split; [reflexivity|]);
    eexists _, _, _; rewrite <- ?app_assoc; (split; reflexivity).
Qed.

End QuietCommands.

(* ================================================================= *)
(** ** The health probe *)

(** Seconds slept and queries made in a stretch of the trace. *)
Definition slept (t : list Event) : Z :=
  fold_right (fun e acc => match e with EvSleep n => n + acc | _ => acc end) 0 t.

Definition queries (t : list Event) : nat :=
  List.length (filter (fun e => Kind_eqb (kind_of e) KOutput) t).

Section HealthProbe.
Context `{Host} `{Platform}.

Lemma slept_app (a b : list Event) : slept (a ++ b) = slept a + slept b.
Proof.
  induction a as [|e a IH]; simpl; auto. destruct e; rewrite ?IH; lia.
Qed.

Lemma queries_app (a b : list Event) :
  queries (a ++ b) = (queries a + queries b)%nat.
Proof. unfold queries. now rewrite filter_app, length_app. Qed.

Lemma wait_loop_step (instanceName : string) (left : nat)
  (attempt maxAttempts : Z) (w : World) :
  wait_loop (S left) instanceName attempt maxAttempts w =
  (let '(output, err, h) :=
     exec_Output ["docker-compose"; "ps"]
       [("COMPOSE_PROJECT_NAME", instanceName)] (host w) in
   let q := EvOutput ["docker-compose"; "ps"]
              [("COMPOSE_PROJECT_NAME", instanceName)] output err in
   match err with
   | Some _ =>
       wait_loop left instanceName (int_add attempt 1) maxAttempts
         (after w h [q; EvSleep 5])
   | None =>
       if Contains output "Up" then (true, after w h [q])
       else
         wait_loop left instanceName (int_add attempt 1) maxAttempts
           (after w h
              [q; EvSleep 5;
               EvLog Info (Sprintf "Waiting for health checks... (%d/%d)"
                             [AInt (int_add attempt 1); AInt maxAttempts])])
   end).
Proof.
  simpl. unfold bind at 1. rewrite cmd_Output_eq.
  destruct (exec_Output ["docker-compose"; "ps"]
              [("COMPOSE_PROJECT_NAME", instanceName)] (host w))
    as [[output [e|]] h]; cbn [fst snd].
  - unfold bind, Sleep, emit. cbn [fst snd]. f_equal.
    unfold after. simpl. now rewrite <- app_assoc.
  - destruct (Contains output "Up"); [reflexivity|].
    unfold bind, Sleep, Log, emit. cbn [fst snd]. f_equal.
    unfold after. simpl. now rewrite <- !app_assoc.
Qed.

Lemma wait_loop_bound (instanceName : string) (left : nat) :
  forall (attempt maxAttempts : Z) (w : World),
    exists t : list Event,
      trace (snd (wait_loop left instanceName attempt maxAttempts w))
        = (trace w ++ t)%list /\
      (queries t <= left)%nat /\
      0 <= slept t <= 5 * Z.of_nat (queries t) /\
      (fst (wait_loop left instanceName attempt maxAttempts w) = false ->
       queries t = left /\ slept t = 5 * Z.of_nat left).
Proof.
  induction left as [|left IH]; intros attempt maxAttempts w.
  - exists []. cbn [wait_loop ret fst snd]. rewrite app_nil_r.
    change (queries []) with 0%nat. change (slept []) with 0.
    repeat split; auto; lia.
  - rewrite wait_loop_step.
    destruct (exec_Output ["docker-compose"; "ps"]
                [("COMPOSE_PROJECT_NAME", instanceName)] (host w))
      as [[output err] h].
    cbv zeta. set (q := EvOutput _ _ output err).
    destruct err as [e|]; [|destruct (Contains output "Up") eqn:Eup].
    + match goal with
      | |- context [wait_loop left instanceName ?a ?m ?w1] =>
          destruct (IH a m w1) as (t & Ht & Hq & Hs & Hf)
      end.
      exists ([q; EvSleep 5] ++ t)%list.
      rewrite Ht. cbn [trace after]. rewrite <- !app_assoc.
      rewrite queries_app, slept_app.
      change (queries [q; EvSleep 5]) with 1%nat.
      change (slept [q; EvSleep 5]) with 5.
      split; [reflexivity|]. split; [lia|]. split; [lia|].
      intros Hno. destruct (Hf Hno). lia.
    + exists [q]. cbn [fst snd trace after].
      change (queries [q]) with 1%nat. change (slept [q]) with 0.
      split; [reflexivity|]. split; [lia|]. split; [lia|]. discriminate.
    + match goal with
      | |- context [wait_loop left instanceName ?a ?m ?w1] =>
          destruct (IH a m w1) as (t & Ht & Hq & Hs & Hf)
      end.
      match goal with
      | |- context [EvLog Info ?msg] => set (l := EvLog Info msg) in *
      end.
      exists ([q; EvSleep 5; l] ++ t)%list.
      rewrite Ht. cbn [trace after]. rewrite <- !app_assoc.
      rewrite queries_app, slept_app.
      change (queries [q; EvSleep 5; l]) with 1%nat.
      change (slept [q; EvSleep 5; l]) with 5.
      split; [reflexivity|]. split; [lia|]. split; [lia|].
      intros Hno. destruct (Hf Hno). lia.
Qed.

Lemma WaitForHealthy_eq (instanceName : string) (maxAttempts : Z) (w : World) :
  WaitForHealthy instanceName maxAttempts w =
  (let r := wait_loop (Z.to_nat maxAttempts) instanceName 0 maxAttempts
              (after w (host w) [EvLog Info "Waiting for services to be healthy..."]) in
   if fst r then (None, snd r)
   else (None,
         after (snd r) (host (snd r))
           [EvLog Warning
              "Not all services became healthy within timeout, but continuing..."])).
Proof.
  unfold WaitForHealthy, bind at 1, Log at 1, emit at 1. cbn [fst snd].
  unfold bind at 1. cbv zeta.
  match goal with
  | |- context [wait_loop ?n instanceName ?a ?m ?w1] =>
      change w1 with (after w (host w) [EvLog Info "Waiting for services to be healthy..."]);
      destruct (wait_loop n instanceName a m
                  (after w (host w) [EvLog Info "Waiting for services to be healthy..."]))
        as [[|] w2]
  end; reflexivity.
Qed.

(** X7: [WaitForHealthy] never returns an error, asks docker-compose at most
    [maxAttempts] times and sleeps five seconds at most once per question:
    the wait is bounded by [5 * maxAttempts] seconds (none at all for a
    count that is zero or negative). *)
Theorem WaitForHealthy_bounded (instanceName : string) (maxAttempts : Z)
  (w : World) :
  fst (WaitForHealthy instanceName maxAttempts w) = None /\
  exists t : list Event,
    trace (snd (WaitForHealthy instanceName maxAttempts w)) = (trace w ++ t)%list /\
    (queries t <= Z.to_nat maxAttempts)%nat /\
    0 <= slept t <= 5 * Z.of_nat (queries t) /\
    slept t <= 5 * Z.max 0 maxAttempts.
Proof.
  rewrite WaitForHealthy_eq. cbv zeta.
  set (l := EvLog Info "Waiting for services to be healthy...").
  destruct (wait_loop_bound instanceName (Z.to_nat maxAttempts) 0 maxAttempts
              (after w (host w) [l])) as (t & Ht & Hq & Hs & _).
  destruct (wait_loop (Z.to_nat maxAttempts) instanceName 0 maxAttempts
              (after w (host w) [l])) as [healthy w2].
  cbn [fst snd trace after] in *.
  assert (Hmax : 5 * Z.of_nat (queries t) <= 5 * Z.max 0 maxAttempts) by lia.
  destruct healthy; cbn [fst snd]; (split; [reflexivity|]).
  - exists ([l] ++ t)%list. rewrite Ht, <- app_assoc. split; [reflexivity|].
    rewrite queries_app, slept_app.
    change (queries [l]) with 0%nat. change (slept [l]) with 0.
    repeat split; lia.
  - set (x := EvLog Warning _).
    exists ([l] ++ t ++ [x])%list. cbn [trace after].
    rewrite Ht, <- !app_assoc. split; [reflexivity|].
    rewrite !queries_app, !slept_app.
    change (queries [l]) with 0%nat. change (slept [l]) with 0.
    change (queries [x]) with 0%nat. change (slept [x]) with 0.
    repeat split; lia.
Qed.

End HealthProbe.

(** On the quiet machine docker-compose never reports a container as up:
    a probe of three attempts asks three times and sleeps fifteen seconds. *)
Example probe_of_three_attempts :
  let t := trace (snd (WaitForHealthy "graphsense-repo" 3 idle)) in
  (fst (WaitForHealthy "graphsense-repo" 3 idle), queries t, slept t)
  = (None, 3%nat, 15).
Proof. vm_compute. reflexivity. Qed.

(* ================================================================= *)
(** ** A confirmed removal, and a deployment that is refused *)

Section Removal.
Context `{Host} `{Platform}.

Definition down_cmd : list string :=
  ["docker-compose"; "down"; "-v"; "--remove-orphans"].

Definition sweep_list_cmd (instanceName : string) : list string :=
  ["docker-compose"; "ps"; "-a"; "--filter"; project_label instanceName; "-q"].

Definition sweep_rm_cmd : list string := ["docker-compose"; "rm"; "-f"].

Definition volume_cmd (instanceName : string) : list string :=
  ["docker-compose"; "volume"; "ls"; "-q"; "|"; "grep";
   Sprintf "^%s_" [AStr instanceName];
   "|"; "xargs"; "-r"; "docker"; "volume"; "rm"].

(** X8: Once the operator has confirmed, [removeInstance] cannot fail any more:
    it returns [nil] whatever docker-compose answers. It runs [down] first;
    the listing of the manual sweep follows only when [down] failed, and the
    forced removal only when that listing succeeded; the volume command
    comes last in every case, and its outcome is ignored too. *)
Theorem remove_confirmed_runs (instanceName line rest : string) (w : World) :
  fst (InstanceExists instanceName w) = true ->
  cut_line (stdin w) = Some (line, rest) ->
  confirmed line = true ->
  fst (removeInstance instanceName w) = None /\
  exists t : list Event,
    trace (snd (removeInstance instanceName w)) = (trace w ++ t)%list /\
    ((exists e, runs t = [(down_cmd, None); (volume_cmd instanceName, e)]) \/
     (exists m m' e,
        runs t = [(down_cmd, Some m); (sweep_list_cmd instanceName, Some m');
                  (volume_cmd instanceName, e)]) \/
     (exists m e e',
        runs t = [(down_cmd, Some m); (sweep_list_cmd instanceName, None);
                  (sweep_rm_cmd, e); (volume_cmd instanceName, e')])).
Proof.
  intros Hfound Hline Hyes.
  destruct (removeInstance instanceName w) as [r w'] eqn:E. cbn [fst snd].
  unfold removeInstance in E.
  unfold bind at 1 in E. rewrite InstanceExists_eq in *. cbn [fst snd] in *.
  rewrite Hfound in E. cbn [negb] in E. cbv iota in E.
  unfold bind at 1, Log at 1, emit at 1 in E. cbn [fst snd] in E.
  unfold bind at 1, Print at 1, emit at 1 in E. cbn [fst snd] in E.
  unfold bind at 1 in E.
  erewrite ReadString_line in E by (cbn [stdin after]; exact Hline).
  cbv iota beta in E. rewrite Hyes in E. cbn [negb] in E. cbv iota in E.
  unfold RunDockerCompose, cmd_Run in E. run_monad. revert E. run_monad.
  repeat match goal with
  | |- context [exec_Run ?a ?b ?h] =>
      let e := fresh "e" in let h' := fresh "h" in
      destruct (exec_Run a b h) as [[e|] h']; simpl
  end;
  intros E; injection E as <- <-;
  (split; [reflexivity|]);
  eexists; cbn [trace]; rewrite <- ?app_assoc; (split; [reflexivity|]); simpl;
  first [ left; eexists; reflexivity
        | right; left; eexists _, _, _; reflexivity
        | right; right; eexists _, _, _; reflexivity ].
Qed.

(** X9: When the name is already taken, [deployInstance] stops with the
    precondition error right after the existence query: it has looked at the
    repository path, logged one line and asked docker, and nothing else; no
    port was probed, no file created, no container started, no row stored. *)
Theorem deploy_existing_refused (fuel : nat) (repoPath instanceName : string)
  (basePort : Z) (w : World) (absRepoPath : string) :
  files w repoPath <> Absent ->
  filepath_Abs repoPath = (absRepoPath, None) ->
  snd (query_result (deploy_name absRepoPath instanceName) w) = None ->
  TrimSpace (fst (query_result (deploy_name absRepoPath instanceName) w)) <> "" ->
  deployInstance fuel repoPath instanceName basePort w =
    (Some (Errorf "instance '%s' already exists. Use 'remove' command first"
             [AStr (deploy_name absRepoPath instanceName)]),
     after w
       (snd (exec_Output (exists_query (deploy_name absRepoPath instanceName)) []
               (host w)))
       [ EvStat repoPath;
         EvLog Info (Sprintf "Deploying instance: %s for repository: %s"
                       [AStr (deploy_name absRepoPath instanceName);
                        AStr absRepoPath]);
         EvOutput (exists_query (deploy_name absRepoPath instanceName)) []
           (fst (query_result (deploy_name absRepoPath instanceName) w)) None ]).
Proof.
  intros Hrepo Habs Hok Hnames. unfold deployInstance.
  unfold bind at 1. rewrite stat_IsNotExist_eq.
  assert (Hstat : match files w repoPath with Absent => true | _ => false end = false)
    by (destruct (files w repoPath); congruence).
  rewrite Hstat, Habs.
  unfold bind at 1, Log at 1, emit at 1. cbn [fst snd].
  unfold bind at 1. rewrite InstanceExists_eq.
  unfold query_result in *. cbn [host after] in *. rewrite Hok.
  apply String.eqb_neq in Hnames. rewrite Hnames. cbn [negb].
  unfold ret, after. cbn [host home files db stdin trace].
  rewrite <- !app_assoc. reflexivity.
Qed.

End Removal.

(** The operator confirms; [down] fails on this machine, so does the listing
    of the sweep. *)
Lemma remove_confirmed_runs_witness :
  fst (removeInstance "graphsense-repo" (deployed ("yes" ++ nl) false)) = None /\
  exists t : list Event,
    trace (snd (removeInstance "graphsense-repo" (deployed ("yes" ++ nl) false)))
      = (trace (deployed ("yes" ++ nl) false) ++ t)%list /\
    ((exists e, runs t = [(down_cmd, None); (volume_cmd "graphsense-repo", e)]) \/
     (exists m m' e,
        runs t = [(down_cmd, Some m); (sweep_list_cmd "graphsense-repo", Some m');
                  (volume_cmd "graphsense-repo", e)]) \/
     (exists m e e',
        runs t = [(down_cmd, Some m); (sweep_list_cmd "graphsense-repo", None);
                  (sweep_rm_cmd, e); (volume_cmd "graphsense-repo", e')])).
Proof.
  apply (remove_confirmed_runs "graphsense-repo" ("yes" ++ nl) ""
           (deployed ("yes" ++ nl) false)); reflexivity.
Defined.

(** A machine where the sample instance is up and its repository is on
    disk. *)
Definition redeploy : World :=
  Demo.world {| Demo.busy := [8080; 8180; 8280]; Demo.daemon_up := true;
                Demo.ps_names := "graphsense-repo-app" ++ nl;
                Demo.compose_ok := true |}
             [("/srv/repo", Dir)] (db registered) "".

Lemma deploy_existing_refused_witness :
  deployInstance 1 "/srv/repo" "" 0 redeploy =
    (Some (Some "instance 'graphsense-repo' already exists. Use 'remove' command first"),
     after redeploy (host redeploy)
       [ EvStat "/srv/repo";
         EvLog Info "Deploying instance: graphsense-repo for repository: /srv/repo";
         EvOutput (exists_query "graphsense-repo") []
           ("graphsense-repo-app" ++ nl) None ]).
Proof.
  apply (deploy_existing_refused 1 "/srv/repo" "" 0 redeploy "/srv/repo").
  - discriminate.
  - reflexivity.
  - reflexivity.
  - vm_compute. discriminate.
Defined.

(* ================================================================= *)
(** ** Temporary files of a deployment *)

#[export] Hint Resolve emits_RunDockerCompose emits_InstanceExists
  emits_FindAvailablePortSet emits_WaitForHealthy emits_InitDB emits_Store
  emits_LoadAPIKeys : emits.

(** Every kind of event but the writing of a file. *)
Definition nowrite : list Kind :=
  [KStat; KOpen; KMkdir; KListen; KOutput; KRun; KCreateTemp; KRemove; KRead;
   KPrint; KLog; KSleep; KSql].

(** If [e] is a write that succeeded, the file it wrote is gone in [w']. *)
Definition covered `{Host} (w' : World) (e : Event) : Prop :=
  forall f content : string, e = EvWrite f content None -> files w' f = Absent.

(** Whatever [c] wrote is gone when [c] returns. *)
Definition tidy `{Host} {A} (c : M A) : Prop :=
  forall w : World,
    exists t : list Event,
      trace (snd (c w)) = (trace w ++ t)%list /\
      Forall (covered (snd (c w))) t.

(** The same, and the file [f] is gone as well. *)
Definition tidy_after `{Host} {A} (f : string) (c : M A) : Prop :=
  forall w : World,
    exists t : list Event,
      trace (snd (c w)) = (trace w ++ t)%list /\
      Forall (covered (snd (c w))) t /\
      files (snd (c w)) f = Absent.

(** The body shared by [CreateTempEnvFile] and [CreateComposeOverride]. *)
Definition create_file `{Host} (pattern content : string) : M (string * error) :=
  '(tmpFile, err) <- CreateTemp pattern ;;
  match err with
  | Some e => ret ("", Some e)
  | None =>
      err <- WriteString tmpFile content ;;
      match err with
      | Some e => ret ("", Some e)
      | None => ret (tmpFile, None)
      end
  end.

Section Tidy.
Context `{Host} `{Platform}.

Lemma CreateTempEnvFile_is (config : DeployConfig.t) :
  CreateTempEnvFile config = create_file "graphsense-env-*.env" (env_content config).
Proof. reflexivity. Qed.

Lemma CreateComposeOverride_is (config : DeployConfig.t) :
  CreateComposeOverride config
  = create_file "graphsense-compose-*.yml" (compose_content config).
Proof. reflexivity. Qed.

Lemma nowrite_covered (w' : World) (t : list Event) :
  forallb (among nowrite) t = true -> Forall (covered w') t.
Proof.
  intros Ht. apply Forall_forall. intros e He f content ->.
  rewrite forallb_forall in Ht. specialize (Ht _ He). discriminate.
Qed.

Lemma tidy_quiet {A} (c : M A) : emits nowrite c -> tidy c.
Proof.
  intros Hc w. destruct (Hc w) as (t & E & F). exists t.
  split; [exact E|now apply nowrite_covered].
Qed.

Lemma tidy_bind_quiet {A B} (c : M A) (k : A -> M B) :
  emits nowrite c -> (forall a, tidy (k a)) -> tidy (bind c k).
Proof.
  intros Hc Hk w. unfold bind. destruct (Hc w) as (t1 & E1 & F1).
  destruct (c w) as [a w1]. cbn [snd] in E1.
  destruct (Hk a w1) as (t2 & E2 & F2).
  exists (t1 ++ t2)%list. split; [now rewrite E2, E1, app_assoc|].
  apply Forall_app. split; [now apply nowrite_covered|exact F2].
Qed.

Lemma tidy_after_tidy {A} (f : string) (c : M A) : tidy_after f c -> tidy c.
Proof. intros Hc w. destruct (Hc w) as (t & E & F & _). now exists t. Qed.

(** A body followed by the deferred [os.Remove] of [f]. *)
Lemma tidy_after_scoped {A B} (f : string) (body : M A) (g : A -> B) :
  tidy body ->
  tidy_after f (r <- body ;; os_Remove f ;;; ret (g r)).
Proof.
  intros Hb w. destruct (Hb w) as (t & E & F).
  assert (Eq : (r <- body ;; os_Remove f ;;; ret (g r)) w =
               (g (fst (body w)),
                {| host := host (snd (body w)); home := home (snd (body w));
                   files := update (files (snd (body w))) f Absent;
                   db := db (snd (body w)); stdin := stdin (snd (body w));
                   trace := trace (snd (body w)) ++ [EvRemove f] |})).
  { unfold os_Remove, bind, emit, get_world, set_files, ret.
    destruct (body w) as [r wb]. reflexivity. }
  rewrite Eq. cbn [snd trace files].
  exists (t ++ [EvRemove f])%list.
  split; [now rewrite E, app_assoc|]. split.
  - apply Forall_app. split.
    + eapply Forall_impl; [|exact F]. intros e He g' content Heq.
      cbn [files]. unfold update. destruct (String.eqb g' f); auto.
      now apply (He g' content).
    + constructor; [|constructor]. intros g' content Heq. discriminate.
  - unfold update. now rewrite String.eqb_refl.
Qed.

Lemma tidy_bind_create {B} (pattern content : string)
  (k : string * error -> M B) :
  (forall e, tidy (k ("", Some e))) ->
  (forall name, tidy_after name (k (name, None))) ->
  tidy (bind (create_file pattern content) k).
Proof.
  intros Herr Hok w.
  unfold create_file, CreateTemp, WriteString.
  unfold bind, get_world, set_host, set_files, emit, ret. cbn [fst snd].
  destruct (os_CreateTemp pattern (host w)) as [[name [e|]] h1];
    cbn [fst snd host home files db stdin trace].
  - match goal with
    | |- context [k ("", Some e) ?w1] =>
        destruct (Herr e w1) as (t & E & F); cbn [trace] in E;
        exists ([EvCreateTemp pattern name (Some e)] ++ t)%list
    end.
    split; [now rewrite E, app_assoc|].
    apply Forall_app. split; [|exact F].
    constructor; [|constructor]. intros f c Heq. discriminate.
  - destruct (write_fails name content h1) as [[e|] h2];
      cbn [fst snd host home files db stdin trace].
    + match goal with
      | |- context [k ("", Some e) ?w1] =>
          destruct (Herr e w1) as (t & E & F); cbn [trace] in E;
          exists ([EvCreateTemp pattern name None;
                   EvWrite name content (Some e)] ++ t)%list
      end.
      split; [rewrite E, <- !app_assoc; reflexivity|].
      apply Forall_app. split; [|exact F].
      repeat constructor; intros f c Heq; discriminate.
    + match goal with
      | |- context [k (name, None) ?w1] =>
          destruct (Hok name w1) as (t & E & F & Hgone); cbn [trace] in E;
          exists ([EvCreateTemp pattern name None;
                   EvWrite name content None] ++ t)%list
      end.
      split; [rewrite E, <- !app_assoc; reflexivity|].
      apply Forall_app. split; [|exact F].
      constructor; [intros f c Heq; discriminate|].
      constructor; [|constructor].
      intros f c Heq. injection Heq as <- _. exact Hgone.
Qed.

Lemma deployInstance_tidy (fuel : nat) (repoPath instanceName : string)
  (basePort : Z) :
  tidy (deployInstance fuel repoPath instanceName basePort).
Proof.
  unfold deployInstance.
  apply tidy_bind_quiet; [footprint|]. intros [|]; [apply tidy_quiet; footprint|].
  destruct (filepath_Abs repoPath) as [absRepoPath [e|]];
    [apply tidy_quiet; footprint|].
  apply tidy_bind_quiet; [footprint|]. intros _.
  apply tidy_bind_quiet; [footprint|]. intros [|]; [apply tidy_quiet; footprint|].
  apply tidy_bind_quiet; [footprint|].
  intros [[appPort [e|]]|];
    [apply tidy_quiet; footprint | | apply tidy_quiet; footprint].
  apply tidy_bind_quiet; [footprint|].
  intros [[coAPIKey anthropicAPIKey] [e|]]; [apply tidy_quiet; footprint|].
  rewrite CreateTempEnvFile_is. apply tidy_bind_create.
  - intros e. apply tidy_quiet. footprint.
  - intros envFile. cbv iota beta.
    apply tidy_after_scoped.
    rewrite CreateComposeOverride_is. apply tidy_bind_create.
    + intros e. apply tidy_quiet. footprint.
    + intros composeOverride. cbv iota beta.
      apply (tidy_after_scoped composeOverride _ (fun r : error => r)).
      apply tidy_quiet. footprint.
Qed.

(** X10: Every file that a run of [deployInstance] wrote is removed again
    before it returns, on every path: after an error of docker-compose as
    well as after a success. (A file whose writing failed is not meant
    here: it stays on disk.) *)
Theorem deploy_removes_what_it_wrote (fuel : nat) (repoPath instanceName : string)
  (basePort : Z) (w : World) :
  exists t : list Event,
    trace (snd (deployInstance fuel repoPath instanceName basePort w))
      = (trace w ++ t)%list /\
    forall f content : string,
      In (EvWrite f content None) t ->
      files (snd (deployInstance fuel repoPath instanceName basePort w)) f = Absent.
Proof.
  destruct (deployInstance_tidy fuel repoPath instanceName basePort w)
    as (t & E & F).
  exists t. split; [exact E|]. intros f content Hin.
  rewrite Forall_forall in F. now apply (F _ Hin f content).
Qed.

(** X11: When the temporary file is created but cannot be written,
    [CreateTempEnvFile] returns the error with an empty name, and the file
    it created stays on disk, empty: the caller has no name to remove. *)
Theorem env_file_left_behind (config : DeployConfig.t) (w : World)
  (name e : string) (h1 h2 : HostState) :
  os_CreateTemp "graphsense-env-*.env" (host w) = (name, None, h1) ->
  write_fails name (env_content config) h1 = (Some e, h2) ->
  fst (CreateTempEnvFile config w) = ("", Some e) /\
  files (snd (CreateTempEnvFile config w)) name = File "".
Proof.
  intros Hcreate Hwrite.
  unfold CreateTempEnvFile, CreateTemp, WriteString.
  unfold bind, get_world, set_host, set_files, emit, ret. cbn [fst snd].
  rewrite Hcreate. cbn [fst snd host home files db stdin trace].
  rewrite Hwrite. cbn [fst snd files].
  split; [reflexivity|]. unfold update. now rewrite String.eqb_refl.
Qed.

End Tidy.

Example deploy_leaves_no_temp_file :
  let w' := snd (deployInstance 1 "/srv/repo" "" 0 (ready (File one_key))) in
  (files w' "/tmp/graphsense-env-*.env", files w' "/tmp/graphsense-compose-*.yml")
  = (Absent, Absent).
Proof. vm_compute. reflexivity. Qed.

(** A machine whose disk is full: temporary files can be created but not
    written. *)
Definition full_disk : Host := {|
  HostState := unit;
  listen_fails p h := (false, h);
  exec_Output argv env h := ("", None, h);
  exec_Run argv env h := (None, h);
  os_CreateTemp pattern h := ("/tmp/" ++ pattern, None, h);
  write_fails name content h := (Some "no space left on device", h)
|}.

Definition on_full_disk : @World full_disk :=
  @Build_World full_disk tt ("/home/op", None) (fun _ => Absent)
    Demo.fresh_db "" [].

Lemma env_file_left_behind_witness :
  fst (@CreateTempEnvFile full_disk Demo.config on_full_disk)
    = ("", Some "no space left on device") /\
  @files full_disk (snd (@CreateTempEnvFile full_disk Demo.config on_full_disk))
    "/tmp/graphsense-env-*.env" = File "".
Proof.
  apply (@env_file_left_behind full_disk Demo.config on_full_disk
           "/tmp/graphsense-env-*.env" "no space left on device" tt tt);
    reflexivity.
Defined.

(* ================================================================= *)
(** ** When a deployment succeeds *)

(** A docker command that exited with status 0. *)
Definition run_ok (e : Event) : bool :=
  match e with EvRun _ _ None => true | _ => false end.

(** Every kind of event but the running of a command and SQL. *)
Definition norun : list Kind :=
  [KStat; KOpen; KMkdir; KListen; KOutput; KCreateTemp; KWrite; KRemove; KRead;
   KPrint; KLog; KSleep].

(** [c] reports success, in the sense of [ok], exactly when a command it
    ran succeeded, and runs SQL only in that case. *)
Definition succeeds_on_run `{Host} {A} (ok : A -> bool) (c : M A) : Prop :=
  forall w : World,
    exists t : list Event,
      trace (snd (c w)) = (trace w ++ t)%list /\
      existsb run_ok t = ok (fst (c w)) /\
      (existsb is_sql t = true -> ok (fst (c w)) = true).

Definition is_nil (r : error) : bool :=
  match r with None => true | Some _ => false end.

Definition returned_nil (r : option error) : bool :=
  match r with Some None => true | _ => false end.

Section Success.
Context `{Host} `{Platform}.

Lemma norun_quiet (t : list Event) :
  forallb (among norun) t = true ->
  existsb run_ok t = false /\ existsb is_sql t = false.
Proof.
  induction t as [|e t IH]; simpl; auto.
  rewrite andb_true_iff. intros [He Ht]. destruct (IH Ht) as [-> ->].
  destruct e; try discriminate He; auto.
Qed.

Lemma succeeds_ret {A} (ok : A -> bool) (a : A) :
  ok a = false -> succeeds_on_run ok (ret a).
Proof.
  intros Ha w. exists []. cbn [ret fst snd]. rewrite app_nil_r, Ha.
  repeat split. discriminate.
Qed.

Lemma succeeds_bind_quiet {A B} (ok : B -> bool) (c : M A) (k : A -> M B) :
  emits norun c -> (forall a, succeeds_on_run ok (k a)) ->
  succeeds_on_run ok (bind c k).
Proof.
  intros Hc Hk w. unfold bind. destruct (Hc w) as (t1 & E1 & F1).
  destruct (c w) as [a w1]. cbn [snd] in E1.
  destruct (Hk a w1) as (t2 & E2 & R2 & S2).
  destruct (norun_quiet t1 F1) as [Q1 Q2].
  exists (t1 ++ t2)%list. rewrite !existsb_app, Q1, Q2. cbn [orb].
  split; [now rewrite E2, E1, app_assoc|]. now split.
Qed.

Lemma succeeds_scoped {A B} (ok : A -> bool) (ok' : B -> bool) (f : string)
  (body : M A) (g : A -> B) :
  (forall r, ok' (g r) = ok r) ->
  succeeds_on_run ok body ->
  succeeds_on_run ok' (r <- body ;; os_Remove f ;;; ret (g r)).
Proof.
  intros Hg Hb w. destruct (Hb w) as (t & E & R & S).
  assert (Eq : (r <- body ;; os_Remove f ;;; ret (g r)) w =
               (g (fst (body w)),
                {| host := host (snd (body w)); home := home (snd (body w));
                   files := update (files (snd (body w))) f Absent;
                   db := db (snd (body w)); stdin := stdin (snd (body w));
                   trace := trace (snd (body w)) ++ [EvRemove f] |})).
  { unfold os_Remove, bind, emit, get_world, set_files, ret.
    destruct (body w) as [r wb]. reflexivity. }
  rewrite Eq. cbn [fst snd trace]. exists (t ++ [EvRemove f])%list.
  rewrite !existsb_app, Hg. cbn [existsb run_ok is_sql]. rewrite !orb_false_r.
  split; [now rewrite E, app_assoc|]. now split.
Qed.

(** A computation that always returns [nil]. *)
Definition always_nil (c : M error) : Prop := forall w, fst (c w) = None.

Lemma always_nil_bind {A} (c : M A) (k : A -> M error) :
  (forall a, always_nil (k a)) -> always_nil (bind c k).
Proof. intros Hk w. unfold bind. destruct (c w) as [a w1]. apply Hk. Qed.

Lemma always_nil_ret : always_nil (ret None).
Proof. intros w. reflexivity. Qed.

(** A docker-compose command whose failure is returned and whose success
    leads to [rest], which cannot fail and runs no further command. *)
Lemma succeeds_run_then (args : list string) (envVars : list (string * string))
  (failure : string -> error) (rest : M error) :
  (forall e, is_nil (failure e) = false) ->
  always_nil rest ->
  emits [KStat; KMkdir; KOutput; KLog; KSleep; KSql] rest ->
  succeeds_on_run is_nil
    (err <- RunDockerCompose args envVars ;;
     match err with
     | Some e => ret (failure e)
     | None => rest
     end).
Proof.
  intros Hfail Hnil Hrest w.
  assert (Eq : (err <- RunDockerCompose args envVars ;;
                match err with
                | Some e => ret (failure e)
                | None => rest
                end) w =
               match fst (exec_Run ("docker-compose" :: args) envVars (host w)) with
               | Some e =>
                   (failure e,
                    after w (snd (exec_Run ("docker-compose" :: args) envVars (host w)))
                      [EvRun ("docker-compose" :: args) envVars (Some e)])
               | None =>
                   rest (after w (snd (exec_Run ("docker-compose" :: args) envVars
                                         (host w)))
                           [EvRun ("docker-compose" :: args) envVars None])
               end).
  { unfold RunDockerCompose, bind. rewrite cmd_Run_eq.
    destruct (exec_Run ("docker-compose" :: args) envVars (host w)) as [[e|] h];
      reflexivity. }
  rewrite Eq.
  destruct (exec_Run ("docker-compose" :: args) envVars (host w)) as [[e|] h];
    cbn [fst snd].
  - exists [EvRun ("docker-compose" :: args) envVars (Some e)].
    cbn [trace after existsb run_ok is_sql orb].
    rewrite Hfail. split; [reflexivity|]. split; [reflexivity|discriminate].
  - set (w1 := after w h _).
    destruct (Hrest w1) as (t & E & F). rewrite Hnil.
    exists (EvRun ("docker-compose" :: args) envVars None :: t).
    split; [rewrite E; unfold w1; cbn [trace after];
            now rewrite <- app_assoc|].
    split; reflexivity.
Qed.

Lemma deployInstance_succeeds (fuel : nat) (repoPath instanceName : string)
  (basePort : Z) :
  succeeds_on_run returned_nil
    (deployInstance fuel repoPath instanceName basePort).
Proof.
  unfold deployInstance.
  apply succeeds_bind_quiet; [footprint|].
  intros [|]; [now apply succeeds_ret|].
  destruct (filepath_Abs repoPath) as [absRepoPath [e|]];
    [now apply succeeds_ret|].
  apply succeeds_bind_quiet; [footprint|]. intros _.
  apply succeeds_bind_quiet; [footprint|].
  intros [|]; [now apply succeeds_ret|].
  apply succeeds_bind_quiet; [footprint|].
  intros [[appPort [e|]]|]; [now apply succeeds_ret | | now apply succeeds_ret].
  apply succeeds_bind_quiet; [footprint|].
  intros [[coAPIKey anthropicAPIKey] [e|]]; [now apply succeeds_ret|].
  apply succeeds_bind_quiet; [unfold CreateTempEnvFile; footprint|].
  intros [envFile [e|]]; [now apply succeeds_ret|].
  apply (succeeds_scoped is_nil returned_nil envFile _ (fun r => Some r));
    [reflexivity|].
  apply succeeds_bind_quiet; [unfold CreateComposeOverride; footprint|].
  intros [composeOverride [e|]]; [now apply succeeds_ret|].
  apply (succeeds_scoped is_nil is_nil composeOverride _ (fun r => r));
    [reflexivity|].
  apply succeeds_bind_quiet; [footprint|]. intros _.
  apply succeeds_bind_quiet; [footprint|].
  intros [homeDir [e|]]; [now apply succeeds_ret|].
  apply succeeds_bind_quiet; [footprint|].
  intros [|]; [now apply succeeds_ret|].
  apply (succeeds_run_then _ _
           (fun e => Errorf "failed to deploy instance %s: %v"
                       [AStr (deploy_name absRepoPath instanceName); AStr e])).
  - reflexivity.
  - repeat (apply always_nil_bind; intros). apply always_nil_ret.
  - footprint.
Qed.

Lemma returned_nil_iff (r : option error) :
  returned_nil r = true <-> r = Some None.
Proof.
  destruct r as [[e|]|]; simpl; split; intros E; try discriminate; reflexivity.
Qed.

Lemma run_ok_iff (t : list Event) :
  existsb run_ok t = true <-> exists argv env, In (EvRun argv env None) t.
Proof.
  rewrite existsb_exists. split.
  - intros (e & Hin & He). destruct e; try discriminate He.
    destruct err; try discriminate He. now exists argv, env.
  - intros (argv & env & Hin). now exists (EvRun argv env None).
Qed.

(** X12: [deployInstance] returns [nil] exactly when a docker command it ran
    exited with status 0 (the only one it runs is [docker-compose up]): an
    unhealthy stack and a registry that cannot be written never turn that
    into an error, and nothing else makes a success. SQL statements are run
    only by a deployment that returns [nil]. *)
Theorem deploy_succeeds_iff_up (fuel : nat) (repoPath instanceName : string)
  (basePort : Z) (w : World) :
  exists t : list Event,
    trace (snd (deployInstance fuel repoPath instanceName basePort w))
      = (trace w ++ t)%list /\
    (fst (deployInstance fuel repoPath instanceName basePort w) = Some None <->
     exists argv env, In (EvRun argv env None) t) /\
    (forall stmt err, In (EvSql stmt err) t ->
     fst (deployInstance fuel repoPath instanceName basePort w) = Some None).
Proof.
  destruct (deployInstance_succeeds fuel repoPath instanceName basePort w)
    as (t & E & R & S).
  exists t. split; [exact E|]. split.
  - rewrite <- returned_nil_iff, <- R. apply run_ok_iff.
  - intros stmt err Hin. apply returned_nil_iff, S.
    apply existsb_exists. now exists (EvSql stmt err).
Qed.

End Success.

(** docker-compose fails on this machine: the deployment returns the error,
    stores nothing and removes its two files. *)
Definition compose_broken : World :=
  Demo.world {| Demo.busy := []; Demo.daemon_up := true; Demo.ps_names := "";
                Demo.compose_ok := false |}
    [ ("/srv/repo", Dir);
      ("/home/op/oss/code-graph-rag/docker-compose.yml", File "services:");
      ("/home/op/.graphsense/.env", File one_key) ]
    Demo.fresh_db "".

Example deploy_when_up_fails :
  let run := deployInstance 1 "/srv/repo" "" 0 compose_broken in
  (fst run, rows (db (snd run)), existsb is_sql (trace (snd run)),
   files (snd run) "/tmp/graphsense-env-*.env",
   files (snd run) "/tmp/graphsense-compose-*.yml")
  = (Some (Some "failed to deploy instance graphsense-repo: exit status 1"),
     [], false, Absent, Absent).
Proof. vm_compute. reflexivity. Qed.

(* ================================================================= *)
(** ** The registry stays well formed *)

(** The UNIQUE key of a row. *)
Definition key (r : Instance) : string * string :=
  (InstanceName r, ContainerName r).

(** What the schema of [InitDB] promises and what [StoreInstanceContainers]
    adds to it: no two rows share the key (instance, container), no two rows
    share an id, no id exceeds the AUTOINCREMENT counter, and every row
    names one of the three containers of its instance. *)
Definition registry_ok (d : Db) : Prop :=
  NoDup (map key (rows d)) /\
  NoDup (map ID (rows d)) /\
  Forall (fun r => ID r <= seq d) (rows d) /\
  registry_shaped (rows d).

(** [c] keeps the registry well formed. *)
Definition keeps_registry_ok `{Host} {A} (c : M A) : Prop :=
  forall w : World, registry_ok (db w) -> registry_ok (db (snd (c w))).

Section WellFormed.
Context `{Host} `{Platform}.

Lemma NoDup_snoc {A} (l : list A) (x : A) :
  NoDup l -> ~ In x l -> NoDup (l ++ [x]).
Proof.
  intros Hl Hx. induction Hl as [|y l Hy Hl IH]; simpl.
  - repeat constructor. auto.
  - constructor.
    + rewrite in_app_iff. intros [Hin|[->|[]]]; [auto|]. apply Hx. now left.
    + apply IH. intros Hin. apply Hx. now right.
Qed.

Lemma NoDup_map_filter {A B} (g : A -> B) (f : A -> bool) (l : list A) :
  NoDup (map g l) -> NoDup (map g (filter f l)).
Proof.
  induction l as [|x l IH]; simpl; auto.
  intros Hnd. inversion Hnd as [|? ? Hx Hl]; subst.
  destruct (f x); simpl; auto.
  constructor; auto. intros Hin. apply Hx.
  apply in_map_iff in Hin. destruct Hin as (y & Hy & Hin).
  apply filter_In in Hin. apply in_map_iff. exists y. tauto.
Qed.

Lemma Forall_filter {A} (P : A -> Prop) (f : A -> bool) (l : list A) :
  Forall P l -> Forall P (filter f l).
Proof.
  intros Hl. apply Forall_forall. intros x Hx. apply filter_In in Hx.
  rewrite Forall_forall in Hl. now apply Hl.
Qed.

(** The part of [registry_ok] that every statement keeps, whatever its
    operands. *)
Definition keys_ids_ok (d : Db) : Prop :=
  NoDup (map key (rows d)) /\
  NoDup (map ID (rows d)) /\
  Forall (fun r => ID r <= seq d) (rows d).

Lemma run_sql_keys_ids (stmt : Sql) (d : Db) :
  keys_ids_ok d -> keys_ids_ok (snd (run_sql stmt d)).
Proof.
  intros (Hk & Hi & Hs). unfold run_sql, keys_ids_ok.
  destruct (io_fail d (ops d)); [now cbn|].
  destruct stmt as [|i c r a p n|i|i|]; cbn [snd rows seq tick]; auto.
  - rewrite !map_app. cbn [map key ID InstanceName ContainerName].
    split; [|split].
    + apply NoDup_snoc; [now apply NoDup_map_filter|].
      intros Hin. apply in_map_iff in Hin. destruct Hin as (x & Hx & Hin).
      apply filter_In in Hin. destruct Hin as [_ Hin].
      unfold same_key, key in *. injection Hx as Hx1 Hx2.
      now rewrite Hx1, Hx2, !String.eqb_refl in Hin.
    + apply NoDup_snoc; [now apply NoDup_map_filter|].
      intros Hin. apply in_map_iff in Hin. destruct Hin as (x & Hx & Hin).
      apply filter_In in Hin. destruct Hin as [Hin _].
      rewrite Forall_forall in Hs. specialize (Hs x Hin). lia.
    + apply Forall_app. split.
      * apply Forall_filter. eapply Forall_impl; [|exact Hs].
        intros x Hx. cbn beta in *. lia.
      * repeat constructor. cbn [ID]. lia.
  - split; [now apply NoDup_map_filter|].
    split; [now apply NoDup_map_filter|now apply Forall_filter].
Qed.

(** [c] keeps the property [I] of the registry. *)
Definition db_inv (I : Db -> Prop) {A} (c : M A) : Prop :=
  forall w : World, I (db w) -> I (db (snd (c w))).

Lemma keys_ids_sql (stmt : Sql) : db_inv keys_ids_ok (sql stmt).
Proof.
  intros w Hok. pose proof (run_sql_keys_ids stmt (db w) Hok) as Hrun.
  unfold sql. run_monad.
  now destruct (run_sql stmt (db w)) as [[[rs n] err] d].
Qed.

Lemma db_inv_keeps (I : Db -> Prop) {A} (c : M A) :
  keeps db c -> db_inv I c.
Proof. intros Hk w Hw. now rewrite Hk. Qed.

Lemma db_inv_ret (I : Db -> Prop) {A} (a : A) : db_inv I (ret a).
Proof. intros w Hw. exact Hw. Qed.

Lemma db_inv_bind (I : Db -> Prop) {A B} (c : M A) (k : A -> M B) :
  db_inv I c -> (forall a, db_inv I (k a)) -> db_inv I (bind c k).
Proof.
  intros Hc Hk w Hw. unfold bind. specialize (Hc w Hw).
  destruct (c w) as [a w1]. now apply Hk.
Qed.

Lemma keeps_db_get_world : keeps db get_world.
Proof. intros w. reflexivity. Qed.

Lemma keeps_db_MkdirAll (path : string) : keeps db (os_MkdirAll path).
Proof.
  intros w. unfold os_MkdirAll. run_monad. now destruct (files w path).
Qed.

Lemma keeps_db_Remove (path : string) : keeps db (os_Remove path).
Proof. intros w. reflexivity. Qed.

Lemma keeps_db_CreateTemp (pattern : string) : keeps db (CreateTemp pattern).
Proof.
  intros w. unfold CreateTemp. run_monad.
  now destruct (os_CreateTemp pattern (host w)) as [[name [e|]] h].
Qed.

Lemma keeps_db_WriteString (name content : string) :
  keeps db (WriteString name content).
Proof.
  intros w. unfold WriteString. run_monad.
  now destruct (write_fails name content (host w)) as [[e|] h].
Qed.

Lemma keeps_db_wait_loop (left : nat) (instanceName : string) :
  forall attempt maxAttempts : Z,
    keeps db (wait_loop left instanceName attempt maxAttempts).
Proof.
  induction left as [|left IH]; intros attempt maxAttempts; simpl; [frame|].
  apply keeps_bind; [frame|]. intros [output [e|]].
  - apply keeps_bind; [frame|]. intros _. apply IH.
  - destruct (Contains output "Up"); [frame|].
    apply keeps_bind; [frame|]. intros _.
    apply keeps_bind; [frame|]. intros _. apply IH.
Qed.

Lemma keeps_db_WaitForHealthy (instanceName : string) (maxAttempts : Z) :
  keeps db (WaitForHealthy instanceName maxAttempts).
Proof.
  unfold WaitForHealthy. apply keeps_bind; [frame|]. intros _.
  apply keeps_bind; [apply keeps_db_wait_loop|]. intros [|]; frame.
Qed.

Lemma keeps_db_LoadAPIKeys : keeps db LoadAPIKeys.
Proof.
  unfold LoadAPIKeys. pose proof keeps_db_get_world. frame.
Qed.

End WellFormed.

Create HintDb registry.

(** Walks through a computation for a property of the registry. *)
Ltac registry_walk :=
  repeat first
    [ apply db_inv_ret
    | solve [auto with registry]
    | solve [apply db_inv_keeps; auto with frame]
    | apply db_inv_bind; [|intros]
    | progress cbv zeta
    | match goal with
      | |- db_inv _ (match ?x with _ => _ end) => destruct x
      | |- db_inv _ (if ?x then _ else _) => destruct x
      | |- db_inv _ (let (_, _) := ?x in _) => destruct x
      end ].

#[export] Hint Resolve keys_ids_sql : registry.

#[export] Hint Resolve keeps_db_get_world keeps_db_MkdirAll keeps_db_Remove
  keeps_db_CreateTemp keeps_db_WriteString keeps_db_WaitForHealthy
  keeps_db_LoadAPIKeys keeps_RunDockerCompose keeps_InstanceExists
  keeps_FindAvailablePortSet : frame.

Section WellFormedCommands.
Context `{Host} `{Platform}.

Lemma keys_ids_InitDB : db_inv keys_ids_ok InitDB.
Proof. unfold InitDB. registry_walk. Qed.

Lemma keys_ids_store_each (config : DeployConfig.t) (names : list string) :
  db_inv keys_ids_ok (store_each config names).
Proof.
  induction names as [|c rest IH]; simpl; [apply db_inv_ret|].
  apply db_inv_bind; [apply keys_ids_sql|].
  intros [[rs n] [e|]]; [apply db_inv_ret|exact IH].
Qed.

Lemma keys_ids_Store (config : DeployConfig.t) :
  db_inv keys_ids_ok (StoreInstanceContainers config).
Proof.
  pose proof keys_ids_InitDB. pose proof (keys_ids_store_each config).
  unfold StoreInstanceContainers. registry_walk.
Qed.

Lemma keys_ids_Remove (instanceName : string) :
  db_inv keys_ids_ok (RemoveInstanceContainers instanceName).
Proof.
  pose proof keys_ids_InitDB. unfold RemoveInstanceContainers. registry_walk.
Qed.

Lemma registry_ok_split (d : Db) :
  registry_ok d <-> keys_ids_ok d /\ registry_shaped (rows d).
Proof. unfold registry_ok, keys_ids_ok. tauto. Qed.

Lemma registry_ok_Store (config : DeployConfig.t) :
  db_inv registry_ok (StoreInstanceContainers config).
Proof.
  intros w Hw. apply registry_ok_split in Hw. destruct Hw as [Hk Hs].
  apply registry_ok_split. split.
  - now apply keys_ids_Store.
  - now apply store_keeps_shape.
Qed.

Lemma registry_ok_Remove (instanceName : string) :
  db_inv registry_ok (RemoveInstanceContainers instanceName).
Proof.
  intros w Hw. apply registry_ok_split in Hw. destruct Hw as [Hk Hs].
  apply registry_ok_split. split.
  - now apply keys_ids_Remove.
  - now apply remove_keeps_shape.
Qed.

End WellFormedCommands.

Definition shaped_db (d : Db) : Prop := registry_shaped (rows d).

Section WellFormedReads.
Context `{Host} `{Platform}.

(** A statement other than INSERT adds no row. *)
Lemma shaped_sql_read (stmt : Sql) :
  (forall i c r a p n, stmt <> InsertOrReplace i c r a p n) ->
  db_inv shaped_db (sql stmt).
Proof.
  intros Hstmt w Hw. unfold shaped_db in *.
  destruct (sql_rows stmt w) as (-> & _). unfold run_sql.
  destruct (io_fail (db w) (ops (db w))); [exact Hw|].
  destruct stmt as [|i c r a p n|i|i|]; cbn [snd rows tick]; auto.
  - now destruct (Hstmt i c r a p n).
  - now apply Forall_filter.
Qed.

Lemma shaped_InitDB : db_inv shaped_db InitDB.
Proof.
  intros w Hw. unfold shaped_db in *.
  now destruct (InitDB_frame w) as (-> & _).
Qed.

Lemma registry_ok_db_inv {A} (c : M A) :
  db_inv keys_ids_ok c -> db_inv shaped_db c -> db_inv registry_ok c.
Proof.
  intros Hk Hs w Hw. apply registry_ok_split in Hw. destruct Hw as [Hwk Hws].
  apply registry_ok_split. split; [now apply Hk|now apply Hs].
Qed.

Lemma registry_ok_Get (instanceName : string) :
  db_inv registry_ok (GetInstanceContainers instanceName).
Proof.
  apply registry_ok_db_inv; unfold GetInstanceContainers.
  - pose proof keys_ids_InitDB. registry_walk.
  - pose proof shaped_InitDB.
    assert (db_inv shaped_db (sql (SelectByInstance instanceName)))
      by (apply shaped_sql_read; discriminate).
    registry_walk.
Qed.

Lemma registry_ok_GetAll : db_inv registry_ok GetAllInstances.
Proof.
  apply registry_ok_db_inv; unfold GetAllInstances.
  - pose proof keys_ids_InitDB. registry_walk.
  - pose proof shaped_InitDB.
    assert (db_inv shaped_db (sql SelectAll))
      by (apply shaped_sql_read; discriminate).
    registry_walk.
Qed.

Lemma registry_ok_deployInstance (fuel : nat) (repoPath instanceName : string)
  (basePort : Z) :
  db_inv registry_ok (deployInstance fuel repoPath instanceName basePort).
Proof.
  pose proof registry_ok_Store. unfold deployInstance. registry_walk.
Qed.

(** X13: Deploying, storing, removing and listing keep the registry well formed:
    the key (instance, container) stays unique, ids stay unique and below the
    counter, and every row names one of the three containers of its
    instance. *)
Theorem registry_stays_well_formed (w : World) :
  registry_ok (db w) ->
  (forall config, registry_ok (db (snd (StoreInstanceContainers config w)))) /\
  (forall name, registry_ok (db (snd (RemoveInstanceContainers name w)))) /\
  (forall name, registry_ok (db (snd (GetInstanceContainers name w)))) /\
  registry_ok (db (snd (GetAllInstances w))) /\
  (forall fuel repoPath instanceName basePort,
     registry_ok
       (db (snd (deployInstance fuel repoPath instanceName basePort w)))).
Proof.
  intros Hw. split; [|split; [|split; [|split]]].
  - intros config. now apply registry_ok_Store.
  - intros name. now apply registry_ok_Remove.
  - intros name. now apply registry_ok_Get.
  - now apply registry_ok_GetAll.
  - intros fuel repoPath instanceName basePort.
    now apply registry_ok_deployInstance.
Qed.

Lemma GetInstanceContainers_failed (instanceName : string) (w w2 : World)
  (rs : list Instance) (e : string) :
  GetInstanceContainers instanceName w = (rs, Some e, w2) -> rs = [].
Proof.
  unfold GetInstanceContainers, bind.
  destruct (InitDB w) as [[e0|] w0]; [intros E; now injection E as <- _ _|].
  destruct (sql (SelectByInstance instanceName) w0) as [[[rs' n] [e1|]] w'];
    intros E; [now injection E as <- _ _|discriminate].
Qed.

Lemma instance_rows_bound (instanceName : string) (rs : list Instance) :
  NoDup (map key rs) -> registry_shaped rs ->
  (List.length (filter (of_instance instanceName) rs) <= 3)%nat.
Proof.
  intros Hk Hs.
  set (l := filter (of_instance instanceName) rs).
  assert (Hin : forall x, In x l ->
            InstanceName x = instanceName /\ shaped_row x).
  { intros x Hx. apply filter_In in Hx. destruct Hx as [Hx Hof]. split.
    - unfold of_instance in Hof. now apply String.eqb_eq in Hof.
    - unfold registry_shaped in Hs. rewrite Forall_forall in Hs. auto. }
  assert (Hnd : NoDup (map ContainerName l)).
  { apply (NoDup_map_inv (fun c => (instanceName, c))).
    rewrite map_map.
    rewrite (map_ext_in _ key); [now apply NoDup_map_filter|].
    intros x Hx. unfold key. now destruct (Hin x Hx) as [-> _]. }
  rewrite <- (length_map ContainerName l).
  change 3%nat with (List.length [instanceName ++ "-app";
                                  instanceName ++ "-postgres";
                                  instanceName ++ "-neo4j"]).
  apply NoDup_incl_length; [exact Hnd|].
  intros c Hc. apply in_map_iff in Hc. destruct Hc as (x & <- & Hx).
  destruct (Hin x Hx) as [<- [-> | [-> | ->]]]; simpl; auto.
Qed.

(** X14: However often an instance was deployed, a well-formed registry lists at
    most three containers for it. *)
Theorem instance_has_at_most_three_rows (instanceName : string) (w : World) :
  registry_ok (db w) ->
  (List.length (fst (fst (GetInstanceContainers instanceName w))) <= 3)%nat.
Proof.
  intros (Hk & _ & _ & Hs).
  destruct (GetInstanceContainers instanceName w) as [[rs [e|]] w2] eqn:E.
  - apply GetInstanceContainers_failed in E. subst rs. simpl. lia.
  - apply GetInstanceContainers_rows in E. subst rs. cbn [fst].
    rewrite (Permutation_length (order_by_perm by_container _)).
    now apply instance_rows_bound.
Qed.

End WellFormedReads.

(** The registry of [two_instances] is well formed: six rows, six keys, ids
    1 to 6. *)
Lemma two_instances_ok : registry_ok (db two_instances).
Proof.
  unfold registry_ok. vm_compute rows. vm_compute seq. cbn [map key ID].
  split; [|split; [|split]].
  - repeat constructor; cbn [In];
      intros Hin; repeat destruct Hin as [Hin|Hin]; try discriminate; exact Hin.
  - repeat constructor; cbn [In];
      intros Hin; repeat destruct Hin as [Hin|Hin]; try discriminate; exact Hin.
  - repeat constructor; cbn [ID]; lia.
  - apply Forall_forall. intros x Hin. cbn [In] in Hin.
    repeat destruct Hin as [<-|Hin]; [vm_compute; auto ..|destruct Hin].
Defined.

Lemma registry_stays_well_formed_witness :
  registry_ok (db two_instances) /\
  registry_ok (db (snd (StoreInstanceContainers moved two_instances))) /\
  registry_ok (db (snd (RemoveInstanceContainers "graphsense-api" two_instances))) /\
  registry_ok (db (snd (deployInstance 10 "/srv/repo" "" 0 two_instances))).
Proof.
  pose proof (registry_stays_well_formed two_instances two_instances_ok)
    as (Hstore & Hremove & _ & _ & Hdeploy).
  split; [exact two_instances_ok|].
  split; [apply Hstore|]. split; [apply Hremove|apply Hdeploy].
Defined.

Lemma instance_has_at_most_three_rows_witness :
  registry_ok (db two_instances) /\
  (List.length (fst (fst (GetInstanceContainers "graphsense-repo" two_instances)))
     <= 3)%nat.
Proof.
  split; [exact two_instances_ok|].
  apply (instance_has_at_most_three_rows "graphsense-repo" two_instances).
  exact two_instances_ok.
Defined.

(* ================================================================= *)
(** ** The port search on a host whose ports do not change *)

Section StableHost.
Context `{Host}.

(** What [net.Listen] answers for [port] in host state [h]. *)
Definition in_use (h : HostState) (port : Z) : bool := fst (listen_fails port h).

(** One of the three ports of candidate [port] is taken. *)
Definition triple_busy (h : HostState) (port : Z) : bool :=
  in_use h port || (in_use h (int_add port 100) || in_use h (int_add port 200)).

(** Probing a port leaves the host as it was: no other process takes or
    frees a port while the search runs. *)
Definition stable_ports : Prop :=
  forall (port : Z) (h : HostState), snd (listen_fails port h) = h.

Lemma triple_in_use_stable (port : Z) (w : World) :
  stable_ports ->
  fst (triple_in_use port (int_add port 100) (int_add port 200) w)
    = triple_busy (host w) port /\
  host (snd (triple_in_use port (int_add port 100) (int_add port 200) w))
    = host w.
Proof.
  intros Hst. unfold triple_in_use, orM, bind, triple_busy, in_use.
  rewrite isPortInUse_eq, Hst.
  destruct (fst (listen_fails port (host w))); [now split|].
  rewrite isPortInUse_eq. cbn [host after]. rewrite Hst.
  destruct (fst (listen_fails (int_add port 100) (host w))); [now split|].
  rewrite isPortInUse_eq. cbn [host after fst snd]. rewrite Hst.
  now split.
Qed.

Lemma find_loop_first_free (basePort : Z) :
  stable_ports ->
  forall (k fuel : nat) (port : Z) (w : World),
    min_int <= port ->
    ((0 < k)%nat -> port + port_step * Z.of_nat k <= port_limit) ->
    (forall j : nat, (j < k)%nat ->
       triple_busy (host w) (port + port_step * Z.of_nat j) = true) ->
    triple_busy (host w) (port + port_step * Z.of_nat k) = false ->
    (k < fuel)%nat ->
    fst (find_loop fuel basePort port w)
      = Some (port + port_step * Z.of_nat k, None).
Proof.
  intros Hst. induction k as [|k IH]; intros fuel port w Hmin Hlim Hbusy Hfree Hfuel;
    (destruct fuel as [|fuel]; [lia|]); rewrite find_loop_step;
    destruct (triple_in_use_stable port w Hst) as [Hb Hh];
    destruct (triple_in_use port _ _ w) as [b w1]; cbn [fst snd] in Hb, Hh;
    subst b.
  - replace (port + port_step * Z.of_nat 0) with port in * by lia.
    rewrite Hfree. reflexivity.
  - pose proof (Hbusy 0%nat ltac:(lia)) as H0.
    replace (port + port_step * Z.of_nat 0) with port in H0 by lia.
    rewrite H0.
    assert (Hk : port + port_step * Z.of_nat (S k) <= port_limit) by (apply Hlim; lia).
    assert (Hnext : int_add port port_step = port + port_step).
    { apply wrap_id. unfold min_int, max_int, port_step, port_limit in *. lia. }
    rewrite Hnext.
    destruct (Z.gtb_spec (port + port_step) port_limit) as [Hgt|_];
      [unfold port_step in *; lia|].
    replace (port + port_step * Z.of_nat (S k))
      with ((port + port_step) + port_step * Z.of_nat k) in * by lia.
    apply IH.
    + unfold port_step, min_int in *. lia.
    + intros _. exact Hk.
    + intros j Hj. rewrite Hh.
      replace (port + port_step + port_step * Z.of_nat j)
        with (port + port_step * Z.of_nat (S j)) by lia.
      apply Hbusy. lia.
    + now rewrite Hh.
    + lia.
Qed.

Lemma find_loop_exhausted (basePort : Z) :
  stable_ports ->
  forall (k fuel : nat) (port : Z) (w : World),
    min_int <= port ->
    port + port_step * Z.of_nat k <= max_int - port_step ->
    port + port_step * Z.of_nat k <= port_limit \/ k = 0%nat ->
    port_limit < port + port_step * Z.of_nat (S k) ->
    (forall j : nat, (j <= k)%nat ->
       triple_busy (host w) (port + port_step * Z.of_nat j) = true) ->
    (k < fuel)%nat ->
    fst (find_loop fuel basePort port w)
      = Some (0, Errorf "unable to find available port set starting from %d"
                   [AInt basePort]).
Proof.
  intros Hst. induction k as [|k IH];
    intros fuel port w Hmin Hmax Hin Hout Hbusy Hfuel;
    (destruct fuel as [|fuel]; [lia|]); rewrite find_loop_step;
    destruct (triple_in_use_stable port w Hst) as [Hb Hh];
    destruct (triple_in_use port _ _ w) as [b w1]; cbn [fst snd] in Hb, Hh;
    subst b;
    pose proof (Hbusy 0%nat ltac:(lia)) as H0;
    replace (port + port_step * Z.of_nat 0) with port in H0 by lia;
    rewrite H0;
    (assert (Hnext : int_add port port_step = port + port_step)
      by (apply wrap_id; unfold min_int, max_int, port_step, port_limit in *; lia));
    rewrite Hnext.
  - destruct (Z.gtb_spec (port + port_step) port_limit) as [_|Hle];
      [reflexivity | unfold port_step in *; lia].
  - destruct Hin as [Hin|Hin]; [|lia].
    destruct (Z.gtb_spec (port + port_step) port_limit) as [Hgt|_];
      [unfold port_step in *; lia|].
    apply IH.
    + unfold port_step, min_int in *. lia.
    + unfold port_step in *. lia.
    + left. unfold port_step in *. lia.
    + unfold port_step in *. lia.
    + intros j Hj. rewrite Hh.
      replace (port + port_step + port_step * Z.of_nat j)
        with (port + port_step * Z.of_nat (S j)) by lia.
      apply Hbusy. lia.
    + lia.
Qed.

(** The base the search starts from: 8080 when none was asked for. *)
Definition start_port (basePort : Z) : Z :=
  if basePort =? 0 then DefaultBasePort else basePort.

(** X15: On a host whose ports do not change during the search,
    [FindAvailablePortSet] returns the first candidate, counting from the
    base in steps of 10, whose three ports are all free, as long as that
    candidate does not lie beyond 65000. *)
Theorem allocator_returns_first_free (basePort : Z) (w : World) (k fuel : nat) :
  stable_ports ->
  min_int <= start_port basePort ->
  ((0 < k)%nat -> start_port basePort + 10 * Z.of_nat k <= 65000) ->
  (forall j : nat, (j < k)%nat ->
     triple_busy (host w) (start_port basePort + 10 * Z.of_nat j) = true) ->
  triple_busy (host w) (start_port basePort + 10 * Z.of_nat k) = false ->
  (k < fuel)%nat ->
  fst (FindAvailablePortSet fuel basePort w)
    = Some (start_port basePort + 10 * Z.of_nat k, None).
Proof.
  intros Hst Hmin Hlim Hbusy Hfree Hfuel. unfold FindAvailablePortSet.
  fold (start_port basePort).
  now apply (find_loop_first_free (start_port basePort) Hst k).
Qed.

(** X16: On a host whose ports do not change during the search, the
    capacity error is returned after every candidate up to 65000 was found
    in use; its message names the base the search started from, 8080 when
    none was asked for. *)
Theorem allocator_exhausted (basePort : Z) (w : World) (k fuel : nat) :
  stable_ports ->
  min_int <= start_port basePort ->
  start_port basePort + 10 * Z.of_nat k <= max_int - 10 ->
  start_port basePort + 10 * Z.of_nat k <= 65000 \/ k = 0%nat ->
  65000 < start_port basePort + 10 * Z.of_nat (S k) ->
  (forall j : nat, (j <= k)%nat ->
     triple_busy (host w) (start_port basePort + 10 * Z.of_nat j) = true) ->
  (k < fuel)%nat ->
  fst (FindAvailablePortSet fuel basePort w)
    = Some (0, Errorf "unable to find available port set starting from %d"
                 [AInt (start_port basePort)]).
Proof.
  intros Hst Hmin Hmax Hin Hout Hbusy Hfuel. unfold FindAvailablePortSet.
  fold (start_port basePort).
  now apply (find_loop_exhausted (start_port basePort) Hst k).
Qed.

End StableHost.

Definition nearly_full : World :=
  Demo.world {| Demo.busy := [64990; 65100]; Demo.daemon_up := true;
                Demo.ps_names := ""; Demo.compose_ok := true |}
             [] Demo.fresh_db "".

Lemma demo_ports_stable : stable_ports.
Proof. intros port h. reflexivity. Qed.

Lemma allocator_returns_first_free_witness :
  fst (FindAvailablePortSet 5 0 taken_8080) = Some (8090, None).
Proof.
  apply (allocator_returns_first_free 0 taken_8080 1 5).
  - exact demo_ports_stable.
  - vm_compute. discriminate.
  - intros _. vm_compute. discriminate.
  - intros j Hj. assert (j = 0%nat) as -> by lia. vm_compute. reflexivity.
  - vm_compute. reflexivity.
  - lia.
Defined.

Lemma allocator_exhausted_witness :
  fst (FindAvailablePortSet 5 64990 nearly_full)
    = Some (0, Some "unable to find available port set starting from 64990").
Proof.
  apply (allocator_exhausted 64990 nearly_full 1 5).
  - exact demo_ports_stable.
  - vm_compute. discriminate.
  - vm_compute. discriminate.
  - left. vm_compute. discriminate.
  - vm_compute. reflexivity.
  - intros j Hj.
    assert (j = 0%nat \/ j = 1%nat) as [-> | ->] by lia; vm_compute; reflexivity.
  - lia.
Defined.

Section AllocatedPorts.
Context `{Host}.

Lemma find_loop_range (basePort : Z) :
  forall (fuel : nat) (port : Z) (w w' : World) (p : Z),
    min_int <= port <= port_limit ->
    find_loop fuel basePort port w = (Some (p, None), w') ->
    exists k : nat, p = port + port_step * Z.of_nat k /\ p <= port_limit.
Proof.
  induction fuel as [|fuel IH]; intros port w w' p Hport Hrun; [discriminate|].
  rewrite find_loop_step in Hrun.
  destruct (triple_in_use port _ _ w) as [[|] w1].
  - assert (Hnext : int_add port port_step = port + port_step).
    { apply wrap_id. unfold min_int, max_int, port_step, port_limit in *. lia. }
    rewrite Hnext in Hrun.
    destruct (Z.gtb_spec (port + port_step) port_limit) as [_|Hle];
      [discriminate|].
    apply IH in Hrun; [|unfold port_step in *; lia].
    destruct Hrun as (k & -> & Hp). exists (S k). split; [lia|exact Hp].
  - injection Hrun as <- _. exists 0%nat. split; lia.
Qed.

(** X17: From a base between 1 and 65000 the search, on whatever host, only
    returns a base between the one it started from and 65000, a whole number
    of steps of 10 away; the two ports [deployInstance] derives from it do
    not overflow and all three are valid TCP ports. *)
Theorem allocated_ports_are_valid (fuel : nat) (basePort p : Z) (w w' : World) :
  1 <= start_port basePort <= 65000 ->
  FindAvailablePortSet fuel basePort w = (Some (p, None), w') ->
  start_port basePort <= p <= 65000 /\
  (exists k : nat, p = start_port basePort + 10 * Z.of_nat k) /\
  int_add p 100 = p + 100 /\
  int_add p 200 = p + 200 /\
  Forall (fun q => 1 <= q <= 65535) (triple p).
Proof.
  intros Hstart Hrun. unfold FindAvailablePortSet in Hrun.
  fold (start_port basePort) in Hrun.
  apply find_loop_range in Hrun;
    [|unfold min_int, port_limit; lia].
  destruct Hrun as (k & Hp & Hlim). unfold port_step, port_limit in *.
  assert (H100 : int_add p 100 = p + 100)
    by (apply wrap_id; unfold min_int, max_int; lia).
  assert (H200 : int_add p 200 = p + 200)
    by (apply wrap_id; unfold min_int, max_int; lia).
  split; [lia|]. split; [now exists k|]. split; [exact H100|].
  split; [exact H200|]. unfold triple. rewrite H100, H200.
  constructor; [lia|]. constructor; [lia|]. constructor; [lia|constructor].
Qed.

End AllocatedPorts.

Lemma allocated_ports_are_valid_witness :
  start_port 0 <= 8090 <= 65000 /\
  (exists k : nat, 8090 = start_port 0 + 10 * Z.of_nat k) /\
  int_add 8090 100 = 8090 + 100 /\
  int_add 8090 200 = 8090 + 200 /\
  Forall (fun q => 1 <= q <= 65535) (triple 8090).
Proof.
  apply (allocated_ports_are_valid 5 0 8090 taken_8080
           (snd (FindAvailablePortSet 5 0 taken_8080))).
  - vm_compute. split; discriminate.
  - vm_compute. reflexivity.
Defined.

(* ================================================================= *)
(** ** A store that fails half way *)

Section PartialStore.
Context `{Host}.

Lemma store_each_partial (config : DeployConfig.t) (names : list string) :
  forall (w w1 : World) (e : string),
    store_each config names w = (Some e, w1) ->
    exists k : nat,
      (k < List.length names)%nat /\
      inserted config (firstn k names) (rows (db w)) (rows (db w1)).
Proof.
  induction names as [|c rest IH]; intros w w1 e Hrun; simpl in Hrun.
  - discriminate.
  - unfold bind in Hrun.
    set (stmt := InsertOrReplace _ _ _ _ _ _) in Hrun.
    destruct (sql_rows stmt w) as (Hrows & _ & _ & _ & Hres).
    destruct (sql stmt w) as [[[rs n] err] w'] eqn:Esql.
    cbn [fst snd] in Hrows, Hres.
    unfold run_sql, stmt in Hrows, Hres.
    destruct (io_fail (db w) (ops (db w))); cbn [fst snd rows tick] in Hrows, Hres.
    + injection Hres as _ _ ->. unfold ret in Hrun. injection Hrun as _ <-.
      exists 0%nat. split; [simpl; lia|]. simpl. exact Hrows.
    + injection Hres as _ _ ->. apply IH in Hrun.
      destruct Hrun as (k & Hk & Hins). exists (S k). split; [simpl; lia|].
      cbn [firstn inserted].
      exists {| ID := seq (db w) + 1;
                InstanceName := DeployConfig.InstanceName config;
                ContainerName := c;
                RepoPath := DeployConfig.RepoPath config;
                AppPort := DeployConfig.AppPort config;
                PostgresPort := DeployConfig.PostgresPort config;
                Neo4jBoltPort := DeployConfig.Neo4jBoltPort config;
                CreatedAt := clock (db w) (ops (db w)) |}.
      split; [repeat split|].
      unfold upsert. cbn [InstanceName ContainerName]. now rewrite <- Hrows.
Qed.

(** X18: [StoreInstanceContainers] runs its three inserts one by one, outside
    any transaction: when it returns an error, the rows of the containers
    stored before the failing statement stay in the table, so the instance
    may be left with none, one or two of its three rows rewritten. *)
Theorem failed_store_is_partial (config : DeployConfig.t) (w w1 : World)
  (e : string) :
  StoreInstanceContainers config w = (Some e, w1) ->
  exists k : nat,
    (k < 3)%nat /\
    inserted config (firstn k (containerNames config))
      (rows (db w)) (rows (db w1)).
Proof.
  unfold StoreInstanceContainers, bind. intros Hrun.
  destruct (InitDB_frame w) as (Hrows & _).
  destruct (InitDB w) as [[e0|] w0]; cbn [snd] in Hrows.
  - unfold ret in Hrun. injection Hrun as _ <-.
    exists 0%nat. split; [lia|]. simpl. exact Hrows.
  - destruct (store_each config (containerNames config) w0) as [[e1|] w0'] eqn:Es.
    + unfold ret in Hrun. injection Hrun as _ <-.
      apply store_each_partial in Es. rewrite Hrows in Es. exact Es.
    + unfold Log, emit, ret in Hrun. discriminate.
Qed.

End PartialStore.

(** A registry file whose third statement fails. *)
Definition failing_disk : World :=
  Demo.world Demo.quiet []
    {| on_disk := false; rows := []; seq := 0; ops := 0;
       io_fail := fun n => Nat.eqb n 2;
       clock := fun _ => "2025-01-01 00:00:00" |} "".

Lemma failed_store_is_partial_witness :
  exists k : nat,
    (k < 3)%nat /\
    inserted Demo.config (firstn k (containerNames Demo.config))
      (rows (db failing_disk))
      (rows (db (snd (StoreInstanceContainers Demo.config failing_disk)))).
Proof.
  apply (failed_store_is_partial Demo.config failing_disk
           (snd (StoreInstanceContainers Demo.config failing_disk))
           "failed to store container graphsense-repo-postgres: disk I/O error").
  vm_compute. reflexivity.
Defined.

Example half_stored_instance :
  map ContainerName
    (rows (db (snd (StoreInstanceContainers Demo.config failing_disk))))
  = ["graphsense-repo-app"].
Proof. vm_compute. reflexivity. Qed.

(* ================================================================= *)
(** ** Names are stable under sanitising *)

Section StableNames.
Context `{Platform}.

Lemma Sanitize_fixed (s : string) :
  all_chars name_char s = true -> SanitizeInstanceName s = s.
Proof.
  intros Hs. unfold SanitizeInstanceName, ReplaceAllString.
  rewrite (ToLower_name_chars s Hs). now apply replace_runs_id.
Qed.

(** X19: Sanitising a name a second time changes nothing, so the name
    [deployInstance] settles on and logs is the name it settles on again when
    that name is passed back to it. *)
Theorem sanitised_names_are_stable (absRepoPath instanceName : string) :
  SanitizeInstanceName (SanitizeInstanceName instanceName)
    = SanitizeInstanceName instanceName /\
  (deploy_name absRepoPath instanceName <> "" ->
   deploy_name absRepoPath (deploy_name absRepoPath instanceName)
     = deploy_name absRepoPath instanceName).
Proof.
  split.
  - apply Sanitize_fixed, Sanitize_chars.
  - intros Hne. unfold deploy_name at 1.
    destruct (String.eqb_spec (deploy_name absRepoPath instanceName) "") as [E|_];
      [now elim Hne|].
    apply Sanitize_fixed. unfold deploy_name. apply Sanitize_chars.
Qed.

End StableNames.

Example resanitised_name :
  deploy_name "/srv/My Repo" "" = "graphsense-my-repo" /\
  deploy_name "/srv/My Repo" "graphsense-my-repo" = "graphsense-my-repo" /\
  deploy_name "/srv/My Repo" "Team_A/api" = "team-a-api" /\
  deploy_name "/srv/My Repo" "team-a-api" = "team-a-api".
Proof. vm_compute. auto. Qed.

(* ================================================================= *)
(** ** The secrets file: the last assignment wins *)

Section LastAssignment.
Context `{Host} `{Platform}.

Lemma load_lines_app (ls rest : list string) :
  Forall (fun l => line_fits l = true) ls ->
  forall keys : string * string,
    load_lines keys (ls ++ rest) = load_lines (fst (load_lines keys ls)) rest.
Proof.
  induction 1 as [|l ls Hl _ IH]; intros keys; simpl; [reflexivity|].
  rewrite Hl. apply IH.
Qed.

Lemma load_lines_fits (ls : list string) :
  Forall (fun l => line_fits l = true) ls ->
  forall keys : string * string, snd (load_lines keys ls) = None.
Proof.
  induction 1 as [|l ls Hl _ IH]; intros keys; simpl; [reflexivity|].
  rewrite Hl. apply IH.
Qed.

(** X20: When the secrets file assigns a key on several lines, [LoadAPIKeys]
    returns the value of the last of them: line [l] assigns the key and no
    later line does. *)
Theorem last_assignment_wins (w : World) (h content l v : string)
  (before later : list string) :
  home w = (h, None) ->
  files w (secrets_path h) = File content ->
  raw_lines "" content = (before ++ l :: later)%list ->
  Forall (fun l => line_fits l = true) (raw_lines "" content) ->
  (parse_line (drop_cr l) = Some ("CO_API_KEY", v) ->
   (forall l' v', In l' later ->
      parse_line (drop_cr l') <> Some ("CO_API_KEY", v')) ->
   exists other : string, fst (LoadAPIKeys w) = (v, other, None)) /\
  (parse_line (drop_cr l) = Some ("ANTHROPIC_API_KEY", v) ->
   (forall l' v', In l' later ->
      parse_line (drop_cr l') <> Some ("ANTHROPIC_API_KEY", v')) ->
   exists other : string, fst (LoadAPIKeys w) = (other, v, None)).
Proof.
  intros Hhome Hfile Hsplit Hfit.
  rewrite (LoadAPIKeys_file w h content Hhome Hfile).
  pose proof (load_lines_fits _ Hfit ("", "")) as Hnone.
  rewrite Hsplit in *.
  apply Forall_app in Hfit. destruct Hfit as [Hbefore Hrest].
  inversion Hrest as [|? ? Hl Hlater]; subst.
  rewrite (load_lines_app before (l :: later) Hbefore) in *.
  set (keys := fst (load_lines ("", "") before)) in *.
  cbn [load_lines] in *. rewrite Hl in *.
  split; intros Hparse Hlast.
  - destruct (load_lines_untouched later (load_line keys (drop_cr l)))
      as [Hco _]. specialize (Hco Hlast).
    unfold load_line in Hco, Hnone |- *. rewrite Hparse in *.
    cbn [String.eqb Ascii.eqb Bool.eqb fst snd] in *.
    destruct (load_lines (v, snd keys) later) as [[c a] e].
    cbn [fst snd] in *. subst. now exists a.
  - destruct (load_lines_untouched later (load_line keys (drop_cr l)))
      as [_ Han]. specialize (Han Hlast).
    unfold load_line in Han, Hnone |- *. rewrite Hparse in *.
    cbn [String.eqb Ascii.eqb Bool.eqb fst snd] in *.
    destruct (load_lines (fst keys, v) later) as [[c a] e].
    cbn [fst snd] in *. subst. now exists c.
Qed.

End LastAssignment.

(** A secrets file that assigns one key twice. *)
Definition rotated_key : string :=
  "CO_API_KEY=old" ++ nl ++ "ANTHROPIC_API_KEY=sk-1" ++ nl
  ++ "CO_API_KEY = new" ++ nl.

Lemma last_assignment_wins_witness :
  exists other : string,
    fst (LoadAPIKeys (ready (File rotated_key))) = ("new", other, None).
Proof.
  refine (proj1 (last_assignment_wins (ready (File rotated_key)) "/home/op"
                   rotated_key "CO_API_KEY = new" "new"
                   ["CO_API_KEY=old"; "ANTHROPIC_API_KEY=sk-1"] []
                   _ _ _ _) _ _).
  - reflexivity.
  - vm_compute. reflexivity.
  - vm_compute. reflexivity.
  - vm_compute. repeat constructor.
  - vm_compute. reflexivity.
  - intros l' v' [].
Defined.
